(** * Conflict detection and resolution of [ExperimentBranchBuilder]

    A shallow embedding of
    [orion/core/io/experiment_branch_builder.py]: the conflict detector,
    the resolution API (add / remove / rename / reset of dimensions, with
    keyword and wildcard expansion), the command-line directive parser and
    the adaptor construction, followed by the properties established (or
    refuted) about them.

    Python objects that are shared and mutated in place (the [Conflict]
    instances referenced both from [self.conflicts] and from the lists of
    [self.operations]) are modelled by a store: [self.conflicts] is a list
    and a reference to a conflict is its position in that list.  A raised
    exception leaves the mutations done so far in place, so a call maps a
    builder to an outcome together with the builder it leaves behind. *)

From Stdlib Require Import String Ascii List Arith Bool Lia.
From stdpp Require Import base option list.
Import ListNotations.

Local Open Scope string_scope.
Local Open Scope list_scope.

(** ** Python string primitives used by the module *)

Module PyStr.

(** [s.startswith(p)] *)
Definition startswith (s p : string) : bool := String.prefix p s.

(** [sub in s] for strings: [sub] occurs as a contiguous substring. *)
Fixpoint contains (sub s : string) : bool :=
String.prefix sub s ||
match s with
| EmptyString => false
| String _ s' => contains sub s'
end.

(** [s.split(sep)] for a one-character separator: every occurrence
  splits, and empty pieces are kept ([''.split(' ') == ['']]). *)
Fixpoint split (sep : ascii) (s : string) : list string :=
match s with
| EmptyString => [EmptyString]
| String c s' =>
    if Ascii.eqb c sep then EmptyString :: split sep s'
    else match split sep s' with
         | h :: t => String c h :: t
         | [] => [String c EmptyString]
         end
end.

(** [s[1:]] *)
Definition tail (s : string) : string :=
match s with
| EmptyString => EmptyString
| String _ s' => s'
end.

(** [s.replace(old, new)] for a non-empty [old]: occurrences are
  replaced from the left and do not overlap.  [skip] counts the
  characters of a matched occurrence that are still to be dropped. *)
Fixpoint replace_from (old new : string) (skip : nat) (s : string) : string :=
match s with
| EmptyString => EmptyString
| String c s' =>
    match skip with
    | S k => replace_from old new k s'
    | O =>
        if String.prefix old s
        then (new ++ replace_from old new (String.length old - 1) s')%string
        else String c (replace_from old new 0 s')
    end
end.

Definition replace (old new s : string) : string := replace_from old new 0 s.

End PyStr.

(** ** Data model *)

(** Modelled from the spec: the [Dimension] and [Space] classes live in
    [orion.algo.space], outside this module.  A dimension descriptor is a
    name together with an opaque prior specification, compared by value;
    a space is an ordered mapping from a dimension name to its descriptor
    (the key of a descriptor is its own name). *)
Record Dimension : Type := mkDimension { name : string; prior : string }.

Definition Dimension_eqb (d1 d2 : Dimension) : bool :=
  String.eqb (name d1) (name d2) && String.eqb (prior d1) (prior d2).

Definition Space : Type := list Dimension.

Module SpaceOps.

(** [space.values()] *)
Definition values (s : Space) : list Dimension := s.

(** [n in space]: membership of a key. *)
Definition has_name (n : string) (s : Space) : bool :=
existsb (fun d => String.eqb (name d) n) s.

(** [d in space.values()]: some value equals [d]. *)
Definition has_value (d : Dimension) (s : Space) : bool :=
existsb (Dimension_eqb d) (values s).

(** [space[n]], when the key is present. *)
Definition get (n : string) (s : Space) : option Dimension :=
List.find (fun d => String.eqb (name d) n) s.

(** The keys of a mapping are pairwise distinct. *)
Definition well_formed (s : Space) : Prop := List.NoDup (map name s).

End SpaceOps.

(** [Conflict.status] is one of the strings ['new'], ['changed'],
    ['missing']. *)
Inductive Status : Type := new | changed | missing.

Definition Status_str (s : Status) : string :=
  match s with
  | new => "new"
  | changed => "changed"
  | missing => "missing"
  end.

Definition Status_eqb (s1 s2 : Status) : bool :=
  match s1, s2 with
  | new, new | changed, changed | missing, missing => true
  | _, _ => false
  end.

(** [class Conflict] *)
Record Conflict : Type := mkConflict {
  is_solved : bool;
  dimension : Dimension;
  status : Status
}.

(** [Conflict(status, dimension)] *)
Definition Conflict_init (st : Status) (dim : Dimension) : Conflict :=
  {| is_solved := false; dimension := dim; status := st |}.

(** ** Conflict detection *)

(** First loop of [_find_conflicts], over the child's space. *)
Fixpoint find_conflicts_child (experiment_space : Space) (dims : list Dimension)
  : list Conflict :=
  match dims with
  | [] => []
  | dim :: rest =>
      (if SpaceOps.has_name (name dim) experiment_space
       then if negb (SpaceOps.has_value dim experiment_space)
            then [Conflict_init changed dim]
            else []
       else [Conflict_init new dim])
      ++ find_conflicts_child experiment_space rest
  end.

(** Second loop of [_find_conflicts], over the parent's space. *)
Fixpoint find_conflicts_parent (conflicting_space : Space) (dims : list Dimension)
  : list Conflict :=
  match dims with
  | [] => []
  | dim :: rest =>
      (if negb (SpaceOps.has_name (name dim) conflicting_space)
       then [Conflict_init missing dim]
       else [])
      ++ find_conflicts_parent conflicting_space rest
  end.

(** [_find_conflicts]: the value of [self.conflicts] after the two loops,
    starting from the empty list. *)
Definition find_conflicts (experiment_space conflicting_space : Space)
  : list Conflict :=
  find_conflicts_child experiment_space (SpaceOps.values conflicting_space)
  ++ find_conflicts_parent conflicting_space (SpaceOps.values experiment_space).

(** ** The builder's mutable state *)

(** A reference to a [Conflict] object: its position in [self.conflicts].
    Two references are the same object exactly when they are equal, which
    is what [==] and [in] test on [Conflict] instances (the class defines
    no [__eq__]). *)
Abbreviation Ref := nat.

(** The keys of [self.operations]. *)
Inductive OpName : Type := op_add | op_remove | op_rename.

Definition OpName_eqb (o1 o2 : OpName) : bool :=
  match o1, o2 with
  | op_add, op_add | op_remove, op_remove | op_rename, op_rename => true
  | _, _ => false
  end.

(** What an operation list holds: a conflict (for [add] and [remove]) or
    a tuple of two conflicts (for [rename]). *)
Inductive Payload : Type :=
| PConflict (c : Ref)
| PTuple (c_old c_new : Ref).

(** [==] on payloads: identity on conflicts, componentwise on tuples. *)
Definition Payload_eqb (p q : Payload) : bool :=
  match p, q with
  | PConflict a, PConflict b => Nat.eqb a b
  | PTuple a1 a2, PTuple b1 b2 => Nat.eqb a1 b1 && Nat.eqb a2 b2
  | _, _ => false
  end.

(** [self.operations] is a dict, iterated in insertion order. *)
Definition Operations : Type := list (OpName * list Payload).

Record Builder : Type := mkBuilder {
  conflicts : list Conflict;
  operations : Operations
}.

(** Exceptions the module can raise. [ValueError] is what [list.index]
    raises when a name matches no conflict. *)
Inductive Exception : Type := ValueError | TypeError | IndexError | AttributeError.

Inductive Outcome (A : Type) : Type :=
| Return (a : A)
| Raise (e : Exception).
Arguments Return {A} a.
Arguments Raise {A} e.

(** A method of the builder: it runs on a builder and leaves a builder
    behind, whether it returns or raises. *)
Definition Py (A : Type) : Type := Builder -> Outcome A * Builder.

Definition ret {A} (a : A) : Py A := fun b => (Return a, b).
Definition raise {A} (e : Exception) : Py A := fun b => (Raise e, b).
Definition bind {A B} (m : Py A) (k : A -> Py B) : Py B :=
  fun b =>
    match m b with
    | (Return a, b') => k a b'
    | (Raise e, b') => (Raise e, b')
    end.
Definition get_self : Py Builder := fun b => (Return b, b).
Definition set_conflicts (cs : list Conflict) : Py unit :=
  fun b => (Return tt, {| conflicts := cs; operations := operations b |}).
Definition set_operations (ops : Operations) : Py unit :=
  fun b => (Return tt, {| conflicts := conflicts b; operations := ops |}).

Declare Scope py_scope.
Delimit Scope py_scope with py.
Notation "x <- c1 ;; c2" := (bind c1 (fun x => c2))
  (at level 100, c1 at next level, right associativity) : py_scope.
Notation "c1 ;;; c2" := (bind c1 (fun _ => c2))
  (at level 100, right associativity) : py_scope.
Local Open Scope py_scope.

(** [for x in xs: body(x)] over a list that the body does not change. *)
Fixpoint for_each {A} (xs : list A) (body : A -> Py unit) : Py unit :=
  match xs with
  | [] => ret tt
  | x :: rest => body x ;;; for_each rest body
  end.

(** The builder left behind and the outcome of a call. *)
Definition exec {A} (m : Py A) (b : Builder) : Builder := snd (m b).
Definition outcome {A} (m : Py A) (b : Builder) : Outcome A := fst (m b).
Definition succeeds {A} (m : Py A) (b : Builder) : bool :=
  match outcome m b with Return _ => true | Raise _ => false end.

(** ** Python list and dict primitives *)

Module PyList.

(** [l.index(x)] on a list of strings; [None] stands for [ValueError]. *)
Fixpoint index (x : string) (l : list string) : option nat :=
match l with
| [] => None
| y :: rest => if String.eqb y x then Some 0 else option_map S (index x rest)
end.

(** [x in l] on a list of payloads. *)
Definition mem (x : Payload) (l : list Payload) : bool :=
existsb (Payload_eqb x) l.

(** [l.remove(x)]: the first item equal to [x] goes. *)
Fixpoint remove (x : Payload) (l : list Payload) : list Payload :=
match l with
| [] => []
| y :: rest => if Payload_eqb y x then rest else y :: remove x rest
end.

End PyList.

Module PyDict.

(** [k in d] *)
Definition has (k : OpName) (d : Operations) : bool :=
existsb (fun kv => OpName_eqb (fst kv) k) d.

(** [d[k]]; a missing key reads as the empty list here, the callers
  below only read keys they have seen in the dict. *)
Fixpoint get (k : OpName) (d : Operations) : list Payload :=
match d with
| [] => []
| (k', v) :: rest => if OpName_eqb k' k then v else get k rest
end.

(** The list under [k] is replaced by [v] (its in-place mutation); a new
  key goes last. *)
Fixpoint set (k : OpName) (v : list Payload) (d : Operations) : Operations :=
match d with
| [] => [(k, v)]
| (k', v') :: rest =>
    if OpName_eqb k' k then (k', v) :: rest else (k', v') :: set k v rest
end.

Definition keys (d : Operations) : list OpName := map fst d.

End PyDict.

(** ** Looking conflicts up *)

(** The [status] argument of the helpers: the public methods pass a list
    of status strings, [rename_dimension] passes a single string. *)
Inductive StatusArg : Type :=
| StatusList (l : list Status)
| StatusStr (s : Status).

(** [c.status in status]: membership in a list, substring of a string. *)
Definition status_in (s : Status) (sts : StatusArg) : bool :=
  match sts with
  | StatusList l => existsb (fun t => Status_eqb t s) l
  | StatusStr t => PyStr.contains (Status_str s) (Status_str t)
  end.

(** The conflicts of [cs] that satisfy [f], in order, each with its
    reference; [i] is the reference of the head of [cs]. *)
Fixpoint filter_from (i : Ref) (f : Conflict -> bool) (cs : list Conflict)
  : list (Ref * Conflict) :=
  match cs with
  | [] => []
  | c :: rest =>
      if f c then (i, c) :: filter_from (S i) f rest
      else filter_from (S i) f rest
  end.

(** [filter_conflicts] *)
Definition filter_conflicts (filter_function : Conflict -> bool) (b : Builder)
  : list (Ref * Conflict) :=
  filter_from 0 filter_function (conflicts b).

(** [_filter_conflicts_status] *)
Definition _filter_conflicts_status (sts : StatusArg) (b : Builder)
  : list (Ref * Conflict) :=
  filter_conflicts (fun c => status_in (status c) sts) b.

(** [map(lambda c: c.dimension.name, conflicts)] *)
Definition dimension_names (cs : list (Ref * Conflict)) : list string :=
  map (fun rc => name (dimension (snd rc))) cs.

(** [map(lambda c: c.dimension.name[1:], conflicts)] *)
Definition stripped_names (cs : list (Ref * Conflict)) : list string :=
  map (fun rc => PyStr.tail (name (dimension (snd rc)))) cs.

(** [self.special_keywords] *)
Definition special_keywords (arg : string) : option Status :=
  if String.eqb arg "~new" then Some new
  else if String.eqb arg "~changed" then Some changed
  else if String.eqb arg "~missing" then Some missing
  else None.

(** [_extend_special_keywords]: the value of [names] after the call.  It
    is only called on a key of [special_keywords]. *)
Definition _extend_special_keywords (arg : string) (names : list string)
  (b : Builder) : list string :=
  match special_keywords arg with
  | Some s => names ++ stripped_names (_filter_conflicts_status (StatusList [s]) b)
  | None => names
  end.

(** [_extend_wildcard]: the value of [names] after the call. *)
Definition _extend_wildcard (arg : string) (names : list string)
  (sts : StatusArg) (b : Builder) : list string :=
  let prefix := ("/" ++ hd EmptyString (PyStr.split "*" arg))%string in
  let filtered_conflicts :=
    filter_conflicts
      (fun c => PyStr.startswith (name (dimension c)) prefix
                && status_in (status c) sts) b in
  names ++ stripped_names filtered_conflicts.

(** One iteration of the loop of [_get_names]. *)
Definition _get_names_step (sts : StatusArg) (b : Builder)
  (names : list string) (arg : string) : list string :=
  if bool_decide (is_Some (special_keywords arg))
  then _extend_special_keywords arg names b
  else if PyStr.contains "*" arg
       then _extend_wildcard arg names sts b
       else [arg].

(** [_get_names] *)
Definition _get_names (name_ : string) (sts : StatusArg) (b : Builder)
  : list string :=
  let args := PyStr.split " " name_ in
  fold_left (_get_names_step sts b) args [].

(** [_assert_has_status] *)
Definition _assert_has_status (name_ : string) (sts : StatusArg)
  : Py (nat * list (Ref * Conflict)) :=
  b <- get_self ;;
  let prefixed_name := ("/" ++ name_)%string in
  let conflicts_ := _filter_conflicts_status sts b in
  match PyList.index prefixed_name (dimension_names conflicts_) with
  | Some index => ret (index, conflicts_)
  | None => raise ValueError
  end.

(** [conflict.is_solved = v] on the object behind a reference. *)
Definition set_is_solved (r : Ref) (v : bool) : Py unit :=
  b <- get_self ;;
  set_conflicts
    (alter (fun c => {| is_solved := v;
                        dimension := dimension c;
                        status := status c |}) r (conflicts b)).

(** [_mark_as] *)
Definition _mark_as (name_ : string) (sts : StatusArg) (v : bool) : Py Ref :=
  found <- _assert_has_status name_ sts ;;
  match snd found !! fst found with
  | Some (conflict, _) => set_is_solved conflict v ;;; ret conflict
  | None => raise IndexError
  end.

(** [_mark_as_solved] *)
Definition _mark_as_solved (name_ : string) (sts : StatusArg) : Py Ref :=
  _mark_as name_ sts true.

(** ** The operation log *)

(** [self.operations[k] = f(self.operations[k])], the list under [k]
    changed in place. *)
Definition update_operation (k : OpName) (f : list Payload -> list Payload)
  : Py unit :=
  b <- get_self ;;
  set_operations (PyDict.set k (f (PyDict.get k (operations b))) (operations b)).

(** [_put_operation] *)
Definition _put_operation (operation_name : OpName) (args : Payload) : Py unit :=
  (b <- get_self ;;
   if negb (PyDict.has operation_name (operations b))
   then set_operations (PyDict.set operation_name [] (operations b))
   else ret tt) ;;;
  (b <- get_self ;;
   if negb (PyList.mem args (PyDict.get operation_name (operations b)))
   then update_operation operation_name (fun l => l ++ [args])
   else ret tt).

(** The [for value in self.operations['rename']] loop of
    [_remove_from_operations].  The list is changed while it is iterated:
    the iterator is a position [i] into the live list, and stops when the
    position runs past its end.  The list never grows and [i] grows by one
    each turn, so [fuel] turns, for [fuel] the length of the list on
    entry, always reach that end. *)
Fixpoint rename_loop (fuel : nat) (i : nat) (arg : Ref) : Py unit :=
  match fuel with
  | O => ret tt
  | S fuel' =>
      b <- get_self ;;
      match PyDict.get op_rename (operations b) !! i with
      | None => ret tt
      | Some (PConflict _) => raise TypeError
      | Some (PTuple old_c new_c as value) =>
          if Nat.eqb arg old_c || Nat.eqb arg new_c
          then set_is_solved old_c false ;;;
               set_is_solved new_c false ;;;
               update_operation op_rename (PyList.remove value) ;;;
               rename_loop fuel' (S i) arg
          else rename_loop fuel' (S i) arg
      end
  end.

(** [_remove_from_operations] *)
Definition _remove_from_operations (arg : Ref) : Py unit :=
  b <- get_self ;;
  for_each (PyDict.keys (operations b)) (fun operation =>
    if OpName_eqb operation op_rename
    then b1 <- get_self ;;
         rename_loop (length (PyDict.get op_rename (operations b1))) 0 arg
    else b1 <- get_self ;;
         if PyList.mem (PConflict arg) (PyDict.get operation (operations b1))
         then set_is_solved arg false ;;;
              update_operation operation (PyList.remove (PConflict arg))
         else ret tt).

(** ** Public API *)

(** The loop of [_do_basic], over the names [_get_names] returned. *)
Definition _do_basic_loop (sts : StatusArg) (operation : OpName)
  (names : list string) : Py unit :=
  for_each names (fun _name =>
    conflict <- _mark_as_solved _name sts ;;
    _put_operation operation (PConflict conflict)).

(** [_do_basic] *)
Definition _do_basic (name_ : string) (sts : StatusArg) (operation : OpName)
  : Py unit :=
  b <- get_self ;;
  _do_basic_loop sts operation (_get_names name_ sts b).

(** [add_dimension] *)
Definition add_dimension (args : string) : Py unit :=
  _do_basic args (StatusList [new; changed]) op_add.

(** [remove_dimension] *)
Definition remove_dimension (name_ : string) : Py unit :=
  _do_basic name_ (StatusList [missing]) op_remove.

(** [reset_dimension].  The loop body looks [arg] up, not [_name]. *)
Definition reset_dimension (arg : string) : Py unit :=
  let sts := StatusList [missing; new; changed] in
  b <- get_self ;;
  for_each (_get_names arg sts b) (fun _name =>
    conflict <- _mark_as arg sts false ;;
    _remove_from_operations conflict).

(** [rename_dimension] *)
Definition rename_dimension (args : string * string) : Py unit :=
  let '(old_name, new_name) := args in
  found_old <- _assert_has_status old_name (StatusStr missing) ;;
  found_new <- _assert_has_status new_name (StatusStr new) ;;
  match snd found_old !! fst found_old, snd found_new !! fst found_new with
  | Some (old_conflict, _), Some (new_conflict, _) =>
      set_is_solved old_conflict true ;;;
      set_is_solved new_conflict true ;;;
      _put_operation op_rename (PTuple old_conflict new_conflict)
  | _, _ => raise IndexError
  end.

(** [get_dimension_conflict] *)
Definition get_dimension_conflict (name_ : string) : Py Ref :=
  b <- get_self ;;
  let prefixed_name := ("/" ++ name_)%string in
  match PyList.index prefixed_name (map (fun c => name (dimension c)) (conflicts b)) with
  | Some index => ret index
  | None => raise ValueError
  end.

(** ** Adaptors *)

(** What an adaptor method evaluates to: its body is [pass], so [None]. *)
Inductive Adaptor : Type := NoneAdaptor.

(** What [create_adaptors] evaluates to: [None], or a list of adaptors. *)
Inductive Value : Type :=
| VNone
| VList (items : list Adaptor).

(** [_add_adaptor]: both branches are [pass]. *)
Definition _add_adaptor (conflict : Payload) : Py Adaptor :=
  match conflict with
  | PConflict r =>
      b <- get_self ;;
      match conflicts b !! r with
      | Some c => if Status_eqb (status c) changed then ret NoneAdaptor else ret NoneAdaptor
      | None => raise IndexError
      end
  | PTuple _ _ => raise AttributeError
  end.

(** [_rename_adaptor] *)
Definition _rename_adaptor (conflict : Payload) : Py Adaptor := ret NoneAdaptor.

(** [_remove_adaptor] *)
Definition _remove_adaptor (conflict : Payload) : Py Adaptor := ret NoneAdaptor.

(** [self._operations_mapping] *)
Definition _operations_mapping (operation : OpName) : Payload -> Py Adaptor :=
  match operation with
  | op_add => _add_adaptor
  | op_rename => _rename_adaptor
  | op_remove => _remove_adaptor
  end.

(** [for x in xs: acc.append(f(x))], giving the final [acc]. *)
Fixpoint append_each {A B} (xs : list A) (f : A -> Py B) (acc : list B)
  : Py (list B) :=
  match xs with
  | [] => ret acc
  | x :: rest => y <- f x ;; append_each rest f (acc ++ [y])
  end.

(** The local list [adaptors] at the end of the two loops of
    [create_adaptors]. *)
Fixpoint create_adaptors_loop (ops : Operations) (adaptors : list Adaptor)
  : Py (list Adaptor) :=
  match ops with
  | [] => ret adaptors
  | (operation, payloads) :: rest =>
      adaptors' <- append_each payloads (_operations_mapping operation) adaptors ;;
      create_adaptors_loop rest adaptors'
  end.

(** [create_adaptors]: the body has no [return] statement, so the call
    evaluates to [None] once the loops are done. *)
Definition create_adaptors : Py Value :=
  b <- get_self ;;
  adaptors <- create_adaptors_loop (operations b) [] ;;
  ret VNone.

(** How many payloads the operation log records. *)
Definition recorded_payloads (b : Builder) : nat :=
  length (flat_map snd (operations b)).

(** ** The directive parser *)

Module Commandline.

(** The state [_interpret_commandline] works on: the child's
  [user_args] (changed in place), the local [to_delete] and
  [self.commandline_keywords]. *)
Record State : Type := mkState {
args : list string;
to_delete : list nat;
commandline_keywords : list (string * list string)
}.

(** [{'~+': [], '~-': [], '~>': []}] *)
Definition initial (user_args : list string) : State :=
{| args := user_args;
   to_delete := [];
   commandline_keywords := [("~+", []); ("~-", []); ("~>", [])] |}.

(** [self.commandline_keywords[keyword].append(arg)] *)
Fixpoint queue (keyword arg : string) (d : list (string * list string))
: list (string * list string) :=
match d with
| [] => []
| (k, v) :: rest =>
    if String.eqb k keyword then (k, v ++ [arg]) :: rest
    else (k, v) :: queue keyword arg rest
end.

(** [self.commandline_keywords[keyword]] *)
Fixpoint queued (keyword : string) (d : list (string * list string))
: list string :=
match d with
| [] => []
| (k, v) :: rest => if String.eqb k keyword then v else queued keyword rest
end.

(** The body of [for keyword in self.commandline_keywords], for the
  token [arg] the outer loop is at. *)
Definition keyword_step (arg : string) (keyword : string) (st : State)
: Outcome unit * State :=
if PyStr.contains keyword arg then
  let st1 := {| args := args st;
                to_delete := to_delete st;
                commandline_keywords :=
                  queue keyword arg (commandline_keywords st) |} in
  match PyList.index arg (args st1) with
  | None => (Raise ValueError, st1)
  | Some index =>
      if String.eqb keyword "~+"
      then (Return tt,
            {| args := <[index := PyStr.replace keyword "~" arg]> (args st1);
               to_delete := to_delete st1;
               commandline_keywords := commandline_keywords st1 |})
      else (Return tt,
            {| args := args st1;
               to_delete := to_delete st1 ++ [index];
               commandline_keywords := commandline_keywords st1 |})
  end
else (Return tt, st).

Fixpoint keyword_loop (arg : string) (keywords : list string) (st : State)
: Outcome unit * State :=
match keywords with
| [] => (Return tt, st)
| keyword :: rest =>
    match keyword_step arg keyword st with
    | (Return _, st') => keyword_loop arg rest st'
    | (Raise e, st') => (Raise e, st')
    end
end.

(** [for arg in args]: the iterator is a position into the live list,
  whose length the body never changes; [fuel] is the number of
  positions left. *)
Fixpoint arg_loop (fuel : nat) (i : nat) (st : State) : Outcome unit * State :=
match fuel with
| O => (Return tt, st)
| S fuel' =>
    match args st !! i with
    | None => (Return tt, st)
    | Some arg =>
        match keyword_loop arg (map fst (commandline_keywords st)) st with
        | (Return _, st') => arg_loop fuel' (S i) st'
        | (Raise e, st') => (Raise e, st')
        end
    end
end.

(** [sorted(l, reverse=True)] on indices. *)
Fixpoint insert_desc (x : nat) (l : list nat) : list nat :=
match l with
| [] => [x]
| y :: rest => if Nat.leb y x then x :: l else y :: insert_desc x rest
end.

Definition sorted_reverse (l : list nat) : list nat :=
fold_right insert_desc [] l.

(** [for i in ...: del args[i]]; an index past the end raises. *)
Fixpoint delete_loop (indices : list nat) (st : State) : Outcome unit * State :=
match indices with
| [] => (Return tt, st)
| i :: rest =>
    if Nat.ltb i (length (args st))
    then delete_loop rest {| args := delete i (args st);
                             to_delete := to_delete st;
                             commandline_keywords := commandline_keywords st |}
    else (Raise IndexError, st)
end.

(** [_interpret_commandline] *)
Definition _interpret_commandline (user_args : list string)
: Outcome unit * State :=
let st := initial user_args in
match arg_loop (length (args st)) 0 st with
| (Return _, st') => delete_loop (sorted_reverse (to_delete st')) st'
| (Raise e, st') => (Raise e, st')
end.

(** A token carries the marker [keyword]. *)
Definition carries (keyword arg : string) : bool := PyStr.contains keyword arg.

End Commandline.

(** ** Sessions *)

(** The builder once [_find_conflicts] has run in [__init__]. *)
Definition detected (experiment_space conflicting_space : Space) : Builder :=
  {| conflicts := find_conflicts experiment_space conflicting_space;
     operations := [] |}.

(** A call of the resolution API. *)
Inductive Call : Type :=
| call_add_dimension (args : string)
| call_remove_dimension (name_ : string)
| call_rename_dimension (old_name new_name : string)
| call_reset_dimension (arg : string).

Definition run_call (c : Call) : Py unit :=
  match c with
  | call_add_dimension a => add_dimension a
  | call_remove_dimension n => remove_dimension n
  | call_rename_dimension o n => rename_dimension (o, n)
  | call_reset_dimension a => reset_dimension a
  end.

(** A session: calls made one after the other on the same builder, the
    caller carrying on after a call that raised. *)
Definition run_calls (cs : list Call) (b : Builder) : Builder :=
  fold_left (fun b c => exec (run_call c) b) cs b.

(** ** Vocabulary of the properties *)

(** How many conflicts of [cs] have name [n] and status [s]. *)
Definition count_conflicts (n : string) (s : Status) (cs : list Conflict) : nat :=
  length (List.filter
            (fun c => String.eqb (name (dimension c)) n && Status_eqb (status c) s)
            cs).

(** How many conflicts of [cs] have name [n], whatever their status. *)
Definition count_named (n : string) (cs : list Conflict) : nat :=
  length (List.filter (fun c => String.eqb (name (dimension c)) n) cs).

(** What never changes in a conflict: its dimension and its status. *)
Definition membership (b : Builder) : list (Dimension * Status) :=
  map (fun c => (dimension c, status c)) (conflicts b).

Definition conflict_names (b : Builder) : list string :=
  map (fun c => name (dimension c)) (conflicts b).

(** The candidates a lookup of [name_] under [sts] chooses from: the
    conflicts of an allowed status whose name is the prefixed name. *)
Definition lookup_matches (name_ : string) (sts : StatusArg) (b : Builder)
  : list (Ref * Conflict) :=
  List.filter (fun rc => String.eqb (name (dimension (snd rc))) ("/" ++ name_)%string)
              (_filter_conflicts_status sts b).

(** [is_solved] of the conflict behind a reference. *)
Definition solved (r : Ref) (b : Builder) : option bool :=
  is_solved <$> conflicts b !! r.

(** The conflict behind [r] is named [name_] (prefix apart) and has
    status [s]. *)
Definition refers_to (r : Ref) (name_ : string) (s : Status) (b : Builder) : Prop :=
  exists c, conflicts b !! r = Some c
            /\ name (dimension c) = ("/" ++ name_)%string
            /\ status c = s.

(** Some conflict is named [name_] and has status [s]; with
    [unsolved_only], only unsolved conflicts count. *)
Definition has_conflict (name_ : string) (s : Status) (unsolved_only : bool)
  (b : Builder) : bool :=
  existsb (fun c => String.eqb (name (dimension c)) ("/" ++ name_)%string
                    && Status_eqb (status c) s
                    && (negb unsolved_only || negb (is_solved c)))
          (conflicts b).

(** A token the loop of [_get_names] takes as a name: neither a special
    keyword nor a wildcard. *)
Definition is_literal (arg : string) : bool :=
  negb (bool_decide (is_Some (special_keywords arg)))
  && negb (PyStr.contains "*" arg).

(** A whole argument that is one literal token. *)
Definition is_plain_name (arg : string) : bool :=
  is_literal arg && negb (PyStr.contains " " arg).

(** The tokens from the last literal one onward; all of them when none
    is literal. *)
Fixpoint from_last_literal (tokens : list string) : list string :=
  match tokens with
  | [] => []
  | t :: rest =>
      if existsb is_literal rest then from_last_literal rest else t :: rest
  end.

(** A payload mentions a conflict. *)
Definition mentions (r : Ref) (p : Payload) : bool :=
  match p with
  | PConflict c => Nat.eqb r c
  | PTuple c_old c_new => Nat.eqb r c_old || Nat.eqb r c_new
  end.

Definition is_tuple (p : Payload) : bool :=
  match p with PTuple _ _ => true | PConflict _ => false end.

(** How many entries of the list under [k] equal the payload [p]. *)
Definition count_entries (p : Payload) (k : OpName) (b : Builder) : nat :=
  length (List.filter (Payload_eqb p) (PyDict.get k (operations b))).

(** What every session keeps true of the operation log: no list holds a
    payload twice, and the [rename] list holds tuples only. *)
Definition log_ok (ops : Operations) : Prop :=
  (forall k, List.NoDup (PyDict.get k ops))
  /\ Forall (fun p => is_tuple p = true) (PyDict.get op_rename ops).

(** The conflict a lookup of [name_] under [sts] settles on: the first
    conflict of [self.conflicts] with an allowed status and the prefixed
    name. *)
Definition lookup_test (name_ : string) (sts : StatusArg) (c : Conflict) : bool :=
  status_in (status c) sts
  && String.eqb (name (dimension c)) ("/" ++ name_)%string.

Definition first_match (name_ : string) (sts : StatusArg) (b : Builder)
  : option (Ref * Conflict) :=
  list_find (fun c => lookup_test name_ sts c = true) (conflicts b).

(** The builder with [is_solved] of the conflict behind [r] set to [v]. *)
Definition with_solved (r : Ref) (v : bool) (b : Builder) : Builder :=
  exec (set_is_solved r v) b.

(** A call keeps a relation between the builder it starts from and the
    builder it leaves behind, whether it returns or raises. *)
Definition keeps (R : Builder -> Builder -> Prop) {A} (m : Py A) : Prop :=
  forall b, R b (exec m b).

(** The conflict set has the same members, in the same order. *)
Definition same_membership (b b' : Builder) : Prop :=
  membership b' = membership b.

(** A sound operation log stays sound. *)
Definition log_stays_ok (b b' : Builder) : Prop :=
  log_ok (operations b) -> log_ok (operations b').

(** ** Scenarios *)

Module Scenario.

(** Parent [--missing~uniform(-10,10) --changed~uniform(-10,10)], child
  [--new~normal(0,2) --changed~normal(0,2)]. *)
Definition parent : Space :=
[ {| name := "/missing"; prior := "uniform(-10,10)" |};
  {| name := "/changed"; prior := "uniform(-10,10)" |} ].
Definition child : Space :=
[ {| name := "/new"; prior := "normal(0,2)" |};
  {| name := "/changed"; prior := "normal(0,2)" |} ].
Definition builder : Builder := detected parent child.

(** Conflicts [new:/db.host], [new:/db.port], [missing:/cache.ttl]. *)
Definition db_parent : Space :=
[ {| name := "/cache.ttl"; prior := "uniform(0,60)" |} ].
Definition db_child : Space :=
[ {| name := "/db.host"; prior := "choices(['a','b'])" |};
  {| name := "/db.port"; prior := "uniform(1024,65535)" |} ].
Definition db_builder : Builder := detected db_parent db_child.

(** A child argument list with the same drop directive given twice. *)
Definition repeated_drop : list string :=
[ "--a~-"; "--x~uniform(0,1)"; "--a~-" ].

End Scenario.

(** ** The rest of the public API *)

(** [get_old_dimension_value]: [None] is Python's [None]. *)
Definition get_old_dimension_value (experiment_space : Space) (name_ : string)
  : option Dimension :=
  if SpaceOps.has_name name_ experiment_space
  then SpaceOps.get name_ experiment_space
  else None.

(** ** Vocabulary of the further properties *)

(** What a list of the log may hold, given the members of the conflict
    set: [add] holds [new] and [changed] conflicts, [remove] holds
    [missing] conflicts, [rename] holds pairs of a [missing] and a [new]
    conflict. *)
Definition payload_ok (members : list (Dimension * Status)) (k : OpName)
  (p : Payload) : Prop :=
  match k, p with
  | op_add, PConflict r =>
      exists d s, members !! r = Some (d, s) /\ (s = new \/ s = changed)
  | op_remove, PConflict r => exists d, members !! r = Some (d, missing)
  | op_rename, PTuple i j =>
      (exists d, members !! i = Some (d, missing))
      /\ (exists d, members !! j = Some (d, new))
  | _, _ => False
  end.

Definition typed (members : list (Dimension * Status)) (ops : Operations) : Prop :=
  Forall (fun kv => Forall (payload_ok members (fst kv)) (snd kv)) ops.

Definition log_typed (b : Builder) : Prop := typed (membership b) (operations b).

(** The members stay and a well-typed log stays well typed. *)
Definition stays_typed (b b' : Builder) : Prop :=
  membership b' = membership b /\ (log_typed b -> log_typed b').

(** On a sound log, a call raises nothing but [ValueError]. *)
Definition raises_only_ValueError {A} (m : Py A) : Prop :=
  forall b e, log_ok (operations b) -> outcome m b = Raise e -> e = ValueError.

(** ** Vocabulary of the directive parser *)

(** What the parser leaves in place of an append token. *)
Definition rewritten (arg : string) : string :=
  if Commandline.carries "~+" arg then PyStr.replace "~+" "~" arg else arg.

(** A drop or a rename token. *)
Definition dropped (arg : string) : bool :=
  Commandline.carries "~-" arg || Commandline.carries "~>" arg.

(** How many of the three markers a token carries. *)
Definition markers (arg : string) : nat :=
  (if Commandline.carries "~+" arg then 1 else 0)
  + (if Commandline.carries "~-" arg then 1 else 0)
  + (if Commandline.carries "~>" arg then 1 else 0).

(** The positions of the drop and rename tokens of [l], counted from
    [offset]. *)
Fixpoint dropped_positions (offset : nat) (l : list string) : list nat :=
  match l with
  | [] => []
  | arg :: rest =>
      if dropped arg then offset :: dropped_positions (S offset) rest
      else dropped_positions (S offset) rest
  end.

(** The three queues filled with the marked tokens of [l], in order. *)
Definition queues_of (l : list string) : list (string * list string) :=
  [ ("~+", List.filter (Commandline.carries "~+") l);
    ("~-", List.filter (Commandline.carries "~-") l);
    ("~>", List.filter (Commandline.carries "~>") l) ].

(** The tokens are pairwise distinct, and no rewritten append token is a
    token of the list. *)
Definition unambiguous (l : list string) : Prop :=
  List.NoDup l
  /\ forall arg, In arg l -> Commandline.carries "~+" arg = true ->
                 ~ In (rewritten arg) l.


(** ** Vocabulary of the solved conflicts *)

(** Some list of the log holds a payload that mentions the conflict. *)
Definition recorded (r : Ref) (ops : Operations) : Prop :=
  exists k p, In p (PyDict.get k ops) /\ mentions r p = true.

(** Every solved conflict is recorded in the log. *)
Definition solved_recorded (b : Builder) : Prop :=
  forall r, solved r b = Some true -> recorded r (operations b).

Definition stays_recorded (b b' : Builder) : Prop :=
  solved_recorded b -> solved_recorded b'.


(** ** Vocabulary of the expansions *)

(** The conflicts the expansion of a keyword or wildcard token picks:
    the filter of [_extend_special_keywords], resp. [_extend_wildcard]. *)
Definition selected (arg : string) (sts : StatusArg) (c : Conflict) : bool :=
  match special_keywords arg with
  | Some s => status_in (status c) (StatusList [s])
  | None =>
      PyStr.startswith (name (dimension c))
        ("/" ++ hd EmptyString (PyStr.split "*" arg))%string
      && status_in (status c) sts
  end.

(** Every name of the space starts with the separator, as the names the
    space builder makes do. *)
Definition prefixed (s : Space) : Prop :=
  Forall (fun d => PyStr.startswith (name d) "/" = true) s.


(** * Properties *)

(** ** Conflict detection *)

Section Detection.

Implicit Types (parent child s : Space) (d : Dimension) (n : string).

Lemma Dimension_eqb_eq d1 d2 : Dimension_eqb d1 d2 = true <-> d1 = d2.
Proof.
unfold Dimension_eqb. rewrite andb_true_iff, !String.eqb_eq.
destruct d1, d2; simpl. split.
- intros [-> ->]. reflexivity.
- intros [= -> ->]. split; reflexivity.
Qed.

Lemma has_name_In n s : SpaceOps.has_name n s = true <-> In n (map name s).
Proof.
unfold SpaceOps.has_name. rewrite existsb_exists, in_map_iff.
split; intros (d & H1 & H2).
- apply String.eqb_eq in H2. eauto.
- exists d. split; [assumption | now apply String.eqb_eq].
Qed.

Lemma has_name_false n s : SpaceOps.has_name n s = false <-> ~ In n (map name s).
Proof.
rewrite <- has_name_In. destruct (SpaceOps.has_name n s); split; congruence.
Qed.

Lemma has_value_In d s : SpaceOps.has_value d s = true <-> In d s.
Proof.
unfold SpaceOps.has_value, SpaceOps.values. rewrite existsb_exists.
split.
- intros (d' & Hin & Heq). apply Dimension_eqb_eq in Heq. now subst.
- intros Hin. exists d. split; [assumption | now apply Dimension_eqb_eq].
Qed.

Lemma get_None n s : SpaceOps.get n s = None <-> ~ In n (map name s).
Proof.
unfold SpaceOps.get. induction s as [|d s IH]; simpl.
- tauto.
- destruct (String.eqb_spec (name d) n) as [-> | Hne].
  + split; [discriminate | tauto].
  + rewrite IH. tauto.
Qed.

Lemma get_Some_name n s d : SpaceOps.get n s = Some d -> name d = n /\ In d s.
Proof.
unfold SpaceOps.get. intros H. apply find_some in H as [Hin Heq].
apply String.eqb_eq in Heq. tauto.
Qed.

Lemma get_has_name n s :
SpaceOps.has_name n s = true <-> exists d, SpaceOps.get n s = Some d.
Proof.
destruct (SpaceOps.get n s) as [d|] eqn:E.
- split; [eauto |]. intros _. apply has_name_In.
  apply get_Some_name in E as [<- Hin]. now apply in_map.
- split.
  + intros H. apply has_name_In in H. now apply get_None in E.
  + intros [d [=]].
Qed.

(** In a well-formed space the value under a name is the only
  descriptor of that name. *)
Lemma get_unique n s d d' :
SpaceOps.well_formed s -> SpaceOps.get n s = Some d ->
In d' s -> name d' = n -> d' = d.
Proof.
unfold SpaceOps.well_formed, SpaceOps.get.
induction s as [|x s IH]; simpl; intros Hnd Hget Hin Hname; [tauto|].
inversion Hnd as [|? ? Hnotin Hnd']; subst.
destruct (String.eqb_spec (name x) (name d')) as [Heq | Hne].
- injection Hget as <-. destruct Hin as [-> | Hin]; [reflexivity|].
  exfalso. apply Hnotin. rewrite Heq. now apply in_map.
- destruct Hin as [-> | Hin]; [congruence|]. now apply IH.
Qed.

Lemma count_conflicts_app n st (l1 l2 : list Conflict) :
count_conflicts n st (l1 ++ l2)
= count_conflicts n st l1 + count_conflicts n st l2.
Proof. unfold count_conflicts. now rewrite List.filter_app, length_app. Qed.

(** What the child's loop emits about a name. *)
Lemma count_child parent dims n st :
List.NoDup (map name dims) ->
count_conflicts n st (find_conflicts_child parent dims)
= match SpaceOps.get n dims with
  | Some d =>
      if SpaceOps.has_name n parent
      then if SpaceOps.has_value d parent then 0
           else if Status_eqb changed st then 1 else 0
      else if Status_eqb new st then 1 else 0
  | None => 0
  end.
Proof.
induction dims as [|d dims IH]; intros Hnd; [reflexivity|].
inversion Hnd as [|? ? Hnotin Hnd']; subst.
cbn [find_conflicts_child]. rewrite count_conflicts_app, (IH Hnd').
unfold SpaceOps.get. cbn [List.find].
destruct (String.eqb_spec (name d) n) as [<- | Hne].
- apply get_None in Hnotin. unfold SpaceOps.get in Hnotin. rewrite Hnotin.
  rewrite Nat.add_0_r.
  destruct (SpaceOps.has_name (name d) parent);
    [destruct (SpaceOps.has_value d parent)|];
    unfold count_conflicts; cbn; rewrite ?String.eqb_refl;
    destruct st; reflexivity.
- assert (Hz : forall l, Forall (fun c => dimension c = d) l ->
                         count_conflicts n st l = 0).
  { intros l Hl. unfold count_conflicts.
    induction Hl as [|c l Hc _ IHl]; [reflexivity|]. cbn.
    rewrite Hc. destruct (String.eqb_spec (name d) n); [contradiction|].
    exact IHl. }
  rewrite Hz; [reflexivity|].
  destruct (SpaceOps.has_name (name d) parent);
    [destruct (negb (SpaceOps.has_value d parent))|];
    repeat constructor.
Qed.

(** What the parent's loop emits about a name. *)
Lemma count_parent child dims n st :
List.NoDup (map name dims) ->
count_conflicts n st (find_conflicts_parent child dims)
= match SpaceOps.get n dims with
  | Some d =>
      if SpaceOps.has_name n child then 0
      else if Status_eqb missing st then 1 else 0
  | None => 0
  end.
Proof.
induction dims as [|d dims IH]; intros Hnd; [reflexivity|].
inversion Hnd as [|? ? Hnotin Hnd']; subst.
cbn [find_conflicts_parent]. rewrite count_conflicts_app, (IH Hnd').
unfold SpaceOps.get. cbn [List.find].
destruct (String.eqb_spec (name d) n) as [<- | Hne].
- apply get_None in Hnotin. unfold SpaceOps.get in Hnotin. rewrite Hnotin.
  rewrite Nat.add_0_r.
  destruct (SpaceOps.has_name (name d) child);
    unfold count_conflicts; cbn; rewrite ?String.eqb_refl;
    destruct st; reflexivity.
- destruct (SpaceOps.has_name (name d) child); unfold count_conflicts; cbn.
  + reflexivity.
  + destruct (String.eqb_spec (name d) n); [contradiction|]. reflexivity.
Qed.

(** The number of conflicts detected for a name and a status. *)
Lemma count_find_conflicts parent child n st :
SpaceOps.well_formed parent -> SpaceOps.well_formed child ->
count_conflicts n st (find_conflicts parent child)
= match SpaceOps.get n parent, SpaceOps.get n child with
  | None, None => 0
  | None, Some _ => if Status_eqb new st then 1 else 0
  | Some _, None => if Status_eqb missing st then 1 else 0
  | Some dp, Some dc =>
      if Dimension_eqb dc dp then 0
      else if Status_eqb changed st then 1 else 0
  end.
Proof.
intros Hp Hc. unfold find_conflicts, SpaceOps.values.
rewrite count_conflicts_app, count_child, count_parent by assumption.
destruct (SpaceOps.get n parent) as [dp|] eqn:Ep;
  destruct (SpaceOps.get n child) as [dc|] eqn:Ec.
- assert (Hnp : SpaceOps.has_name n parent = true)
    by (apply get_has_name; eauto).
  assert (Hnc : SpaceOps.has_name n child = true)
    by (apply get_has_name; eauto).
  rewrite Hnp, Hnc, Nat.add_0_r.
  destruct (Dimension_eqb dc dp) eqn:Eq.
  + apply Dimension_eqb_eq in Eq as ->.
    apply get_Some_name in Ep as [_ Hin].
    apply has_value_In in Hin. now rewrite Hin.
  + destruct (SpaceOps.has_value dc parent) eqn:Ev; [|reflexivity].
    apply has_value_In in Ev.
    apply get_Some_name in Ec as [Hname _].
    rewrite (get_unique n parent dp dc Hp Ep Ev Hname) in Eq.
    assert (Dimension_eqb dp dp = true) by now apply Dimension_eqb_eq.
    congruence.
- assert (Hnc : SpaceOps.has_name n child = false).
  { apply has_name_false. now apply get_None. }
  rewrite Hnc. reflexivity.
- assert (Hnp : SpaceOps.has_name n parent = false).
  { apply has_name_false. now apply get_None. }
  rewrite Hnp, Nat.add_0_r. reflexivity.
- reflexivity.
Qed.

End Detection.

(** C1. For well-formed spaces (a space is a mapping, so its names are
    pairwise distinct), conflict detection emits exactly one [new]
    conflict, and no other, for a name only in the child; exactly one
    [missing] conflict, and no other, for a name only in the parent;
    exactly one [changed] conflict, and no other, for a name in both
    spaces with unequal descriptors; nothing for a name in both spaces
    with equal descriptors; and never two conflicts for one name and
    status. *)
Theorem find_conflicts_classifies (parent child : Space) :
  SpaceOps.well_formed parent -> SpaceOps.well_formed child ->
  let cs := find_conflicts parent child in
  (forall n, SpaceOps.has_name n child = true ->
             SpaceOps.has_name n parent = false ->
             count_conflicts n new cs = 1
             /\ count_conflicts n changed cs = 0
             /\ count_conflicts n missing cs = 0)
  /\ (forall n, SpaceOps.has_name n parent = true ->
                SpaceOps.has_name n child = false ->
                count_conflicts n missing cs = 1
                /\ count_conflicts n new cs = 0
                /\ count_conflicts n changed cs = 0)
  /\ (forall n dp dc, SpaceOps.get n parent = Some dp ->
                      SpaceOps.get n child = Some dc ->
                      dc <> dp ->
                      count_conflicts n changed cs = 1
                      /\ count_conflicts n new cs = 0
                      /\ count_conflicts n missing cs = 0)
  /\ (forall n d, SpaceOps.get n parent = Some d ->
                  SpaceOps.get n child = Some d ->
                  forall st, count_conflicts n st cs = 0)
  /\ (forall n st, count_conflicts n st cs <= 1).
Proof.
  intros Hp Hc cs. subst cs. repeat split.
  1-3: rewrite count_find_conflicts by assumption;
       apply get_has_name in H as [d ->];
       apply has_name_false, get_None in H0; rewrite H0; reflexivity.
  1-3: rewrite count_find_conflicts by assumption;
       apply get_has_name in H as [d ->];
       apply has_name_false, get_None in H0; rewrite H0; reflexivity.
  1-3: rewrite count_find_conflicts by assumption; rewrite H, H0;
       destruct (Dimension_eqb dc dp) eqn:E;
       [apply Dimension_eqb_eq in E; contradiction | reflexivity].
  - intros n d Hgp Hgc st. rewrite count_find_conflicts by assumption.
    rewrite Hgp, Hgc.
    assert (Dimension_eqb d d = true) as -> by now apply Dimension_eqb_eq.
    reflexivity.
  - intros n st. rewrite count_find_conflicts by assumption.
    destruct (SpaceOps.get n parent), (SpaceOps.get n child);
      try destruct (Dimension_eqb _ _); destruct st; cbn; lia.
Qed.

Lemma find_conflicts_classifies_witness :
  let cs := find_conflicts Scenario.parent Scenario.child in
  count_conflicts "/new" new cs = 1
  /\ count_conflicts "/missing" missing cs = 1
  /\ count_conflicts "/changed" changed cs = 1.
Proof.
  assert (Hp : SpaceOps.well_formed Scenario.parent).
  { unfold SpaceOps.well_formed. cbn. repeat constructor; cbn; intuition discriminate. }
  assert (Hc : SpaceOps.well_formed Scenario.child).
  { unfold SpaceOps.well_formed. cbn. repeat constructor; cbn; intuition discriminate. }
  destruct (find_conflicts_classifies Scenario.parent Scenario.child Hp Hc)
    as (Hnew & Hmissing & Hchanged & _).
  split; [|split].
  - apply (Hnew "/new"); reflexivity.
  - apply (Hmissing "/missing"); reflexivity.
  - apply (Hchanged "/changed" _ _ eq_refl eq_refl). discriminate.
Defined.

(** ** Running calls *)

Section Running.

Context {A B : Type}.

Lemma exec_bind (m : Py A) (k : A -> Py B) b :
exec (bind m k) b
= match outcome m b with
  | Return a => exec (k a) (exec m b)
  | Raise _ => exec m b
  end.
Proof. unfold exec, outcome, bind. destruct (m b) as [[a|e] b']; reflexivity. Qed.

Lemma outcome_bind (m : Py A) (k : A -> Py B) b :
outcome (bind m k) b
= match outcome m b with
  | Return a => outcome (k a) (exec m b)
  | Raise e => Raise e
  end.
Proof. unfold exec, outcome, bind. destruct (m b) as [[a|e] b']; reflexivity. Qed.

Lemma run_eta (m : Py A) b : m b = (outcome m b, exec m b).
Proof. unfold outcome, exec. now destruct (m b). Qed.

End Running.

(** Relations that calls keep: they compose along [bind] and loops. *)
Section Keeping.

Variable R : Builder -> Builder -> Prop.
Hypothesis R_refl : forall b, R b b.
Hypothesis R_trans : forall b1 b2 b3, R b1 b2 -> R b2 b3 -> R b1 b3.

Lemma keeps_ret {A} (a : A) : keeps R (ret a).
Proof. intros b. apply R_refl. Qed.

Lemma keeps_raise {A} e : keeps R (@raise A e).
Proof. intros b. apply R_refl. Qed.

Lemma keeps_get_self : keeps R get_self.
Proof. intros b. apply R_refl. Qed.

Lemma keeps_bind {A B} (m : Py A) (k : A -> Py B) :
keeps R m -> (forall a, keeps R (k a)) -> keeps R (bind m k).
Proof.
intros Hm Hk b. rewrite exec_bind.
destruct (outcome m b); [|apply Hm].
eapply R_trans; [apply Hm | apply Hk].
Qed.

Lemma keeps_for_each {A} (xs : list A) (body : A -> Py unit) :
(forall x, keeps R (body x)) -> keeps R (for_each xs body).
Proof.
intros Hbody. induction xs as [|x xs IH]; cbn [for_each].
- apply keeps_ret.
- apply keeps_bind; [apply Hbody | intros _; exact IH].
Qed.

Lemma keeps_run_calls (calls : list Call) b :
(forall c, keeps R (run_call c)) -> R b (run_calls calls b).
Proof.
intros Hcall. unfold run_calls. revert b.
induction calls as [|c calls IH]; intros b; cbn [fold_left].
- apply R_refl.
- eapply R_trans; [apply (Hcall c) | apply IH].
Qed.

End Keeping.


(** ** Primitives of the state *)

Section Primitives.

Implicit Types (b : Builder) (r : Ref) (k : OpName) (p : Payload).

Lemma OpName_eqb_eq k1 k2 : OpName_eqb k1 k2 = true <-> k1 = k2.
Proof. destruct k1, k2; cbn; split; congruence. Qed.

Lemma OpName_eqb_refl k : OpName_eqb k k = true.
Proof. now destruct k. Qed.

Lemma Payload_eqb_eq p q : Payload_eqb p q = true <-> p = q.
Proof.
destruct p, q; cbn; rewrite ?andb_true_iff, ?Nat.eqb_eq;
  split; try congruence; try (intros [-> ->]; reflexivity);
  intros [= -> ->]; auto.
Qed.

Lemma Status_eqb_eq (s t : Status) : Status_eqb s t = true <-> s = t.
Proof. destruct s, t; cbn; split; congruence. Qed.

Lemma mem_In p (l : list Payload) : PyList.mem p l = true <-> In p l.
Proof.
unfold PyList.mem. rewrite existsb_exists. split.
- intros (q & Hin & Heq). apply Payload_eqb_eq in Heq. now subst.
- intros Hin. exists p. split; [assumption | now apply Payload_eqb_eq].
Qed.

Lemma get_set_same k v (d : Operations) : PyDict.get k (PyDict.set k v d) = v.
Proof.
induction d as [|[k' v'] d IH]; cbn.
- now rewrite OpName_eqb_refl.
- destruct (OpName_eqb k' k) eqn:E; cbn; rewrite E; [reflexivity | exact IH].
Qed.

Lemma get_set_other k k' v (d : Operations) :
k' <> k -> PyDict.get k' (PyDict.set k v d) = PyDict.get k' d.
Proof.
intros Hne. induction d as [|[k0 v0] d IH]; cbn.
- destruct (OpName_eqb k k') eqn:E; [|reflexivity].
  apply OpName_eqb_eq in E. congruence.
- destruct (OpName_eqb k0 k) eqn:E; cbn.
  + apply OpName_eqb_eq in E. subst k0.
    destruct (OpName_eqb k k') eqn:E'; [|reflexivity].
    apply OpName_eqb_eq in E'. congruence.
  + now rewrite IH.
Qed.

Lemma get_absent k (d : Operations) : PyDict.has k d = false -> PyDict.get k d = [].
Proof.
unfold PyDict.has. induction d as [|[k0 v0] d IH]; cbn; [reflexivity|].
destruct (OpName_eqb k0 k); [discriminate | exact IH].
Qed.

Lemma In_PyList_remove p q (l : list Payload) : In p (PyList.remove q l) -> In p l.
Proof.
induction l as [|x l IH]; cbn; [tauto|].
destruct (Payload_eqb x q); cbn; tauto.
Qed.

Lemma NoDup_PyList_remove q (l : list Payload) :
List.NoDup l -> List.NoDup (PyList.remove q l).
Proof.
induction 1 as [|x l Hx Hl IH]; cbn; [constructor|].
destruct (Payload_eqb x q); [assumption|].
constructor; [|assumption]. intros Hin. apply Hx. eapply In_PyList_remove, Hin.
Qed.

Lemma remove_absent q (l : list Payload) : ~ In q l -> PyList.remove q l = l.
Proof.
induction l as [|x l IH]; cbn; [reflexivity|]. intros Hn.
destruct (Payload_eqb x q) eqn:E.
- apply Payload_eqb_eq in E. tauto.
- f_equal. apply IH. tauto.
Qed.

Lemma remove_last q (l : list Payload) :
~ In q l -> PyList.remove q (l ++ [q]) = l.
Proof.
induction l as [|x l IH]; cbn; intros Hn.
- assert (Payload_eqb q q = true) as -> by now apply Payload_eqb_eq.
  reflexivity.
- destruct (Payload_eqb x q) eqn:E.
  + apply Payload_eqb_eq in E. tauto.
  + f_equal. apply IH. tauto.
Qed.

(** [set_is_solved] touches one field of one conflict. *)
Lemma set_is_solved_run r v b :
set_is_solved r v b = (Return tt, with_solved r v b).
Proof. reflexivity. Qed.

Lemma operations_with_solved r v b :
operations (with_solved r v b) = operations b.
Proof. reflexivity. Qed.

Lemma conflicts_with_solved r v b :
conflicts (with_solved r v b)
= alter (fun c => {| is_solved := v; dimension := dimension c;
                     status := status c |}) r (conflicts b).
Proof. reflexivity. Qed.

Lemma membership_with_solved r v b :
membership (with_solved r v b) = membership b.
Proof.
unfold membership. rewrite conflicts_with_solved.
generalize (conflicts b) as cs. intros cs. revert r.
induction cs as [|c cs IH]; intros [|r]; cbn; try reflexivity.
f_equal. apply IH.
Qed.

Lemma solved_with_solved_same r v b :
r < length (conflicts b) -> solved r (with_solved r v b) = Some v.
Proof.
unfold solved. rewrite conflicts_with_solved. intros Hlt.
destruct (lookup_lt_is_Some_2 _ _ Hlt) as [c Hc].
rewrite list_lookup_alter_eq, Hc. reflexivity.
Qed.

Lemma solved_with_solved_other r r' v b :
r <> r' -> solved r' (with_solved r v b) = solved r' b.
Proof.
unfold solved. rewrite conflicts_with_solved. intros Hne.
now rewrite list_lookup_alter_ne.
Qed.

Lemma length_with_solved r v b :
length (conflicts (with_solved r v b)) = length (conflicts b).
Proof. rewrite conflicts_with_solved. apply length_alter. Qed.

Lemma keeps_membership_set_is_solved r v :
keeps same_membership (set_is_solved r v).
Proof. intros b. apply membership_with_solved. Qed.

Lemma keeps_membership_set_operations ops :
keeps same_membership (set_operations ops).
Proof. intros b. reflexivity. Qed.

Lemma keeps_log_set_is_solved r v : keeps log_stays_ok (set_is_solved r v).
Proof. intros b H. exact H. Qed.

End Primitives.

(** ** Lookups *)

Section Lookups.

Implicit Types (b : Builder) (r : Ref) (sts : StatusArg) (c : Conflict).

(** [list.index] on the filtered conflicts settles on the first
  conflict of [self.conflicts] that passes [lookup_test]. *)
Lemma index_filter_from name_ sts (cs : list Conflict) (k : nat) :
let filtered := filter_from k (fun c => status_in (status c) sts) cs in
match list_find (fun c => lookup_test name_ sts c = true) cs with
| Some (r, c) =>
    exists i, PyList.index ("/" ++ name_)%string (dimension_names filtered) = Some i
              /\ filtered !! i = Some (k + r, c)
| None => PyList.index ("/" ++ name_)%string (dimension_names filtered) = None
end.
Proof.
revert k. induction cs as [|c cs IH]; intros k; [reflexivity|].
cbn [filter_from list_find]. specialize (IH (S k)). cbv zeta in IH.
destruct (decide (lookup_test name_ sts c = true)) as [Ht|Ht].
- unfold lookup_test in Ht. apply andb_true_iff in Ht as [H1 H2].
  rewrite H1. cbn [dimension_names map PyList.index snd]. rewrite H2.
  exists 0. rewrite Nat.add_0_r. split; reflexivity.
- cbv zeta.
  destruct (status_in (status c) sts) eqn:Est.
  + cbn [dimension_names map PyList.index snd].
    destruct (String.eqb (name (dimension c)) ("/" ++ name_)) eqn:En.
    { exfalso. apply Ht. unfold lookup_test. now rewrite Est, En. }
    fold (dimension_names
            (filter_from (S k) (fun c => status_in (status c) sts) cs)).
    destruct (list_find _ cs) as [[r c']|]; cbn [fmap option_fmap option_map prod_map fst snd id].
    * destruct IH as (i & Hi & Hl). exists (S i). rewrite Hi.
      split; [reflexivity|].
      replace (k + S r) with (S k + r) by lia. exact Hl.
    * now rewrite IH.
  + destruct (list_find _ cs) as [[r c']|]; cbn [fmap option_fmap option_map prod_map fst snd id].
    * destruct IH as (i & Hi & Hl). exists i. split; [assumption|].
      replace (k + S r) with (S k + r) by lia. exact Hl.
    * exact IH.
Qed.

Lemma assert_has_status_spec name_ sts b :
match first_match name_ sts b with
| Some (r, c) =>
    exists i, _assert_has_status name_ sts b
              = (Return (i, _filter_conflicts_status sts b), b)
              /\ _filter_conflicts_status sts b !! i = Some (r, c)
| None => _assert_has_status name_ sts b = (Raise ValueError, b)
end.
Proof.
pose proof (index_filter_from name_ sts (conflicts b) 0) as H.
cbv zeta in H.
unfold first_match, _assert_has_status, bind, get_self,
  _filter_conflicts_status, filter_conflicts.
destruct (list_find _ (conflicts b)) as [[r c]|].
- destruct H as (i & Hi & Hl). exists i. rewrite Hi. split; [reflexivity|].
  exact Hl.
- now rewrite H.
Qed.

(** [_mark_as] in one step. *)
Lemma mark_as_run name_ sts v b :
_mark_as name_ sts v b
= match first_match name_ sts b with
  | Some (r, _) => (Return r, with_solved r v b)
  | None => (Raise ValueError, b)
  end.
Proof.
pose proof (assert_has_status_spec name_ sts b) as H.
unfold _mark_as, bind at 1.
destruct (first_match name_ sts b) as [[r c]|].
- destruct H as (i & -> & Hl). cbn [fst snd]. rewrite Hl. reflexivity.
- now rewrite H.
Qed.

Lemma first_match_Some name_ sts b r c :
first_match name_ sts b = Some (r, c) ->
conflicts b !! r = Some c
/\ status_in (status c) sts = true
/\ name (dimension c) = ("/" ++ name_)%string.
Proof.
unfold first_match. intros H. apply list_find_Some in H as (Hl & Ht & _).
unfold lookup_test in Ht. apply andb_true_iff in Ht as [H1 H2].
apply String.eqb_eq in H2. auto.
Qed.

Lemma first_match_None name_ sts b :
first_match name_ sts b = None <->
forall c, In c (conflicts b) -> lookup_test name_ sts c = false.
Proof.
unfold first_match. rewrite list_find_None, Forall_forall. split.
- intros H c Hin. apply list_elem_of_In in Hin. specialize (H c Hin).
  now destruct (lookup_test name_ sts c).
- intros H c Hin. apply list_elem_of_In in Hin. rewrite (H c Hin).
  discriminate.
Qed.

(** A lookup reads names and statuses only. *)
Lemma first_match_membership name_ sts b b' :
membership b' = membership b ->
fst <$> first_match name_ sts b' = fst <$> first_match name_ sts b.
Proof.
unfold membership, first_match.
generalize (conflicts b) as cs, (conflicts b') as cs'.
induction cs as [|c cs IH]; intros [|c' cs'] Hm; try discriminate;
  [reflexivity|].
cbn in Hm. injection Hm as Hd Hs Hrest. cbn.
assert (Ht : lookup_test name_ sts c' = lookup_test name_ sts c)
  by (unfold lookup_test; now rewrite Hd, Hs).
rewrite Ht. destruct (decide (lookup_test name_ sts c = true)); [reflexivity|].
specialize (IH cs' Hrest).
destruct (list_find _ cs') as [[? ?]|], (list_find _ cs) as [[? ?]|];
  cbn in *; congruence.
Qed.

Lemma keeps_membership_mark_as name_ sts v :
keeps same_membership (_mark_as name_ sts v).
Proof.
intros b. unfold exec. rewrite mark_as_run.
destruct (first_match name_ sts b) as [[r c]|]; cbn.
- apply membership_with_solved.
- reflexivity.
Qed.

Lemma keeps_log_mark_as name_ sts v : keeps log_stays_ok (_mark_as name_ sts v).
Proof.
intros b. unfold exec. rewrite mark_as_run.
destruct (first_match name_ sts b) as [[r c]|]; cbn; intros H; exact H.
Qed.

(** [c.status in 'missing'] and [c.status in 'new'] are substring
  tests; on the three status strings they are equality tests. *)
Lemma status_in_str (s t : Status) :
status_in s (StatusStr t) = Status_eqb s t.
Proof. destruct s, t; reflexivity. Qed.

Lemma status_in_list (s : Status) (l : list Status) :
status_in s (StatusList l) = true <-> In s l.
Proof.
cbn. rewrite existsb_exists. split.
- intros (t & Hin & Heq). apply Status_eqb_eq in Heq. now subst.
- intros Hin. exists s. split; [assumption | now apply Status_eqb_eq].
Qed.

End Lookups.

(** ** The operation log *)

Section Log.

Implicit Types (b : Builder) (r : Ref) (k : OpName) (p : Payload).

Lemma same_membership_refl b : same_membership b b.
Proof. reflexivity. Qed.

Lemma same_membership_trans b1 b2 b3 :
same_membership b1 b2 -> same_membership b2 b3 -> same_membership b1 b3.
Proof. unfold same_membership. congruence. Qed.

Lemma log_stays_ok_refl b : log_stays_ok b b.
Proof. intros H. exact H. Qed.

Lemma log_stays_ok_trans b1 b2 b3 :
log_stays_ok b1 b2 -> log_stays_ok b2 b3 -> log_stays_ok b1 b3.
Proof. unfold log_stays_ok. auto. Qed.

Lemma has_set k k' v (d : Operations) :
PyDict.has k' (PyDict.set k v d) = PyDict.has k' d || OpName_eqb k k'.
Proof.
unfold PyDict.has. induction d as [|[k0 v0] d IH]; cbn.
- now rewrite orb_false_r.
- destruct (OpName_eqb k0 k) eqn:E; cbn.
  + apply OpName_eqb_eq in E. subst k0.
    destruct (OpName_eqb k k'); cbn; [reflexivity | now rewrite orb_false_r].
  + rewrite IH. now rewrite orb_assoc.
Qed.

(** [_put_operation] never raises; it leaves the conflicts alone and
  appends the payload to its list unless the list has it. *)
Lemma put_operation_run k p b :
exists ops',
  _put_operation k p b
  = (Return tt, {| conflicts := conflicts b; operations := ops' |})
  /\ PyDict.get k ops'
     = (if PyList.mem p (PyDict.get k (operations b))
        then PyDict.get k (operations b)
        else PyDict.get k (operations b) ++ [p])
  /\ (forall k', k' <> k -> PyDict.get k' ops' = PyDict.get k' (operations b))
  /\ PyDict.has k ops' = true.
Proof.
unfold _put_operation, update_operation, bind, get_self, set_operations, ret.
destruct (PyDict.has k (operations b)) eqn:Eh; cbn [negb operations conflicts].
- destruct (PyList.mem p (PyDict.get k (operations b))) eqn:Em;
    cbn [negb operations conflicts].
  + exists (operations b). repeat split; try assumption. now destruct b.
  + eexists. split; [reflexivity|]. rewrite get_set_same.
    split; [reflexivity|]. split.
    * intros k' Hne. now apply get_set_other.
    * rewrite has_set, Eh. reflexivity.
- rewrite get_set_same. cbn [PyList.mem existsb negb operations conflicts].
  rewrite !get_set_same. rewrite (get_absent _ _ Eh).
  cbn [PyList.mem existsb app].
  eexists. split; [reflexivity|]. rewrite get_set_same.
  split; [reflexivity|]. split.
  + intros k' Hne. rewrite !get_set_other by assumption. reflexivity.
  + rewrite has_set, OpName_eqb_refl. apply orb_true_r.
Qed.

(** Putting a payload its list already holds changes nothing. *)
Lemma put_operation_present k p b :
PyDict.has k (operations b) = true ->
PyList.mem p (PyDict.get k (operations b)) = true ->
_put_operation k p b = (Return tt, b).
Proof.
intros Eh Em.
unfold _put_operation, update_operation, bind, get_self, set_operations, ret.
rewrite Eh. cbn [negb]. rewrite Em. reflexivity.
Qed.

Lemma keeps_membership_put k p : keeps same_membership (_put_operation k p).
Proof.
intros b. unfold exec.
destruct (put_operation_run k p b) as (ops' & -> & _). reflexivity.
Qed.

Lemma keeps_log_put k p :
(k = op_rename -> is_tuple p = true) ->
keeps log_stays_ok (_put_operation k p).
Proof.
intros Hty b [Hnd Htu]. unfold exec.
destruct (put_operation_run k p b) as (ops' & -> & Hk & Hother & _).
cbn [snd operations]. split.
- intros k'. destruct (OpName_eqb k' k) eqn:E.
  + apply OpName_eqb_eq in E. subst k'. rewrite Hk.
    destruct (PyList.mem p (PyDict.get k (operations b))) eqn:Em; [apply Hnd|].
    apply List.NoDup_app.
    * apply Hnd.
    * repeat constructor. intros [].
    * intros x Hx [<- | []]. apply mem_In in Hx. congruence.
  + rewrite Hother; [apply Hnd|]. intros ->.
    now rewrite OpName_eqb_refl in E.
- destruct (OpName_eqb op_rename k) eqn:E.
  + apply OpName_eqb_eq in E. subst k. rewrite Hk.
    destruct (PyList.mem p _); [exact Htu|].
    apply Forall_app. split; [exact Htu|]. repeat constructor. now apply Hty.
  + rewrite Hother; [exact Htu|]. intros <-.
    now rewrite OpName_eqb_refl in E.
Qed.

Lemma keeps_membership_update k f : keeps same_membership (update_operation k f).
Proof. intros b. reflexivity. Qed.

Lemma keeps_log_update_remove k p :
keeps log_stays_ok (update_operation k (PyList.remove p)).
Proof.
intros b [Hnd Htu]. cbn. split.
- intros k'. destruct (OpName_eqb k' k) eqn:E.
  + apply OpName_eqb_eq in E. subst k'. rewrite get_set_same.
    apply NoDup_PyList_remove, Hnd.
  + rewrite get_set_other; [apply Hnd|]. intros ->.
    now rewrite OpName_eqb_refl in E.
- destruct (OpName_eqb op_rename k) eqn:E.
  + apply OpName_eqb_eq in E. subst k. rewrite get_set_same.
    rewrite Forall_forall in *. intros x Hx. apply Htu.
    apply list_elem_of_In. apply list_elem_of_In in Hx.
    eapply In_PyList_remove, Hx.
  + rewrite get_set_other; [exact Htu|]. intros <-.
    now rewrite OpName_eqb_refl in E.
Qed.

End Log.

Create HintDb keeps.
#[local] Hint Resolve
  same_membership_refl same_membership_trans
  log_stays_ok_refl log_stays_ok_trans
  keeps_membership_set_is_solved keeps_membership_set_operations
  keeps_membership_mark_as keeps_membership_put keeps_membership_update
  keeps_log_set_is_solved keeps_log_mark_as keeps_log_update_remove : keeps.

Ltac keeps_rel :=
  first [ exact same_membership_refl | exact same_membership_trans
        | exact log_stays_ok_refl | exact log_stays_ok_trans ].

Ltac keeps_intro :=
  lazymatch goal with
  | |- forall _, _ => intros ?
  | |- _ => idtac
  end.

(** Splits a goal [keeps R m] along the structure of [m]. *)
Ltac keeps_step :=
  lazymatch goal with
  | |- keeps _ (bind _ _) =>
      apply keeps_bind; try keeps_rel; keeps_intro
  | |- keeps _ (ret _) => apply keeps_ret; try keeps_rel
  | |- keeps _ (raise _) => apply keeps_raise; try keeps_rel
  | |- keeps _ get_self => apply keeps_get_self; try keeps_rel
  | |- keeps _ (for_each _ _) =>
      apply keeps_for_each; try keeps_rel; keeps_intro
  | |- keeps _ (if ?c then _ else _) => destruct c
  | |- keeps _ (match ?x with _ => _ end) => destruct x
  end.

Ltac keeps_auto := repeat (first [solve [auto with keeps] | keeps_step]).

(** Every call of the API keeps both relations. *)
Section CallsKeep.

Lemma keeps_membership_rename_loop fuel i arg :
keeps same_membership (rename_loop fuel i arg).
Proof.
revert i. induction fuel as [|fuel IH]; intros i; cbn [rename_loop];
  keeps_auto.
Qed.

Lemma keeps_log_rename_loop fuel i arg :
keeps log_stays_ok (rename_loop fuel i arg).
Proof.
revert i. induction fuel as [|fuel IH]; intros i; cbn [rename_loop];
  keeps_auto.
Qed.

Lemma keeps_membership_remove_from_operations arg :
keeps same_membership (_remove_from_operations arg).
Proof.
pose proof keeps_membership_rename_loop.
unfold _remove_from_operations. keeps_auto.
Qed.

Lemma keeps_log_remove_from_operations arg :
keeps log_stays_ok (_remove_from_operations arg).
Proof.
pose proof keeps_log_rename_loop.
unfold _remove_from_operations. keeps_auto.
Qed.

Lemma keeps_membership_run_call c : keeps same_membership (run_call c).
Proof.
pose proof keeps_membership_remove_from_operations.
destruct c; cbn [run_call];
  unfold add_dimension, remove_dimension, _do_basic, _do_basic_loop,
    _mark_as_solved, reset_dimension, rename_dimension, _assert_has_status;
  keeps_auto.
Qed.

Lemma keeps_log_run_call c : keeps log_stays_ok (run_call c).
Proof.
pose proof keeps_log_remove_from_operations.
assert (forall k r, k <> op_rename ->
                    keeps log_stays_ok (_put_operation k (PConflict r)))
  by (intros; apply keeps_log_put; congruence).
assert (forall i j, keeps log_stays_ok (_put_operation op_rename (PTuple i j)))
  by (intros; apply keeps_log_put; reflexivity).
destruct c; cbn [run_call];
  unfold add_dimension, remove_dimension, _do_basic, _do_basic_loop,
    _mark_as_solved, reset_dimension, rename_dimension, _assert_has_status;
  keeps_auto.
Qed.

End CallsKeep.

(** ** Sessions *)

Section Sessions.

Implicit Types (b : Builder) (parent child : Space) (calls : list Call).

Lemma count_named_split n (cs : list Conflict) :
count_named n cs
= count_conflicts n new cs + count_conflicts n changed cs
  + count_conflicts n missing cs.
Proof.
unfold count_named, count_conflicts.
induction cs as [|c cs IH]; [reflexivity|]. cbn.
destruct (String.eqb (name (dimension c)) n); cbn; [|exact IH].
destruct (status c); cbn; lia.
Qed.

Lemma count_named_In n (cs : list Conflict) :
In n (map (fun c => name (dimension c)) cs) -> 1 <= count_named n cs.
Proof.
unfold count_named. induction cs as [|c cs IH]; cbn; [tauto|].
intros [<- | Hin].
- rewrite String.eqb_refl. cbn. lia.
- destruct (String.eqb (name (dimension c)) n); cbn; auto with arith.
Qed.

Lemma NoDup_of_count_named (cs : list Conflict) :
(forall n, count_named n cs <= 1) ->
List.NoDup (map (fun c => name (dimension c)) cs).
Proof.
induction cs as [|c cs IH]; intros H; cbn; constructor.
- intros Hin. apply count_named_In in Hin.
  specialize (H (name (dimension c))). unfold count_named in *. cbn in H.
  rewrite String.eqb_refl in H. cbn in H. lia.
- apply IH. intros n. specialize (H n). unfold count_named in *. cbn in H.
  destruct (String.eqb (name (dimension c)) n); cbn in H; lia.
Qed.

Lemma count_named_of_NoDup n (cs : list Conflict) :
List.NoDup (map (fun c => name (dimension c)) cs) -> count_named n cs <= 1.
Proof.
induction cs as [|c cs IH]; cbn; intros H; [unfold count_named; cbn; lia|].
inversion H as [|? ? Hnotin Hnd]; subst.
specialize (IH Hnd). unfold count_named in *. cbn.
destruct (String.eqb_spec (name (dimension c)) n) as [<- | Hne]; [|exact IH].
cbn. destruct (List.filter _ cs) as [|c' l] eqn:E; [cbn; lia|].
exfalso. apply Hnotin.
assert (Hin : In c' (List.filter
                       (fun c0 => String.eqb (name (dimension c0))
                                             (name (dimension c))) cs))
  by (rewrite E; now left).
apply filter_In in Hin as [Hin Heq]. apply String.eqb_eq in Heq.
rewrite <- Heq. apply in_map_iff. eauto.
Qed.

(** Detection gives every name to at most one conflict. *)
Lemma detected_names_NoDup parent child :
SpaceOps.well_formed parent -> SpaceOps.well_formed child ->
List.NoDup (conflict_names (detected parent child)).
Proof.
intros Hp Hc. unfold conflict_names, detected. cbn [conflicts].
apply NoDup_of_count_named. intros n. rewrite count_named_split.
rewrite !count_find_conflicts by assumption.
destruct (SpaceOps.get n parent), (SpaceOps.get n child);
  try destruct (Dimension_eqb _ _); cbn; lia.
Qed.

Lemma conflict_names_membership b :
conflict_names b = map (fun m => name (fst m)) (membership b).
Proof.
unfold conflict_names, membership. rewrite map_map. reflexivity.
Qed.

(** The candidates of a lookup are among the conflicts of that name. *)
Lemma lookup_matches_bound name_ sts b :
length (lookup_matches name_ sts b)
<= count_named ("/" ++ name_)%string (conflicts b).
Proof.
unfold lookup_matches, _filter_conflicts_status, filter_conflicts, count_named.
generalize 0 as k. generalize (conflicts b) as cs.
induction cs as [|c cs IH]; intros k; cbn [filter_from List.filter];
  [cbn; lia|].
specialize (IH (S k)).
destruct (status_in (status c) sts); cbn [List.filter snd].
- destruct (String.eqb (name (dimension c)) ("/" ++ name_)); cbn [length]; lia.
- destruct (String.eqb (name (dimension c)) ("/" ++ name_)); cbn [length]; lia.
Qed.

(** What holds of a builder at any point of a session. *)
Lemma session_membership parent child calls :
membership (run_calls calls (detected parent child))
= membership (detected parent child).
Proof.
apply (keeps_run_calls same_membership same_membership_refl
         same_membership_trans).
apply keeps_membership_run_call.
Qed.

Lemma session_log_ok parent child calls :
log_ok (operations (run_calls calls (detected parent child))).
Proof.
apply (keeps_run_calls log_stays_ok log_stays_ok_refl log_stays_ok_trans
         calls (detected parent child) keeps_log_run_call).
cbn. split; [intros k; constructor | constructor].
Qed.

Lemma session_names_NoDup parent child calls :
SpaceOps.well_formed parent -> SpaceOps.well_formed child ->
List.NoDup (conflict_names (run_calls calls (detected parent child))).
Proof.
intros Hp Hc. rewrite conflict_names_membership, session_membership.
rewrite <- conflict_names_membership. now apply detected_names_NoDup.
Qed.

End Sessions.

(** C10. For well-formed spaces, at any point of a session (any sequence
    of calls of the API after detection, whether they return or raise)
    the conflict set has the members detection gave it, each dimension
    name occurs in at most one conflict, whatever its status, and every
    lookup (a name under a set of allowed statuses) has at most one
    candidate: an ambiguous lookup never arises. *)
Theorem session_lookups_unambiguous (parent child : Space) (calls : list Call) :
  SpaceOps.well_formed parent -> SpaceOps.well_formed child ->
  let b := run_calls calls (detected parent child) in
  membership b = membership (detected parent child)
  /\ List.NoDup (conflict_names b)
  /\ (forall n, count_named n (conflicts b) <= 1)
  /\ (forall name_ sts, length (lookup_matches name_ sts b) <= 1).
Proof.
  intros Hp Hc b.
  assert (Hnd : List.NoDup (conflict_names b))
    by now apply session_names_NoDup.
  split; [apply session_membership|]. split; [exact Hnd|]. split.
  - intros n. now apply count_named_of_NoDup.
  - intros name_ sts. etransitivity; [apply lookup_matches_bound|].
    now apply count_named_of_NoDup.
Qed.

(** ** Name expansion *)

Section Expansion.

Implicit Types (b : Builder) (sts : StatusArg) (arg tok : string).

Lemma prefix_char (c a : ascii) (s : string) :
String.prefix (String c EmptyString) (String a s) = Ascii.eqb a c.
Proof.
cbn. destruct (ascii_dec c a) as [-> | Hne].
- rewrite Ascii.eqb_refl. now destruct s.
- symmetry. apply Ascii.eqb_neq. congruence.
Qed.

(** A string without the separator is one piece. *)
Lemma split_without (sep : ascii) (s : string) :
PyStr.contains (String sep EmptyString) s = false -> PyStr.split sep s = [s].
Proof.
induction s as [|a s IH]; [reflexivity|].
cbn [PyStr.contains PyStr.split]. rewrite prefix_char.
intros H. apply orb_false_iff in H as [H1 H2].
rewrite H1, (IH H2). reflexivity.
Qed.

Lemma split_not_nil (sep : ascii) (s : string) : PyStr.split sep s <> [].
Proof.
destruct s as [|a s]; cbn; [discriminate|].
destruct (Ascii.eqb a sep); [discriminate|].
destruct (PyStr.split sep s); discriminate.
Qed.

(** The pieces of a split do not contain the separator. *)
Lemma split_pieces (sep : ascii) (s : string) :
Forall (fun t => PyStr.contains (String sep EmptyString) t = false)
       (PyStr.split sep s).
Proof.
induction s as [|a s IH]; cbn [PyStr.split].
- repeat constructor.
- destruct (Ascii.eqb a sep) eqn:E.
  + constructor; [reflexivity | exact IH].
  + destruct (PyStr.split sep s) as [|h t].
    * repeat constructor. cbn [PyStr.contains]. rewrite prefix_char, E.
      reflexivity.
    * inversion IH as [|? ? Hh Ht]; subst. constructor; [|exact Ht].
      cbn [PyStr.contains]. rewrite prefix_char, E, Hh. reflexivity.
Qed.

Lemma get_names_step_literal sts b names tok :
is_literal tok = true -> _get_names_step sts b names tok = [tok].
Proof.
unfold is_literal, _get_names_step. intros H.
apply andb_true_iff in H as [H1 H2].
apply negb_true_iff in H1. apply negb_true_iff in H2.
now rewrite H1, H2.
Qed.

(** A plain name expands to itself. *)
Lemma get_names_plain arg sts b :
is_plain_name arg = true -> _get_names arg sts b = [arg].
Proof.
unfold is_plain_name. intros H. apply andb_true_iff in H as [H1 H2].
apply negb_true_iff in H2. unfold _get_names.
rewrite (split_without _ _ H2). cbn [fold_left].
now apply get_names_step_literal.
Qed.

(** [_do_basic] on a plain name: one lookup, one payload. *)
Lemma do_basic_plain arg sts k b :
is_plain_name arg = true ->
_do_basic arg sts k b
= match first_match arg sts b with
  | Some (r, _) => _put_operation k (PConflict r) (with_solved r true b)
  | None => (Raise ValueError, b)
  end.
Proof.
intros H. unfold _do_basic, bind at 1, get_self.
rewrite (get_names_plain _ _ _ H).
unfold _do_basic_loop. cbn [for_each]. unfold bind at 1, bind at 1.
unfold _mark_as_solved. rewrite mark_as_run.
destruct (first_match arg sts b) as [[r c]|]; [|reflexivity].
destruct (put_operation_run k (PConflict r) (with_solved r true b))
  as (ops' & -> & _). reflexivity.
Qed.

Lemma has_conflict_first_match name_ (s : Status) sts b :
status_in s sts = true ->
has_conflict name_ s false b = true ->
exists r c, first_match name_ sts b = Some (r, c).
Proof.
intros Hs H. destruct (first_match name_ sts b) as [[r c]|] eqn:E; [eauto|].
exfalso. unfold has_conflict in H. apply existsb_exists in H as (c & Hin & Hc).
pose proof (proj1 (first_match_None name_ sts b) E c Hin) as Hf.
unfold lookup_test in Hf.
rewrite !andb_true_iff in Hc. destruct Hc as [[Hn Hst] _].
apply Status_eqb_eq in Hst. subst s. rewrite Hs, Hn in Hf. discriminate.
Qed.

End Expansion.

(** ** Adding a dimension *)

Section Adding.

Implicit Types (b : Builder) (r : Ref).

Lemma run_calls_snoc calls c b :
run_calls (calls ++ [c]) b = exec (run_call c) (run_calls calls b).
Proof. unfold run_calls. now rewrite fold_left_app. Qed.

Lemma with_solved_twice r v b :
with_solved r v (with_solved r v b) = with_solved r v b.
Proof.
unfold with_solved, exec. cbn. f_equal.
rewrite list_alter_alter_eq. now apply list_alter_ext.
Qed.

Lemma count_entries_NoDup (p : Payload) (l : list Payload) :
List.NoDup l -> In p l -> length (List.filter (Payload_eqb p) l) = 1.
Proof.
induction 1 as [|x l Hx Hl IH]; cbn; [tauto|].
intros [-> | Hin].
- assert (Payload_eqb p p = true) as -> by now apply Payload_eqb_eq.
  cbn. f_equal.
  destruct (List.filter (Payload_eqb p) l) as [|q l'] eqn:E; [reflexivity|].
  exfalso. apply Hx.
  assert (Hq : In q (List.filter (Payload_eqb p) l)) by (rewrite E; now left).
  apply filter_In in Hq as [Hq Heq]. apply Payload_eqb_eq in Heq. now subst.
- destruct (Payload_eqb p x) eqn:E; [|now apply IH].
  apply Payload_eqb_eq in E. subst. contradiction.
Qed.

End Adding.

(** C5. At any point of a session, for a plain name [x] (one token,
    neither a keyword nor a wildcard) of a [new] or [changed] conflict,
    calling [add_dimension x] twice succeeds both times and leaves exactly
    one entry for that conflict in the [add] list: the second call finds
    the payload already listed and changes nothing at all. *)
Theorem add_dimension_idempotent (parent child : Space) (calls : list Call)
  (x : string) :
  let b := run_calls calls (detected parent child) in
  is_plain_name x = true ->
  has_conflict x new false b || has_conflict x changed false b = true ->
  let b1 := exec (add_dimension x) b in
  let b2 := exec (add_dimension x) b1 in
  exists r,
    (refers_to r x new b \/ refers_to r x changed b)
    /\ succeeds (add_dimension x) b = true
    /\ succeeds (add_dimension x) b1 = true
    /\ solved r b2 = Some true
    /\ count_entries (PConflict r) op_add b2 = 1
    /\ b2 = b1.
Proof.
  intros b Hplain Hhas b1 b2.
  set (sts := StatusList [new; changed]).
  assert (Hfm : exists r c, first_match x sts b = Some (r, c)).
  { apply orb_true_iff in Hhas as [H | H];
      eapply has_conflict_first_match; try exact H; reflexivity. }
  destruct Hfm as (r & c & Hfm).
  destruct (first_match_Some _ _ _ _ _ Hfm) as (Hlook & Hst & Hname).
  (* the first call *)
  assert (Hrun1 : add_dimension x b
                  = _put_operation op_add (PConflict r) (with_solved r true b)).
  { unfold add_dimension. rewrite do_basic_plain by assumption.
    fold sts. now rewrite Hfm. }
  destruct (put_operation_run op_add (PConflict r) (with_solved r true b))
    as (ops1 & Hput1 & Hget1 & _ & Hhas1).
  assert (Hb1 : b1 = {| conflicts := conflicts (with_solved r true b);
                         operations := ops1 |}).
  { unfold b1, exec. now rewrite Hrun1, Hput1. }
  assert (Hin1 : In (PConflict r) (PyDict.get op_add (operations b1))).
  { rewrite Hb1. cbn [operations]. rewrite Hget1.
    destruct (PyList.mem _ _) eqn:Em; [now apply mem_In|].
    apply in_or_app. right. now left. }
  (* the second call *)
  assert (Hmem : membership b1 = membership b).
  { rewrite Hb1. apply (membership_with_solved r true b). }
  assert (Hfm1 : exists c1, first_match x sts b1 = Some (r, c1)).
  { pose proof (first_match_membership x sts b b1 Hmem) as H.
    rewrite Hfm in H. destruct (first_match x sts b1) as [[r1 c1]|];
      cbn in H; [|discriminate]. injection H as ->. eauto. }
  destruct Hfm1 as (c1 & Hfm1).
  assert (Hsame : with_solved r true b1 = b1).
  { rewrite Hb1. unfold with_solved at 1, exec. cbn.
    f_equal. rewrite list_alter_alter_eq. now apply list_alter_ext. }
  assert (Hrun2 : add_dimension x b1 = (Return tt, b1)).
  { unfold add_dimension. rewrite do_basic_plain by assumption.
    fold sts. rewrite Hfm1, Hsame.
    apply put_operation_present; [|now apply mem_In].
    rewrite Hb1. exact Hhas1. }
  assert (Hb2 : b2 = b1) by (unfold b2, exec; now rewrite Hrun2).
  exists r. repeat split.
  - assert (Hr : refers_to r x (status c) b) by (exists c; auto).
    apply status_in_list in Hst. cbn in Hst.
    destruct Hst as [E | [E | []]]; rewrite <- E in Hr; auto.
  - unfold succeeds, outcome. now rewrite Hrun1, Hput1.
  - unfold succeeds, outcome. now rewrite Hrun2.
  - rewrite Hb2, Hb1. unfold solved. cbn [conflicts].
    rewrite conflicts_with_solved, list_lookup_alter_eq, Hlook. reflexivity.
  - rewrite Hb2. unfold count_entries. apply count_entries_NoDup; [|exact Hin1].
    unfold b1, b. change (add_dimension x) with (run_call (call_add_dimension x)).
    rewrite <- run_calls_snoc. apply session_log_ok.
  - exact Hb2.
Qed.

(** ** Failing calls *)

Section Failing.

Implicit Types (b : Builder) (sts : StatusArg).

(** A loop that raises has run its body on the items before the one
  that raised. *)
Lemma for_each_fails {A} (xs : list A) (body : A -> Py unit) b :
succeeds (for_each xs body) b = false ->
exists done bad rest,
  xs = done ++ bad :: rest
  /\ succeeds (for_each done body) b = true
  /\ succeeds (body bad) (exec (for_each done body) b) = false
  /\ exec (for_each xs body) b
     = exec (body bad) (exec (for_each done body) b).
Proof.
revert b. induction xs as [|x xs IH]; intros b; [discriminate|].
cbn [for_each]. unfold succeeds, outcome, exec, bind in *.
destruct (body x b) as [[[]|e] b1] eqn:Ex; intros H.
- destruct (IH b1 H) as (done & bad & rest & -> & H1 & H2 & H3).
  exists (x :: done), bad, rest. cbn [for_each app]. unfold bind.
  rewrite Ex. repeat split; assumption.
- exists [], x, xs. cbn [for_each app ret snd fst]. rewrite Ex.
  repeat split.
Qed.

(** The body of the loop of [_do_basic] raises only when the lookup
  finds nothing, and then it has changed nothing. *)
Lemma do_basic_body_fails sts k (n : string) b :
succeeds (conflict <- _mark_as_solved n sts ;;
           _put_operation k (PConflict conflict)) b = false ->
first_match n sts b = None
/\ exec (conflict <- _mark_as_solved n sts ;;
         _put_operation k (PConflict conflict)) b = b.
Proof.
unfold succeeds, outcome, exec, bind, _mark_as_solved.
rewrite mark_as_run.
destruct (first_match n sts b) as [[r c]|]; [|auto].
destruct (put_operation_run k (PConflict r) (with_solved r true b))
  as (ops' & -> & _). discriminate.
Qed.

End Failing.

(** ** What the names before the failing one leave behind *)

Section Processed.

Implicit Types (b : Builder) (sts : StatusArg) (k : OpName) (r : Ref)
  (n : string).

(** One turn of the loop of [_do_basic]. *)
Lemma do_basic_loop_cons sts k n (ns : list string) b :
  _do_basic_loop sts k (n :: ns) b
  = match first_match n sts b with
    | Some (r, _) =>
        _do_basic_loop sts k ns
          (exec (_put_operation k (PConflict r)) (with_solved r true b))
    | None => (Raise ValueError, b)
    end.
Proof.
  unfold _do_basic_loop. cbn [for_each]. unfold bind at 1. unfold bind at 1.
  unfold _mark_as_solved. rewrite mark_as_run.
  destruct (first_match n sts b) as [[r c]|]; [|reflexivity].
  unfold exec.
  destruct (put_operation_run k (PConflict r) (with_solved r true b))
    as (ops' & -> & _). reflexivity.
Qed.

(** What one turn that finds its conflict does. *)
Lemma do_basic_turn sts k n b r (c : Conflict) :
  first_match n sts b = Some (r, c) ->
  let b1 := exec (_put_operation k (PConflict r)) (with_solved r true b) in
  membership b1 = membership b
  /\ solved r b1 = Some true
  /\ (forall r', r' <> r -> conflicts b1 !! r' = conflicts b !! r')
  /\ In (PConflict r) (PyDict.get k (operations b1))
  /\ (forall k' p, In p (PyDict.get k' (operations b)) ->
                   In p (PyDict.get k' (operations b1)))
  /\ (forall k', k' <> k ->
                 PyDict.get k' (operations b1) = PyDict.get k' (operations b))
  /\ (forall p, In p (PyDict.get k (operations b1)) ->
                In p (PyDict.get k (operations b)) \/ p = PConflict r).
Proof.
  intros Hfm b1. apply first_match_Some in Hfm as (Hr & _ & _).
  assert (Hlt : r < length (conflicts b)) by (apply lookup_lt_is_Some; eauto).
  subst b1. unfold exec.
  destruct (put_operation_run k (PConflict r) (with_solved r true b))
    as (ops' & -> & Hk & Hother & _).
  cbn [snd operations]. change (operations (with_solved r true b))
    with (operations b) in *.
  split; [apply (membership_with_solved r true b)|].
  split; [apply (solved_with_solved_same r true b Hlt)|].
  split.
  { intros r' Hne. cbn [conflicts]. rewrite conflicts_with_solved.
    apply list_lookup_alter_ne. congruence. }
  split.
  { rewrite Hk. destruct (PyList.mem _ _) eqn:Em; [now apply mem_In|].
    apply in_or_app. right. now left. }
  split.
  { intros k' p Hp. destruct (OpName_eqb k' k) eqn:E.
    - apply OpName_eqb_eq in E. subst k'. rewrite Hk.
      destruct (PyList.mem _ _); [exact Hp | apply in_or_app; now left].
    - rewrite Hother; [exact Hp|]. intros ->.
      rewrite OpName_eqb_refl in E. discriminate. }
  split; [exact Hother|].
  intros p. rewrite Hk. destruct (PyList.mem _ _); [now left|].
  intros Hp. apply in_app_or in Hp as [Hp | [<- | []]]; [now left | now right].
Qed.

(** The loop, whether it returns or raises, only solves and only adds. *)
Lemma do_basic_loop_grows sts k (ns : list string) : forall b,
  let b' := exec (_do_basic_loop sts k ns) b in
  membership b' = membership b
  /\ (forall r, solved r b = Some true -> solved r b' = Some true)
  /\ (forall k' p, In p (PyDict.get k' (operations b)) ->
                   In p (PyDict.get k' (operations b'))).
Proof.
  induction ns as [|n ns IH]; intros b; cbv zeta.
  - cbn. auto.
  - unfold exec at 1 2 3. rewrite do_basic_loop_cons.
    destruct (first_match n sts b) as [[r0 c0]|] eqn:Hfm; [|cbn; auto].
    destruct (do_basic_turn sts k n b r0 c0 Hfm)
      as (Hm & Hs0 & Hfr & _ & Hmono & _).
    set (b1 := exec (_put_operation k (PConflict r0)) (with_solved r0 true b))
      in *.
    destruct (IH b1) as (Hm' & Hs' & Hmono').
    fold (exec (_do_basic_loop sts k ns) b1).
    split; [congruence|]. split.
    + intros r Hr. apply Hs'. destruct (decide (r = r0)) as [-> | Hne];
        [exact Hs0|]. unfold solved in *. now rewrite Hfr.
    + intros k' p Hp. apply Hmono', Hmono, Hp.
Qed.

(** The names the loop has got through: each matched a conflict, which
    is solved and in the list afterwards; no other conflict and no other
    list has changed, and nothing else has entered the list. *)
Lemma do_basic_loop_done sts k (ns : list string) : forall b,
  succeeds (_do_basic_loop sts k ns) b = true ->
  let b' := exec (_do_basic_loop sts k ns) b in
  (forall n, In n ns ->
     exists r c, first_match n sts b = Some (r, c)
                 /\ solved r b' = Some true
                 /\ In (PConflict r) (PyDict.get k (operations b')))
  /\ (forall r, (forall n c, In n ns -> first_match n sts b <> Some (r, c)) ->
                conflicts b' !! r = conflicts b !! r)
  /\ (forall k', k' <> k ->
                 PyDict.get k' (operations b') = PyDict.get k' (operations b))
  /\ (forall p, In p (PyDict.get k (operations b')) ->
        In p (PyDict.get k (operations b))
        \/ exists n r c, In n ns /\ first_match n sts b = Some (r, c)
                         /\ p = PConflict r).
Proof.
  induction ns as [|n0 ns IH]; intros b Hok; cbv zeta.
  - cbn. split; [intros n []|]. auto.
  - unfold succeeds, outcome in Hok. unfold exec at 1 2 3 4 5.
    rewrite do_basic_loop_cons in *.
    destruct (first_match n0 sts b) as [[r0 c0]|] eqn:Hfm; [|discriminate].
    destruct (do_basic_turn sts k n0 b r0 c0 Hfm)
      as (Hm & Hs0 & Hfr & Hin0 & Hmono & Hother & Hnew).
    set (b1 := exec (_put_operation k (PConflict r0)) (with_solved r0 true b))
      in *.
    fold (exec (_do_basic_loop sts k ns) b1).
    destruct (IH b1 Hok) as (Hall & Hframe & Hothers & Hentries).
    destruct (do_basic_loop_grows sts k ns b1) as (_ & Hs' & Hmono').
    assert (Hback : forall n r, fst <$> first_match n sts b1 = Some r ->
                                exists c, first_match n sts b = Some (r, c)).
    { intros n r H. rewrite (first_match_membership n sts b b1 Hm) in H.
      destruct (first_match n sts b) as [[r' c']|]; [|discriminate].
      injection H as <-. eauto. }
    split; [|split; [|split]].
    + intros n [<- | Hn].
      * exists r0, c0. split; [exact Hfm|]. split; [now apply Hs'|].
        now apply Hmono'.
      * destruct (Hall n Hn) as (r & c1 & Hfm1 & Hs1 & Hin1).
        destruct (Hback n r) as [c Hc]; [now rewrite Hfm1|].
        exists r, c. auto.
    + intros r Hr. rewrite Hframe.
      * apply Hfr. intros ->. apply (Hr n0 c0); [now left | exact Hfm].
      * intros n c1 Hn Hfm1. destruct (Hback n r) as [c Hc]; [now rewrite Hfm1|].
        apply (Hr n c); [now right | exact Hc].
    + intros k' Hne. rewrite Hothers by assumption. now apply Hother.
    + intros p Hp. apply Hentries in Hp as [Hp | (n & r & c1 & Hn & Hfm1 & ->)].
      * apply Hnew in Hp as [Hp | ->]; [now left|].
        right. exists n0, r0, c0. split; [now left | auto].
      * destruct (Hback n r) as [c Hc]; [now rewrite Hfm1|].
        right. exists n, r, c. split; [now right | auto].
Qed.

End Processed.

(** C3, as the code has it.  [add_dimension] does not roll back: when the
    call fails, the names expanded before the first one that matches no
    [new] or [changed] conflict have been processed: each of them matched
    a conflict, which is solved and recorded in the [add] list when the
    call raises.  The builder is the one that processing them leaves: no
    other conflict and no other list has changed, and nothing else has
    entered the [add] list.  Only the failing name itself changes
    nothing, so the state is unchanged when the first expanded name is
    the one that fails. *)
Theorem add_dimension_failure (args : string) (b : Builder) :
  succeeds (add_dimension args) b = false ->
  let sts := StatusList [new; changed] in
  let b' := exec (add_dimension args) b in
  exists done bad rest,
    _get_names args sts b = done ++ bad :: rest
    /\ succeeds (_do_basic_loop sts op_add done) b = true
    /\ first_match bad sts (exec (_do_basic_loop sts op_add done) b) = None
    /\ exec (add_dimension args) b = exec (_do_basic_loop sts op_add done) b
    /\ (forall n, In n done ->
          exists r c, first_match n sts b = Some (r, c)
                      /\ solved r b' = Some true
                      /\ In (PConflict r) (PyDict.get op_add (operations b')))
    /\ (forall r, (forall n c, In n done -> first_match n sts b <> Some (r, c)) ->
                  conflicts b' !! r = conflicts b !! r)
    /\ (forall k, k <> op_add ->
                  PyDict.get k (operations b') = PyDict.get k (operations b))
    /\ (forall p, In p (PyDict.get op_add (operations b')) ->
          In p (PyDict.get op_add (operations b))
          \/ exists n r c, In n done /\ first_match n sts b = Some (r, c)
                           /\ p = PConflict r)
    /\ (done = [] -> exec (add_dimension args) b = b).
Proof.
  intros H sts b'.
  assert (Hrun : add_dimension args b
                 = _do_basic_loop sts op_add (_get_names args sts b) b)
    by reflexivity.
  unfold succeeds, outcome in H. rewrite Hrun in H.
  destruct (for_each_fails _ _ b H) as (done & bad & rest & Hn & H1 & H2 & H3).
  apply do_basic_body_fails in H2 as [Hnone Hsame].
  exists done, bad, rest. split; [exact Hn|]. split; [exact H1|].
  split; [exact Hnone|].
  assert (Hexec : exec (add_dimension args) b
                  = exec (_do_basic_loop sts op_add done) b).
  { unfold exec at 1. rewrite Hrun. fold (exec (_do_basic_loop sts op_add
      (_get_names args sts b)) b). unfold _do_basic_loop at 1.
    rewrite H3, Hsame. reflexivity. }
  split; [exact Hexec|].
  destruct (do_basic_loop_done sts op_add done b H1)
    as (Hall & Hframe & Hothers & Hentries).
  subst b'. rewrite Hexec.
  split; [exact Hall|]. split; [exact Hframe|]. split; [exact Hothers|].
  split; [exact Hentries|]. intros ->. reflexivity.
Qed.

Lemma add_dimension_failure_witness :
  let sts := StatusList [new; changed] in
  let b := Scenario.builder in
  let b' := exec (add_dimension "~new ~missing") b in
  exists done bad rest,
    _get_names "~new ~missing" sts b = done ++ bad :: rest
    /\ succeeds (_do_basic_loop sts op_add done) b = true
    /\ first_match bad sts (exec (_do_basic_loop sts op_add done) b) = None
    /\ exec (add_dimension "~new ~missing") b
       = exec (_do_basic_loop sts op_add done) b
    /\ (forall n, In n done ->
          exists r c, first_match n sts b = Some (r, c)
                      /\ solved r b' = Some true
                      /\ In (PConflict r) (PyDict.get op_add (operations b')))
    /\ (forall r, (forall n c, In n done -> first_match n sts b <> Some (r, c)) ->
                  conflicts b' !! r = conflicts b !! r)
    /\ (forall k, k <> op_add ->
                  PyDict.get k (operations b') = PyDict.get k (operations b))
    /\ (forall p, In p (PyDict.get op_add (operations b')) ->
          In p (PyDict.get op_add (operations b))
          \/ exists n r c, In n done /\ first_match n sts b = Some (r, c)
                           /\ p = PConflict r)
    /\ (done = [] -> exec (add_dimension "~new ~missing") b = b).
Proof.
  apply (add_dimension_failure "~new ~missing" Scenario.builder). reflexivity.
Defined.

(** C3 as stated fails: with one [new] and one [missing] conflict,
    [add_dimension "~new ~missing"] raises at the missing name after it
    has solved the new one and recorded it in the [add] list. *)
Lemma add_dimension_not_atomic :
  let b := Scenario.builder in
  let b' := exec (add_dimension "~new ~missing") b in
  succeeds (add_dimension "~new ~missing") b = false
  /\ solved 0 b = Some false
  /\ solved 0 b' = Some true
  /\ PyDict.get op_add (operations b) = []
  /\ PyDict.get op_add (operations b') = [PConflict 0]
  /\ b' <> b.
Proof.
  cbv zeta. repeat split; try reflexivity.
  intros H. vm_compute in H. discriminate H.
Qed.

(** ** The scenarios are well formed *)

Lemma scenario_parent_well_formed : SpaceOps.well_formed Scenario.parent.
Proof.
  unfold SpaceOps.well_formed. cbn. repeat constructor; cbn; intuition discriminate.
Qed.

Lemma scenario_child_well_formed : SpaceOps.well_formed Scenario.child.
Proof.
  unfold SpaceOps.well_formed. cbn. repeat constructor; cbn; intuition discriminate.
Qed.

Lemma scenario_db_parent_well_formed : SpaceOps.well_formed Scenario.db_parent.
Proof.
  unfold SpaceOps.well_formed. cbn. repeat constructor; cbn; intuition discriminate.
Qed.

Lemma scenario_db_child_well_formed : SpaceOps.well_formed Scenario.db_child.
Proof.
  unfold SpaceOps.well_formed. cbn. repeat constructor; cbn; intuition discriminate.
Qed.

Lemma session_lookups_unambiguous_witness :
  let b := run_calls [call_add_dimension "new";
                      call_rename_dimension "missing" "new";
                      call_reset_dimension "~changed"]
                     (detected Scenario.parent Scenario.child) in
  membership b = membership (detected Scenario.parent Scenario.child)
  /\ List.NoDup (conflict_names b)
  /\ (forall n, count_named n (conflicts b) <= 1)
  /\ (forall name_ sts, length (lookup_matches name_ sts b) <= 1).
Proof.
  apply (session_lookups_unambiguous Scenario.parent Scenario.child).
  - exact scenario_parent_well_formed.
  - exact scenario_child_well_formed.
Defined.

Lemma add_dimension_idempotent_witness :
  let b := run_calls [] (detected Scenario.parent Scenario.child) in
  let b1 := exec (add_dimension "new") b in
  let b2 := exec (add_dimension "new") b1 in
  exists r,
    (refers_to r "new" new b \/ refers_to r "new" changed b)
    /\ succeeds (add_dimension "new") b = true
    /\ succeeds (add_dimension "new") b1 = true
    /\ solved r b2 = Some true
    /\ count_entries (PConflict r) op_add b2 = 1
    /\ b2 = b1.
Proof.
  apply (add_dimension_idempotent Scenario.parent Scenario.child [] "new");
    reflexivity.
Defined.

(** ** Renaming and resetting *)

Section Renaming.

Implicit Types (b : Builder) (i j r a : Ref) (p : Payload).

(** A lookup under a single status string succeeds exactly when some
conflict has the name and that status, solved or not. *)
Lemma first_match_str_has name_ (s : Status) b :
match first_match name_ (StatusStr s) b with
| Some _ => true
| None => false
end = has_conflict name_ s false b.
Proof.
destruct (first_match name_ (StatusStr s) b) as [[r c]|] eqn:E.
- apply first_match_Some in E as (Hl & Hst & Hn). symmetry.
unfold has_conflict. apply existsb_exists. exists c. split.
+ apply list_elem_of_In. eapply list_elem_of_lookup_2, Hl.
+ rewrite status_in_str in Hst. rewrite Hn, String.eqb_refl, Hst. reflexivity.
- destruct (has_conflict name_ s false b) eqn:Eh; [|reflexivity].
destruct (has_conflict_first_match name_ s (StatusStr s) b) as (r & c & H);
  [rewrite status_in_str; now apply Status_eqb_eq | exact Eh | congruence].
Qed.

(** [rename_dimension] in one step. *)
Lemma rename_dimension_run old_name new_name b :
rename_dimension (old_name, new_name) b
= match first_match old_name (StatusStr missing) b with
| None => (Raise ValueError, b)
| Some (i, _) =>
    match first_match new_name (StatusStr new) b with
    | None => (Raise ValueError, b)
    | Some (j, _) =>
        _put_operation op_rename (PTuple i j)
          (with_solved j true (with_solved i true b))
    end
end.
Proof.
pose proof (assert_has_status_spec old_name (StatusStr missing) b) as Ho.
pose proof (assert_has_status_spec new_name (StatusStr new) b) as Hn.
unfold rename_dimension, bind at 1.
destruct (first_match old_name (StatusStr missing) b) as [[i ci]|].
- destruct Ho as (io & -> & Hlo). unfold bind at 1.
destruct (first_match new_name (StatusStr new) b) as [[j cj]|].
+ destruct Hn as (jn & -> & Hln). cbn [fst snd]. rewrite Hlo, Hln.
  unfold bind, set_is_solved at 1 2, with_solved, exec. cbn.
  reflexivity.
+ now rewrite Hn.
- now rewrite Ho.
Qed.

(** The loop over the [rename] list leaves a builder alone when no pair
mentions the conflict. *)
Lemma rename_loop_skip fuel k a b :
Forall (fun p => is_tuple p = true /\ mentions a p = false)
     (PyDict.get op_rename (operations b)) ->
rename_loop fuel k a b = (Return tt, b).
Proof.
intros Hall. revert k. induction fuel as [|fuel IH]; intros k; [reflexivity|].
cbn [rename_loop]. unfold bind at 1, get_self.
destruct (PyDict.get op_rename (operations b) !! k) as [p|] eqn:El;
[|reflexivity].
rewrite Forall_forall in Hall.
destruct (Hall p (list_elem_of_lookup_2 _ _ _ El)) as [Ht Hm].
destruct p as [c|o n]; [discriminate|]. cbn in Hm. rewrite Hm. apply IH.
Qed.

(** When the last pair of the [rename] list is the only one that
mentions the conflict, the loop reaches it, unsolves both of its
conflicts and removes it. *)
Lemma rename_loop_removes fuel k a b (l0 : list Payload) i j :
PyDict.get op_rename (operations b) = l0 ++ [PTuple i j] ->
Forall (fun p => is_tuple p = true /\ mentions a p = false) l0 ->
mentions a (PTuple i j) = true ->
~ In (PTuple i j) l0 ->
k <= length l0 -> fuel + k = S (length l0) ->
rename_loop fuel k a b
= (Return tt,
 exec (update_operation op_rename (PyList.remove (PTuple i j)))
      (with_solved j false (with_solved i false b))).
Proof.
intros Hl Hall Hm Hnotin. revert k.
induction fuel as [|fuel IH]; intros k Hk Hfuel; [lia|].
cbn [rename_loop]. unfold bind at 1, get_self. rewrite Hl.
destruct (decide (k = length l0)) as [-> | Hne].
- rewrite list_lookup_middle by reflexivity.
cbn in Hm. rewrite Hm.
assert (fuel = 0) as -> by lia. reflexivity.
- rewrite lookup_app_l by lia.
destruct (l0 !! k) as [p|] eqn:El;
  [|apply lookup_ge_None in El; lia].
rewrite Forall_forall in Hall.
destruct (Hall p (list_elem_of_lookup_2 _ _ _ El)) as [Ht Hmp].
destruct p as [c|o n]; [discriminate|]. cbn in Hmp. rewrite Hmp.
apply IH; lia.
Qed.

Lemma has_keys k (d : Operations) :
PyDict.has k d = existsb (fun k' => OpName_eqb k' k) (PyDict.keys d).
Proof.
unfold PyDict.has, PyDict.keys. induction d as [|[k0 v0] d IH]; cbn;
[reflexivity | now rewrite IH].
Qed.

End Renaming.

Section Resetting.

Implicit Types (b : Builder) (i j r a : Ref) (p : Payload).

Lemma solved_after_unsolve r a b :
a < length (conflicts b) ->
solved r b = Some false \/ r = a ->
solved r (with_solved a false b) = Some false.
Proof.
intros Ha H. destruct (decide (a = r)) as [<- | Hne].
- now apply solved_with_solved_same.
- rewrite solved_with_solved_other by assumption.
destruct H as [H | ->]; [exact H | congruence].
Qed.

(** [_remove_from_operations] on a conflict whose only pair is the last
of the [rename] list: the pair goes and both its conflicts are
unsolved, whatever the other lists hold. *)
Lemma remove_from_operations_pair a b (l0 : list Payload) i j :
a = i \/ a = j ->
PyDict.get op_rename (operations b) = l0 ++ [PTuple i j] ->
Forall (fun p => is_tuple p = true
               /\ mentions i p = false /\ mentions j p = false) l0 ->
PyDict.has op_rename (operations b) = true ->
i < length (conflicts b) -> j < length (conflicts b) ->
exists b',
_remove_from_operations a b = (Return tt, b')
/\ solved i b' = Some false /\ solved j b' = Some false
/\ PyDict.get op_rename (operations b') = l0.
Proof.
intros Ha Hl Hall Hhas Hi Hj.
set (N := length (conflicts b)) in *.
set (St := fun (fin : bool) (b : Builder) =>
PyDict.get op_rename (operations b)
= (if fin then l0 else l0 ++ [PTuple i j])
/\ (fin = true -> solved i b = Some false /\ solved j b = Some false)
/\ length (conflicts b) = N).
set (body := fun operation : OpName =>
if OpName_eqb operation op_rename
then b1 <- get_self ;;
     rename_loop (length (PyDict.get op_rename (operations b1))) 0 a
else b1 <- get_self ;;
     if PyList.mem (PConflict a) (PyDict.get operation (operations b1))
     then set_is_solved a false ;;;
          update_operation operation (PyList.remove (PConflict a))
     else ret tt).
assert (Hall_a : Forall (fun p => is_tuple p = true /\ mentions a p = false) l0).
{ apply Forall_forall. intros p Hp.
destruct (proj1 (Forall_forall _ _) Hall p Hp) as (H1 & H2 & H3).
destruct Ha as [-> | ->]; auto. }
assert (Hm : mentions a (PTuple i j) = true).
{ cbn. destruct Ha as [-> | ->]; rewrite Nat.eqb_refl;
  [reflexivity | apply orb_true_r]. }
assert (Hnotin : ~ In (PTuple i j) l0).
{ intros Hin. rewrite Forall_forall in Hall.
apply list_elem_of_In in Hin. destruct (Hall _ Hin) as (_ & H & _).
cbn in H. now rewrite Nat.eqb_refl in H. }
assert (Hstep : forall k fin b0, St fin b0 ->
        exists b', body k b0 = (Return tt, b')
                   /\ St (fin || OpName_eqb k op_rename) b').
{ intros k fin b0 (Hlist & Hsolved & Hlen). unfold body.
destruct (OpName_eqb k op_rename) eqn:Ek; unfold bind at 1, get_self.
- rewrite orb_true_r. destruct fin.
  + exists b0. split.
    * apply rename_loop_skip. now rewrite Hlist.
    * split; [exact Hlist | split; [exact Hsolved | exact Hlen]].
  + eexists. split.
    * rewrite Hlist, length_app. cbn [length].
      apply (rename_loop_removes _ 0 a b0 l0 i j); auto; lia.
    * split; [|split].
      -- cbn. rewrite get_set_same, Hlist. now apply remove_last.
      -- intros _. change (solved i (with_solved j false (with_solved i false b0))
                           = Some false
                           /\ solved j (with_solved j false (with_solved i false b0))
                              = Some false).
         split.
         ++ apply solved_after_unsolve; [rewrite length_with_solved; lia|].
            left. apply solved_with_solved_same. lia.
         ++ apply solved_with_solved_same. rewrite length_with_solved. lia.
      -- cbn. rewrite !length_alter. exact Hlen.
- rewrite orb_false_r.
  assert (Hk : op_rename <> k).
  { intros <-. discriminate Ek. }
  destruct (PyList.mem (PConflict a) (PyDict.get k (operations b0))).
  + eexists. split; [reflexivity|]. split; [|split].
    * cbn. rewrite get_set_other by assumption. exact Hlist.
    * intros Hfin. destruct (Hsolved Hfin) as [H1 H2].
      change (solved i (with_solved a false b0) = Some false
              /\ solved j (with_solved a false b0) = Some false).
      assert (a < length (conflicts b0)) by (destruct Ha as [-> | ->]; lia).
      split; apply solved_after_unsolve; auto.
    * cbn. rewrite length_alter. exact Hlen.
  + exists b0. split; [reflexivity|].
    split; [exact Hlist | split; [exact Hsolved | exact Hlen]]. }
assert (Hloop : forall ks fin b0, St fin b0 ->
        exists b', for_each ks body b0 = (Return tt, b')
                   /\ St (fin || existsb (fun k => OpName_eqb k op_rename) ks) b').
{ induction ks as [|k ks IH]; intros fin b0 HSt.
- exists b0. rewrite orb_false_r. split; [reflexivity | exact HSt].
- destruct (Hstep k fin b0 HSt) as (b1 & Hrun1 & HSt1).
  destruct (IH _ b1 HSt1) as (b2 & Hrun2 & HSt2).
  exists b2. cbn [for_each existsb]. unfold bind. rewrite Hrun1, Hrun2.
  split; [reflexivity|]. now rewrite orb_assoc. }
destruct (Hloop (PyDict.keys (operations b)) false b) as (b' & Hrun & HSt').
{ split; [exact Hl | split; [discriminate | reflexivity]]. }
rewrite orb_false_l, <- has_keys, Hhas in HSt'.
destruct HSt' as (Hlist' & Hsolved' & _).
destruct (Hsolved' eq_refl) as [H1 H2].
exists b'.
change (_remove_from_operations a b)
with (for_each (PyDict.keys (operations b)) body b).
rewrite Hrun. auto.
Qed.

(** [reset_dimension] on a plain name: one lookup over every status,
then the conflict found leaves the log. *)
Lemma reset_dimension_plain arg b :
is_plain_name arg = true ->
reset_dimension arg b
= match first_match arg (StatusList [missing; new; changed]) b with
| Some (r, _) =>
    match _remove_from_operations r (with_solved r false b) with
    | (Return _, b') => (Return tt, b')
    | (Raise e, b') => (Raise e, b')
    end
| None => (Raise ValueError, b)
end.
Proof.
intros H. unfold reset_dimension, bind at 1, get_self.
rewrite (get_names_plain _ _ _ H). cbn [for_each].
unfold bind at 1, bind at 1. rewrite mark_as_run.
destruct (first_match arg _ b) as [[r c]|]; [|reflexivity].
destruct (_remove_from_operations r (with_solved r false b)) as [[[]|e] b'];
reflexivity.
Qed.

(** With pairwise distinct names, a name settles the conflict. *)
Lemma names_settle_ref b r i (c c' : Conflict) :
List.NoDup (conflict_names b) ->
conflicts b !! r = Some c -> conflicts b !! i = Some c' ->
name (dimension c) = name (dimension c') -> r = i.
Proof.
intros Hnd Hr Hi Hn. apply NoDup_ListNoDup in Hnd.
eapply NoDup_lookup; [exact Hnd | |].
- unfold conflict_names. change map with (@fmap list _). 
rewrite list_lookup_fmap, Hr. reflexivity.
- unfold conflict_names. change map with (@fmap list _).
rewrite list_lookup_fmap, Hi. cbn. now rewrite Hn.
Qed.

End Resetting.

Lemma solved_after_set (r a : Ref) (v : bool) (b : Builder) :
  a < length (conflicts b) ->
  solved r b = Some v \/ r = a ->
  solved r (with_solved a v b) = Some v.
Proof.
  intros Ha H. destruct (decide (a = r)) as [<- | Hne].
  - now apply solved_with_solved_same.
  - rewrite solved_with_solved_other by assumption.
    destruct H as [H | ->]; [exact H | congruence].
Qed.

(** C2, as the code has it.  At any point of a session over well-formed
    spaces, [rename_dimension (old, new)] succeeds exactly when [old]
    names a [missing] conflict and [new] names a [new] conflict, solved
    or not; otherwise it raises the [ValueError] of the failed lookup and
    changes nothing.  On success both conflicts are solved and their pair
    is in the [rename] list.  If moreover neither conflict was part of a
    recorded rename before the call, [reset_dimension] on either (plain)
    name then unsolves both conflicts and removes the pair, leaving the
    [rename] list as it was before the rename. *)
Theorem rename_dimension_contract (parent child : Space) (calls : list Call)
  (old_name new_name : string) :
  SpaceOps.well_formed parent -> SpaceOps.well_formed child ->
  let b := run_calls calls (detected parent child) in
  let call := rename_dimension (old_name, new_name) in
  succeeds call b
  = has_conflict old_name missing false b && has_conflict new_name new false b
  /\ (succeeds call b = false ->
      outcome call b = Raise ValueError /\ exec call b = b)
  /\ (succeeds call b = true ->
      exists i j,
        refers_to i old_name missing b /\ refers_to j new_name new b
        /\ solved i (exec call b) = Some true
        /\ solved j (exec call b) = Some true
        /\ In (PTuple i j) (PyDict.get op_rename (operations (exec call b)))
        /\ (is_plain_name old_name = true -> is_plain_name new_name = true ->
            (forall p, In p (PyDict.get op_rename (operations b)) ->
                       mentions i p = false /\ mentions j p = false) ->
            forall x, x = old_name \/ x = new_name ->
              let b' := exec (reset_dimension x) (exec call b) in
              succeeds (reset_dimension x) (exec call b) = true
              /\ solved i b' = Some false /\ solved j b' = Some false
              /\ PyDict.get op_rename (operations b')
                 = PyDict.get op_rename (operations b)
              /\ ~ In (PTuple i j) (PyDict.get op_rename (operations b')))).
Proof.
  intros Hp Hc b call.
  pose proof (first_match_str_has old_name missing b) as Hho.
  pose proof (first_match_str_has new_name new b) as Hhn.
  pose proof (rename_dimension_run old_name new_name b) as Hrun.
  fold call in Hrun. unfold succeeds, outcome, exec. rewrite Hrun.
  destruct (first_match old_name (StatusStr missing) b) as [[i ci]|] eqn:Eo;
    [|rewrite <- Hho; cbn; repeat split; discriminate].
  destruct (first_match new_name (StatusStr new) b) as [[j cj]|] eqn:En;
    [|rewrite <- Hho, <- Hhn; cbn; repeat split; discriminate].
  destruct (put_operation_run op_rename (PTuple i j)
              (with_solved j true (with_solved i true b)))
    as (ops' & -> & Hget & _ & Hhas).
  cbn [fst snd operations conflicts] in *.
  rewrite <- Hho, <- Hhn. split; [reflexivity|]. split; [discriminate|].
  intros _.
  destruct (first_match_Some _ _ _ _ _ Eo) as (Hli & Hsi & Hni).
  destruct (first_match_Some _ _ _ _ _ En) as (Hlj & Hsj & Hnj).
  rewrite status_in_str in Hsi, Hsj.
  apply Status_eqb_eq in Hsi. apply Status_eqb_eq in Hsj.
  assert (Hi : i < length (conflicts b)) by (eapply lookup_lt_Some, Hli).
  assert (Hj : j < length (conflicts b)) by (eapply lookup_lt_Some, Hlj).
  rewrite ?operations_with_solved in Hget.
  set (l0 := PyDict.get op_rename (operations b)) in *.
  exists i, j. split; [exists ci; auto|]. split; [exists cj; auto|].
  split; [|split; [|split]].
  - change (solved i (with_solved j true (with_solved i true b)) = Some true).
    apply solved_after_set; [rewrite length_with_solved; lia|].
    left. now apply solved_with_solved_same.
  - change (solved j (with_solved j true (with_solved i true b)) = Some true).
    apply solved_with_solved_same. rewrite length_with_solved. lia.
  - rewrite Hget. destruct (PyList.mem (PTuple i j) l0) eqn:Em.
    + now apply mem_In.
    + apply in_or_app. right. now left.
  - intros Hplain_o Hplain_n Hnomention x Hx.
    assert (Em : PyList.mem (PTuple i j) l0 = false).
    { destruct (PyList.mem (PTuple i j) l0) eqn:Em; [|reflexivity].
      apply mem_In in Em. destruct (Hnomention _ Em) as [H _].
      cbn in H. now rewrite Nat.eqb_refl in H. }
    rewrite Em in Hget.
    set (b1 := {| conflicts := conflicts (with_solved j true (with_solved i true b));
                  operations := ops' |}).
    assert (Hmem : membership b1 = membership b).
    { unfold b1, membership. cbn [conflicts].
      change (membership (with_solved j true (with_solved i true b)) = membership b).
      now rewrite !membership_with_solved. }
    assert (Hnd : List.NoDup (conflict_names b)) by now apply session_names_NoDup.
    set (sts := StatusList [missing; new; changed]).
    (* the conflict the reset settles on *)
    assert (Hfind : exists a c, (a = i \/ a = j)
                                /\ first_match x sts b1 = Some (a, c)).
    { assert (Ha : exists a ca, (a = i \/ a = j) /\ conflicts b !! a = Some ca
                   /\ name (dimension ca) = ("/" ++ x)%string).
      { destruct Hx as [-> | ->]; [exists i, ci | exists j, cj]; auto. }
      destruct Ha as (a & ca & Ha & Hla & Hna).
      pose proof (first_match_membership x sts b b1 Hmem) as Hfm.
      destruct (first_match x sts b) as [[r c]|] eqn:Er.
      - destruct (first_match_Some _ _ _ _ _ Er) as (Hlr & _ & Hnr).
        assert (r = a) as -> by (eapply names_settle_ref; eauto; congruence).
        destruct (first_match x sts b1) as [[r1 c1]|]; cbn in Hfm; [|discriminate].
        injection Hfm as ->. eauto.
      - exfalso. pose proof (proj1 (first_match_None x sts b) Er ca) as Hf.
        unfold lookup_test in Hf. rewrite Hna, String.eqb_refl in Hf.
        assert (In ca (conflicts b))
          by (apply list_elem_of_In; eapply list_elem_of_lookup_2, Hla).
        specialize (Hf H). rewrite andb_true_r in Hf.
        destruct (status ca); discriminate. }
    destruct Hfind as (a & c & Ha & Hfm).
    assert (Hplain : is_plain_name x = true) by (destruct Hx as [-> | ->]; auto).
    destruct (remove_from_operations_pair a (with_solved a false b1) l0 i j)
      as (b2 & Hrm & Hs1 & Hs2 & Hl2).
    + exact Ha.
    + exact Hget.
    + apply Forall_forall. intros p Hin. apply list_elem_of_In in Hin.
      destruct (Hnomention p Hin) as [H1 H2]. repeat split; auto.
      destruct (session_log_ok parent child calls) as [_ Hty].
      rewrite Forall_forall in Hty. apply Hty. now apply list_elem_of_In.
    + exact Hhas.
    + rewrite length_with_solved. unfold b1. cbn [conflicts].
      rewrite !length_with_solved. exact Hi.
    + rewrite length_with_solved. unfold b1. cbn [conflicts].
      rewrite !length_with_solved. exact Hj.
    + rewrite (reset_dimension_plain x b1 Hplain). fold sts. rewrite Hfm, Hrm.
      cbn [fst snd]. repeat split; auto.
      rewrite Hl2. intros Hin. destruct (Hnomention _ Hin) as [H _].
      cbn in H. now rewrite Nat.eqb_refl in H.
Qed.

Lemma rename_dimension_contract_witness :
  let b := run_calls [] (detected Scenario.parent Scenario.child) in
  let call := rename_dimension ("missing", "new") in
  succeeds call b = true
  /\ exists i j,
       refers_to i "missing" missing b /\ refers_to j "new" new b
       /\ solved i (exec call b) = Some true
       /\ solved j (exec call b) = Some true
       /\ In (PTuple i j) (PyDict.get op_rename (operations (exec call b)))
       /\ solved i (exec (reset_dimension "new") (exec call b)) = Some false
       /\ solved j (exec (reset_dimension "new") (exec call b)) = Some false
       /\ PyDict.get op_rename
            (operations (exec (reset_dimension "new") (exec call b))) = [].
Proof.
  cbv zeta. split; [reflexivity|].
  destruct (rename_dimension_contract Scenario.parent Scenario.child []
              "missing" "new"
              scenario_parent_well_formed scenario_child_well_formed)
    as (_ & _ & H).
  destruct (H eq_refl) as (i & j & Hi & Hj & Hsi & Hsj & Hin & Hreset).
  destruct (Hreset eq_refl eq_refl (fun p (F : In p []) => match F with end)
              "new" (or_intror eq_refl))
    as (_ & H1 & H2 & H3 & _).
  exists i, j. repeat split; assumption.
Defined.

(** C2 as stated fails: once [remove_dimension "missing"] has solved the
    missing conflict, no unsolved [missing] conflict is named [missing],
    and yet [rename_dimension ("missing", "new")] succeeds. *)
Lemma rename_dimension_ignores_solved :
  let b := exec (remove_dimension "missing") Scenario.builder in
  solved 2 b = Some true
  /\ has_conflict "missing" missing true b = false
  /\ has_conflict "new" new true b = true
  /\ succeeds (rename_dimension ("missing", "new")) b = true.
Proof. cbv zeta. repeat split; reflexivity. Qed.

(** ** Several tokens *)

Section Tokens.

Implicit Types (b : Builder) (sts : StatusArg) (tok : string)
(tokens names : list string).

(** A keyword or wildcard token extends the names gathered so far. *)
Lemma get_names_step_extends sts b names tok :
is_literal tok = false ->
_get_names_step sts b names tok = names ++ _get_names_step sts b [] tok.
Proof.
unfold is_literal, _get_names_step, _extend_special_keywords, _extend_wildcard.
destruct (bool_decide (is_Some (special_keywords tok))); cbn [negb andb].
- intros _. destruct (special_keywords tok);
  [reflexivity | now rewrite app_nil_r].
- destruct (PyStr.contains "*" tok); [reflexivity | discriminate].
Qed.

(** A token without a space, given alone, goes through one turn of the
loop. *)
Lemma get_names_token sts b tok :
PyStr.contains " " tok = false ->
_get_names tok sts b = _get_names_step sts b [] tok.
Proof.
intros H. unfold _get_names. now rewrite (split_without _ _ H).
Qed.

Lemma from_last_literal_none tokens :
existsb is_literal tokens = false -> from_last_literal tokens = tokens.
Proof.
destruct tokens as [|t rest]; [reflexivity|]. cbn.
intros H. apply orb_false_iff in H as [_ H]. now rewrite H.
Qed.

Lemma from_last_literal_some tokens :
existsb is_literal tokens = true ->
exists t rest, from_last_literal tokens = t :: rest
             /\ is_literal t = true /\ existsb is_literal rest = false.
Proof.
induction tokens as [|t rest IH]; [discriminate|]. cbn.
destruct (existsb is_literal rest) eqn:E.
- intros _. now apply IH.
- rewrite orb_false_r. intros H. eauto.
Qed.

Lemma from_last_literal_suffix tokens :
exists pre, tokens = pre ++ from_last_literal tokens.
Proof.
induction tokens as [|t rest [pre IH]]; [now exists []|]. cbn.
destruct (existsb is_literal rest).
- exists (t :: pre). cbn. now f_equal.
- now exists [].
Qed.

Lemma from_last_literal_last tokens tok :
is_literal tok = true -> from_last_literal (tokens ++ [tok]) = [tok].
Proof.
intros H. induction tokens as [|t rest IH]; cbn; [reflexivity|].
rewrite existsb_app. cbn. rewrite H, orb_true_r. exact IH.
Qed.

(** The loop of [_get_names] without literal tokens: every token adds
its own names. *)
Lemma fold_without_literal sts b tokens names :
existsb is_literal tokens = false ->
fold_left (_get_names_step sts b) tokens names
= names ++ concat (map (_get_names_step sts b []) tokens).
Proof.
revert names. induction tokens as [|t rest IH]; intros names; cbn.
- intros _. now rewrite app_nil_r.
- intros H. apply orb_false_iff in H as [Ht Hrest].
rewrite (IH _ Hrest), (get_names_step_extends _ _ names _ Ht).
now rewrite <- app_assoc.
Qed.

(** The loop of [_get_names]: what was gathered before the last literal
token is dropped. *)
Lemma fold_from_last_literal sts b tokens names :
fold_left (_get_names_step sts b) tokens names
= (if existsb is_literal tokens then [] else names)
++ concat (map (_get_names_step sts b []) (from_last_literal tokens)).
Proof.
revert names. induction tokens as [|t rest IH]; intros names.
- cbn. now rewrite app_nil_r.
- cbn [fold_left existsb from_last_literal]. rewrite IH.
destruct (existsb is_literal rest) eqn:Er.
+ now rewrite orb_true_r.
+ rewrite orb_false_r, (from_last_literal_none _ Er). cbn [map concat].
  destruct (is_literal t) eqn:Et.
  * now rewrite !(get_names_step_literal _ _ _ _ Et).
  * rewrite (get_names_step_extends _ _ names _ Et). now rewrite <- app_assoc.
Qed.

End Tokens.

(** C7, as the code has it.  The list expanded from a names string is
    the concatenation, in order, of what each token alone would expand
    to, taken over the tokens from the last literal name onward (over all
    the tokens when none is a literal name): keyword and wildcard tokens
    accumulate, and only a literal name discards what precedes it.  So
    the list is the last token's own when the last token is a literal
    name. *)
Theorem get_names_tokens (name_ : string) (sts : StatusArg) (b : Builder) :
  let tokens := PyStr.split " " name_ in
  _get_names name_ sts b
  = concat (map (fun t => _get_names t sts b) (from_last_literal tokens))
  /\ (forall pre tok, tokens = pre ++ [tok] -> is_literal tok = true ->
                      _get_names name_ sts b = _get_names tok sts b
                      /\ _get_names name_ sts b = [tok]).
Proof.
  intros tokens.
  assert (Hmain : _get_names name_ sts b
                  = concat (map (fun t => _get_names t sts b)
                                (from_last_literal tokens))).
  { unfold _get_names. fold tokens. rewrite fold_from_last_literal.
    assert (Hsame : map (fun t => _get_names t sts b) (from_last_literal tokens)
                    = map (_get_names_step sts b []) (from_last_literal tokens)).
    { apply map_ext_in. intros t Hin. apply get_names_token.
      destruct (from_last_literal_suffix tokens) as [pre Hpre].
      pose proof (split_pieces " " name_) as Hall. fold tokens in Hall.
      rewrite Forall_forall in Hall. apply Hall. apply list_elem_of_In.
      rewrite Hpre. apply in_or_app. now right. }
    unfold _get_names in Hsame. rewrite Hsame.
    destruct (existsb is_literal tokens); reflexivity. }
  split; [exact Hmain|]. intros pre tok Htok Hlit.
  assert (Hone : _get_names name_ sts b = _get_names tok sts b).
  { rewrite Hmain, Htok, (from_last_literal_last _ _ Hlit). cbn.
    apply app_nil_r. }
  split; [exact Hone|]. rewrite Hone.
  rewrite get_names_token; [now apply get_names_step_literal|].
  pose proof (split_pieces " " name_) as Hall. fold tokens in Hall.
  rewrite Forall_forall in Hall. apply Hall. apply list_elem_of_In.
  rewrite Htok. apply in_or_app. right. now left.
Qed.

Lemma get_names_tokens_witness :
  _get_names "~new db.* changed" (StatusList [new; changed]) Scenario.builder
  = _get_names "changed" (StatusList [new; changed]) Scenario.builder
  /\ _get_names "~new db.* changed" (StatusList [new; changed]) Scenario.builder
     = ["changed"].
Proof.
  apply (proj2 (get_names_tokens "~new db.* changed" (StatusList [new; changed])
                  Scenario.builder) ["~new"; "db.*"] "changed");
    reflexivity.
Defined.

(** C7 as stated fails: with one [new] and one [changed] conflict,
    ["~new ~changed"] expands to both names, not to what the last token
    alone expands to. *)
Lemma get_names_accumulates :
  let sts := StatusList [new; changed] in
  _get_names "~new ~changed" sts Scenario.builder = ["new"; "changed"]
  /\ _get_names "~changed" sts Scenario.builder = ["changed"]
  /\ _get_names "~new ~changed" sts Scenario.builder
     <> _get_names "~changed" sts Scenario.builder.
Proof.
  cbv zeta. repeat split; try reflexivity.
  intros H. vm_compute in H. discriminate H.
Qed.

(** ** What a token contributes *)

Section Contribution.

Implicit Types (b : Builder) (sts : StatusArg) (arg : string).

(** The names a filter gives are those of the conflicts that pass it. *)
Lemma stripped_names_filter (f : Conflict -> bool) (cs : list Conflict) (k : nat)
(n : string) :
In n (stripped_names (filter_from k f cs))
<-> exists c, In c cs /\ f c = true /\ n = PyStr.tail (name (dimension c)).
Proof.
revert k. induction cs as [|c cs IH]; intros k; cbn [filter_from].
- cbn. split; [tauto | intros (c & [] & _)].
- destruct (f c) eqn:Ef; cbn [stripped_names map In snd];
  fold (stripped_names (filter_from (S k) f cs)); rewrite IH.
+ split.
  * intros [<- | (c' & Hin & Hf & ->)]; [exists c | exists c']; cbn; auto.
  * intros (c' & [<- | Hin] & Hf & ->); [now left | right; eauto].
+ split.
  * intros (c' & Hin & Hf & ->). exists c'. cbn. auto.
  * intros (c' & [<- | Hin] & Hf & ->); [congruence | eauto].
Qed.

(** A wildcard token is no keyword. *)
Lemma wildcard_not_keyword arg :
PyStr.contains "*" arg = true -> special_keywords arg = None.
Proof.
unfold special_keywords. intros H.
destruct (String.eqb_spec arg "~new") as [-> | _]; [discriminate H|].
destruct (String.eqb_spec arg "~changed") as [-> | _]; [discriminate H|].
destruct (String.eqb_spec arg "~missing") as [-> | _]; [discriminate H|].
reflexivity.
Qed.

End Contribution.

(** C6, as the code has it.  In [add_dimension] the allowed statuses are
    [new] and [changed].  A wildcard token adds exactly the names of the
    conflicts whose name starts with the prefix and whose status is
    allowed; so with conflicts [new:/db.host], [new:/db.port],
    [missing:/cache.ttl], [add_dimension "db.*"] solves and records
    [db.host] and [db.port] and leaves [cache.ttl] alone.  A keyword
    token adds the names of all the conflicts of the keyword's own
    status, whatever statuses are allowed. *)
Theorem add_dimension_expansion :
  (forall (b : Builder) (names : list string) (arg : string),
      PyStr.contains "*" arg = true ->
      exists added,
        _get_names_step (StatusList [new; changed]) b names arg = names ++ added
        /\ forall n,
             In n added <->
             exists c, In c (conflicts b)
                       /\ n = PyStr.tail (name (dimension c))
                       /\ PyStr.startswith
                            (name (dimension c))
                            ("/" ++ hd EmptyString (PyStr.split "*" arg))%string
                          = true
                       /\ (status c = new \/ status c = changed))
  /\ (let b' := exec (add_dimension "db.*") Scenario.db_builder in
      succeeds (add_dimension "db.*") Scenario.db_builder = true
      /\ map (fun c => (name (dimension c), status c, is_solved c)) (conflicts b')
         = [("/db.host", new, true); ("/db.port", new, true);
            ("/cache.ttl", missing, false)]
      /\ operations b' = [(op_add, [PConflict 0; PConflict 1])])
  /\ (forall (b : Builder) (names : list string) (arg : string) (s : Status)
             (sts : StatusArg),
         special_keywords arg = Some s ->
         exists added,
           _get_names_step sts b names arg = names ++ added
           /\ forall n,
                In n added <->
                exists c, In c (conflicts b)
                          /\ n = PyStr.tail (name (dimension c))
                          /\ status c = s).
Proof.
  split; [|split].
  - intros b names arg Hw. unfold _get_names_step.
    rewrite (wildcard_not_keyword _ Hw), Hw. cbn [bool_decide].
    replace (bool_decide (is_Some (@None Status))) with false
      by (symmetry; apply bool_decide_eq_false; intros [? [=]]).
    unfold _extend_wildcard, filter_conflicts. eexists. split; [reflexivity|].
    intros n. rewrite stripped_names_filter. split.
    + intros (c & Hin & Hf & ->). apply andb_true_iff in Hf as [Hpre Hst].
      apply status_in_list in Hst. exists c. repeat split; auto.
      cbn in Hst. intuition.
    + intros (c & Hin & -> & Hpre & Hst). exists c. repeat split; auto.
      apply andb_true_iff. split; [exact Hpre|]. apply status_in_list.
      cbn. intuition.
  - cbv zeta. repeat split; reflexivity.
  - intros b names arg s sts Hk. unfold _get_names_step, _extend_special_keywords.
    rewrite Hk.
    replace (bool_decide (is_Some (Some s))) with true
      by (symmetry; apply bool_decide_eq_true; eauto).
    unfold _filter_conflicts_status, filter_conflicts.
    eexists. split; [reflexivity|].
    intros n. rewrite stripped_names_filter. split.
    + intros (c & Hin & Hf & ->). exists c. repeat split; auto.
      apply status_in_list in Hf. cbn in Hf. intuition.
    + intros (c & Hin & -> & Hst). exists c. repeat split; auto.
      apply status_in_list. cbn. auto.
Qed.

Lemma add_dimension_expansion_witness :
  exists added,
    _get_names_step (StatusList [new; changed]) Scenario.db_builder [] "db.*"
    = [] ++ added
    /\ forall n,
         In n added <->
         exists c, In c (conflicts Scenario.db_builder)
                   /\ n = PyStr.tail (name (dimension c))
                   /\ PyStr.startswith
                        (name (dimension c))
                        ("/" ++ hd EmptyString (PyStr.split "*" "db.*"))%string
                      = true
                   /\ (status c = new \/ status c = changed).
Proof.
  apply (proj1 add_dimension_expansion Scenario.db_builder [] "db.*").
  reflexivity.
Defined.

(** C6 as stated fails for keywords: in [add_dimension], the token
    [~missing] contributes [cache.ttl], the name of a [missing] conflict,
    although only [new] and [changed] are allowed (the lookup that
    follows then raises). *)
Lemma keyword_ignores_allowed_statuses :
  let sts := StatusList [new; changed] in
  _get_names "~missing" sts Scenario.db_builder = ["cache.ttl"]
  /\ has_conflict "cache.ttl" missing false Scenario.db_builder = true
  /\ has_conflict "cache.ttl" new false Scenario.db_builder = false
  /\ has_conflict "cache.ttl" changed false Scenario.db_builder = false
  /\ succeeds (add_dimension "~missing") Scenario.db_builder = false.
Proof. cbv zeta. repeat split; reflexivity. Qed.

(** ** Where the code departs from its intent *)

(** C4.  [reset_dimension] expands its argument but then looks the
    argument itself up at every turn of the loop, not the expanded name:
    after [add_dimension "db.*"] has solved [db.host] and [db.port],
    [reset_dimension "db.*"] expands to the two names and raises at the
    first turn, since no conflict is named [/db.*]; both conflicts stay
    solved and recorded. *)
Theorem reset_dimension_looks_up_argument :
  let b := exec (add_dimension "db.*") Scenario.db_builder in
  _get_names "db.*" (StatusList [missing; new; changed]) b = ["db.host"; "db.port"]
  /\ solved 0 b = Some true /\ solved 1 b = Some true
  /\ operations b = [(op_add, [PConflict 0; PConflict 1])]
  /\ reset_dimension "db.*" b = (Raise ValueError, b).
Proof. cbv zeta. repeat split; reflexivity. Qed.

(** For one plain name the argument is the expanded name, and the reset
    undoes an [add_dimension]: the conflict is unsolved again and gone
    from the [add] list. *)
Lemma reset_dimension_after_add_plain :
  let b := Scenario.builder in
  let b' := exec (reset_dimension "new") (exec (add_dimension "new") b) in
  succeeds (reset_dimension "new") (exec (add_dimension "new") b) = true
  /\ conflicts b' = conflicts b
  /\ PyDict.get op_add (operations b') = PyDict.get op_add (operations b)
  /\ operations b' = [(op_add, [])].
Proof. cbv zeta. repeat split; reflexivity. Qed.

(** C8.  The directive parser finds the position of a token by value
    ([args.index(arg)]), so a directive given twice resolves to the first
    occurrence both times: of [--a~-], [--x~uniform(0,1)], [--a~-] the
    positions 0 and 0 are deleted, which removes the unmarked middle
    token and leaves the second drop directive in the list. *)
Theorem interpret_commandline_repeated_drop :
  let run := Commandline._interpret_commandline Scenario.repeated_drop in
  fst run = Return tt
  /\ Commandline.to_delete (snd run) = [0; 0]
  /\ Commandline.args (snd run) = ["--a~-"]
  /\ Commandline.queued "~-" (Commandline.commandline_keywords (snd run))
     = ["--a~-"; "--a~-"]
  /\ Commandline.carries "~-" "--a~-" = true
  /\ Commandline.carries "~+" "--x~uniform(0,1)" = false
  /\ Commandline.carries "~-" "--x~uniform(0,1)" = false
  /\ Commandline.carries "~>" "--x~uniform(0,1)" = false.
Proof. cbv zeta. repeat split; reflexivity. Qed.

(** On pairwise distinct tokens with one marker each the parser does what
    is intended: the append token is rewritten, the drop and rename
    tokens are removed and the others pass through. *)
Lemma interpret_commandline_distinct_tokens :
  let run := Commandline._interpret_commandline
               ["--a~+uniform(0,1)"; "--x~uniform(0,1)"; "--b~-"; "--c~>d"] in
  fst run = Return tt
  /\ Commandline.args (snd run) = ["--a~uniform(0,1)"; "--x~uniform(0,1)"]
  /\ Commandline.commandline_keywords (snd run)
     = [("~+", ["--a~+uniform(0,1)"]); ("~-", ["--b~-"]); ("~>", ["--c~>d"])].
Proof. cbv zeta. repeat split; reflexivity. Qed.

(** [create_adaptors] never evaluates to a list. *)
Lemma create_adaptors_never_a_list (b : Builder) (items : list Adaptor) :
  outcome create_adaptors b <> Return (VList items).
Proof.
  unfold outcome, create_adaptors, bind, get_self.
  destruct (create_adaptors_loop (operations b) [] b) as [[l|e] b'];
    cbn; discriminate.
Qed.

(** C9.  [create_adaptors] builds its list of adaptors, one per recorded
    payload, and then falls off the end of its body: with [new] added
    and [missing] removed the log records two payloads, the local list
    holds two adaptors, and the call evaluates to [None]. *)
Theorem create_adaptors_returns_none :
  let b := exec (remove_dimension "missing")
                (exec (add_dimension "new") Scenario.builder) in
  operations b = [(op_add, [PConflict 0]); (op_remove, [PConflict 2])]
  /\ recorded_payloads b = 2
  /\ outcome (create_adaptors_loop (operations b) []) b
     = Return [NoneAdaptor; NoneAdaptor]
  /\ outcome create_adaptors b = Return VNone.
Proof. cbv zeta. repeat split; reflexivity. Qed.

(** * Further properties of the module *)

(** ** What detection emits *)

Section DetectionMembers.

Implicit Types (parent child : Space) (c : Conflict) (d : Dimension).

Lemma find_conflicts_child_In parent (dims : list Dimension) c :
In c (find_conflicts_child parent dims)
<-> is_solved c = false /\ In (dimension c) dims
    /\ (status c = new
        /\ SpaceOps.has_name (name (dimension c)) parent = false
        \/ status c = changed
           /\ SpaceOps.has_name (name (dimension c)) parent = true
           /\ SpaceOps.has_value (dimension c) parent = false).
Proof.
induction dims as [|d dims IH]; cbn [find_conflicts_child].
- cbn. tauto.
- rewrite in_app_iff, IH. cbn [In]. split.
  + intros [H | H]; [|tauto].
    destruct (SpaceOps.has_name (name d) parent) eqn:En;
      [destruct (SpaceOps.has_value d parent) eqn:Ev|]; cbn in H;
      try destruct H as [<- | []]; try tauto; cbn; rewrite ?En, ?Ev; tauto.
  + intros (Hs & [Hd | Hin] & Hst); [|tauto]. left.
    destruct c as [sv dm st]; cbn in *. subst sv d.
    destruct Hst as [[-> En] | (-> & En & Ev)]; rewrite En, ?Ev; cbn; now left.
Qed.

Lemma find_conflicts_parent_In child (dims : list Dimension) c :
In c (find_conflicts_parent child dims)
<-> is_solved c = false /\ In (dimension c) dims
    /\ status c = missing
    /\ SpaceOps.has_name (name (dimension c)) child = false.
Proof.
induction dims as [|d dims IH]; cbn [find_conflicts_parent].
- cbn. tauto.
- rewrite in_app_iff, IH. cbn [In]. split.
  + intros [H | H]; [|tauto].
    destruct (SpaceOps.has_name (name d) child) eqn:En; cbn in H;
      try destruct H as [<- | []]; try tauto; cbn; rewrite ?En; tauto.
  + intros (Hs & [Hd | Hin] & Hst & En); [|tauto]. left.
    destruct c as [sv dm st]; cbn in *. subst sv st d. rewrite En. cbn. now left.
Qed.

Lemma find_conflicts_In parent child c :
In c (find_conflicts parent child)
<-> is_solved c = false
    /\ match status c with
       | new => In (dimension c) child
                /\ SpaceOps.has_name (name (dimension c)) parent = false
       | changed => In (dimension c) child
                    /\ SpaceOps.has_name (name (dimension c)) parent = true
                    /\ ~ In (dimension c) parent
       | missing => In (dimension c) parent
                    /\ SpaceOps.has_name (name (dimension c)) child = false
       end.
Proof.
unfold find_conflicts, SpaceOps.values.
rewrite in_app_iff, find_conflicts_child_In, find_conflicts_parent_In.
assert (Hv : SpaceOps.has_value (dimension c) parent = false
             <-> ~ In (dimension c) parent).
{ rewrite <- has_value_In.
  destruct (SpaceOps.has_value (dimension c) parent); split; congruence. }
rewrite Hv. destruct (status c); split; intros H;
  repeat match goal with
    | H : _ /\ _ |- _ => destruct H
    | H : _ \/ _ |- _ => destruct H
    end; try discriminate; tauto.
Qed.

End DetectionMembers.

(** X1.  A conflict is detected exactly when it is unsolved and either
    [new] with a descriptor of the child whose name the parent lacks, or
    [changed] with a descriptor of the child whose name the parent has
    but whose value it has not, or [missing] with a descriptor of the
    parent whose name the child lacks. *)
Theorem find_conflicts_members (parent child : Space) (c : Conflict) :
  In c (find_conflicts parent child)
  <-> is_solved c = false
      /\ match status c with
         | new => In (dimension c) child
                  /\ SpaceOps.has_name (name (dimension c)) parent = false
         | changed => In (dimension c) child
                      /\ SpaceOps.has_name (name (dimension c)) parent = true
                      /\ ~ In (dimension c) parent
         | missing => In (dimension c) parent
                      /\ SpaceOps.has_name (name (dimension c)) child = false
         end.
Proof. apply find_conflicts_In. Qed.

(** X2.  Detection finds no conflict exactly when every descriptor of the
    child is a descriptor of the parent and every name of the parent is a
    name of the child. *)
Theorem find_conflicts_nil_iff (parent child : Space) :
  find_conflicts parent child = []
  <-> (forall d, In d child -> In d parent)
      /\ (forall d, In d parent -> SpaceOps.has_name (name d) child = true).
Proof.
  split.
  - intros Hnil. split; intros d Hin.
    + destruct (SpaceOps.has_name (name d) parent) eqn:En.
      * destruct (SpaceOps.has_value d parent) eqn:Ev; [now apply has_value_In|].
        exfalso.
        assert (H : In (Conflict_init changed d) (find_conflicts parent child)).
        { apply find_conflicts_In. cbn. repeat split; auto.
          rewrite <- has_value_In. congruence. }
        now rewrite Hnil in H.
      * exfalso.
        assert (H : In (Conflict_init new d) (find_conflicts parent child)).
        { apply find_conflicts_In. cbn. auto. }
        now rewrite Hnil in H.
    + destruct (SpaceOps.has_name (name d) child) eqn:En; [reflexivity|].
      exfalso.
      assert (H : In (Conflict_init missing d) (find_conflicts parent child)).
      { apply find_conflicts_In. cbn. auto. }
      now rewrite Hnil in H.
  - intros [Hc Hp].
    destruct (find_conflicts parent child) as [|c cs] eqn:E; [reflexivity|].
    exfalso.
    assert (H : In c (find_conflicts parent child)) by (rewrite E; now left).
    apply find_conflicts_In in H as [_ H]. destruct (status c).
    + destruct H as [Hin Hn]. apply has_name_false in Hn. apply Hn.
      apply in_map. now apply Hc.
    + destruct H as (Hin & _ & Hnot). apply Hnot. now apply Hc.
    + destruct H as [Hin Hn]. rewrite (Hp _ Hin) in Hn. discriminate.
Qed.

(** X3.  For a well-formed parent space, the old value of a detected
    conflict's dimension is: nothing for a [new] conflict, the conflict's
    own descriptor for a [missing] one, and for a [changed] one a
    descriptor of the same name that differs from the conflict's. *)
Theorem old_value_of_conflict (parent child : Space) (c : Conflict) :
  SpaceOps.well_formed parent ->
  In c (find_conflicts parent child) ->
  match status c with
  | new => get_old_dimension_value parent (name (dimension c)) = None
  | missing => get_old_dimension_value parent (name (dimension c))
               = Some (dimension c)
  | changed => exists d, get_old_dimension_value parent (name (dimension c))
                         = Some d
                         /\ name d = name (dimension c) /\ d <> dimension c
  end.
Proof.
  intros Hwf Hin. apply find_conflicts_In in Hin as [_ H].
  unfold get_old_dimension_value. destruct (status c).
  - destruct H as [_ ->]. reflexivity.
  - destruct H as (_ & Hn & Hnot). rewrite Hn.
    apply get_has_name in Hn as [d Hd]. exists d. rewrite Hd.
    destruct (get_Some_name _ _ _ Hd) as [Hname Hind].
    repeat split; auto. intros ->. contradiction.
  - destruct H as [Hinp _].
    assert (Hn : SpaceOps.has_name (name (dimension c)) parent = true).
    { apply has_name_In. now apply in_map. }
    rewrite Hn. apply get_has_name in Hn as [d Hd]. rewrite Hd. f_equal.
    symmetry. eapply get_unique; eauto.
Qed.

Lemma old_value_of_conflict_witness :
  get_old_dimension_value Scenario.parent "/missing"
  = Some {| name := "/missing"; prior := "uniform(-10,10)" |}.
Proof.
  apply (old_value_of_conflict Scenario.parent Scenario.child
           (Conflict_init missing
              {| name := "/missing"; prior := "uniform(-10,10)" |})).
  - exact scenario_parent_well_formed.
  - cbn. auto.
Defined.

(** ** Looking a conflict up by name *)

Section ByName.

Implicit Types (b : Builder) (l : list string) (x : string).

Lemma index_Some x l i :
PyList.index x l = Some i -> l !! i = Some x.
Proof.
revert i. induction l as [|y l IH]; intros i; cbn; [discriminate|].
destruct (String.eqb_spec y x) as [-> | Hne].
- intros [= <-]. reflexivity.
- destruct (PyList.index x l) as [k|]; cbn; [|discriminate].
  intros [= <-]. now apply IH.
Qed.

Lemma index_None x l : PyList.index x l = None <-> ~ In x l.
Proof.
induction l as [|y l IH]; cbn; [tauto|].
destruct (String.eqb_spec y x) as [-> | Hne].
- split; [discriminate | tauto].
- destruct (PyList.index x l) as [k|]; cbn.
  + split; [discriminate|]. intros H. exfalso.
    assert (Hn : ~ In x l) by tauto. apply IH in Hn. discriminate.
  + split; [|reflexivity]. intros _ [H | H]; [congruence|].
    now apply (proj1 IH).
Qed.

End ByName.

(** X4.  [get_dimension_conflict] never changes the builder.  At any
    point of a session over well-formed spaces it returns a conflict
    exactly when that conflict carries the prefixed name, and it raises
    [ValueError] exactly when no conflict carries it. *)
Theorem get_dimension_conflict_finds (parent child : Space) (calls : list Call)
  (name_ : string) :
  SpaceOps.well_formed parent -> SpaceOps.well_formed child ->
  let b := run_calls calls (detected parent child) in
  exec (get_dimension_conflict name_) b = b
  /\ (forall r, outcome (get_dimension_conflict name_) b = Return r
                <-> exists c, conflicts b !! r = Some c
                              /\ name (dimension c) = ("/" ++ name_)%string)
  /\ (outcome (get_dimension_conflict name_) b = Raise ValueError
      <-> forall c, In c (conflicts b)
                    -> name (dimension c) <> ("/" ++ name_)%string)
  /\ (forall e, outcome (get_dimension_conflict name_) b = Raise e
                -> e = ValueError).
Proof.
  intros Hp Hc b.
  assert (Hnd : List.NoDup (conflict_names b)) by now apply session_names_NoDup.
  unfold get_dimension_conflict, exec, outcome, bind, get_self.
  fold (conflict_names b).
  destruct (PyList.index ("/" ++ name_) (conflict_names b)) as [i|] eqn:E;
    cbn [fst snd ret raise].
  - split; [reflexivity|]. apply index_Some in E.
    unfold conflict_names in E. change map with (@fmap list _) in E.
    rewrite list_lookup_fmap in E.
    destruct (conflicts b !! i) as [ci|] eqn:Ei; cbn in E; [|discriminate].
    injection E as Hn. split; [|split].
    + intros r. split.
      * intros [= <-]. eauto.
      * intros (c & Hr & Hname). f_equal. symmetry.
        apply (names_settle_ref b r i c ci Hnd Hr Ei).
        etransitivity; [exact Hname | symmetry; exact Hn].
    + split; [discriminate|]. intros H. exfalso. apply (H ci); [|exact Hn].
      apply list_elem_of_In. eapply list_elem_of_lookup_2, Ei.
    + discriminate.
  - split; [reflexivity|]. apply index_None in E. split; [|split].
    + intros r. split; [discriminate|]. intros (c & Hr & Hname). exfalso.
      apply E. unfold conflict_names. apply in_map_iff. exists c.
      split; [exact Hname|]. apply list_elem_of_In.
      eapply list_elem_of_lookup_2, Hr.
    + split; [|reflexivity]. intros _ c Hin Hname. apply E.
      unfold conflict_names. apply in_map_iff. eauto.
    + intros e [= <-]. reflexivity.
Qed.

Lemma get_dimension_conflict_finds_witness :
  let b := run_calls [call_add_dimension "new"]
                     (detected Scenario.parent Scenario.child) in
  outcome (get_dimension_conflict "missing") b = Return 2.
Proof.
  apply (proj1 (proj2 (get_dimension_conflict_finds
                         Scenario.parent Scenario.child
                         [call_add_dimension "new"] "missing"
                         scenario_parent_well_formed
                         scenario_child_well_formed))).
  eexists. split; reflexivity.
Defined.

(** ** Adding and removing one dimension *)

Section OneDimension.

Implicit Types (b : Builder) (r : Ref) (c : Conflict) (sts : StatusArg)
(x : string).

(** With pairwise distinct names, the conflict of a name is what a lookup
  settles on when its status is allowed, and the lookup fails when it
  is not. *)
Lemma first_match_settles x sts b r c :
List.NoDup (conflict_names b) ->
conflicts b !! r = Some c ->
name (dimension c) = ("/" ++ x)%string ->
first_match x sts b
= if status_in (status c) sts then Some (r, c) else None.
Proof.
intros Hnd Hr Hn.
destruct (first_match x sts b) as [[r' c']|] eqn:E.
- destruct (first_match_Some _ _ _ _ _ E) as (Hr' & Hst & Hn').
  assert (r' = r) as ->
    by (apply (names_settle_ref b r' r c' c Hnd Hr' Hr); congruence).
  assert (c' = c) as -> by congruence. now rewrite Hst.
- pose proof (proj1 (first_match_None x sts b) E c) as Hf.
  unfold lookup_test in Hf. rewrite Hn, String.eqb_refl, andb_true_r in Hf.
  rewrite Hf; [reflexivity|].
  apply list_elem_of_In. eapply list_elem_of_lookup_2, Hr.
Qed.

(** A lookup under a list of statuses succeeds exactly when some conflict
  has the name and one of the statuses. *)
Lemma first_match_list_has x (l : list Status) b :
match first_match x (StatusList l) b with
| Some _ => true
| None => false
end = existsb (fun s => has_conflict x s false b) l.
Proof.
destruct (first_match x (StatusList l) b) as [[r c]|] eqn:E.
- apply first_match_Some in E as (Hl & Hst & Hn). symmetry.
  apply existsb_exists. exists (status c). split.
  + now apply status_in_list.
  + unfold has_conflict. apply existsb_exists. exists c. split.
    * apply list_elem_of_In. eapply list_elem_of_lookup_2, Hl.
    * rewrite Hn, String.eqb_refl.
      assert (Status_eqb (status c) (status c) = true) as ->
        by now apply Status_eqb_eq.
      reflexivity.
- destruct (existsb (fun s => has_conflict x s false b) l) eqn:Eh;
    [|reflexivity].
  apply existsb_exists in Eh as (s & Hs & Hh).
  destruct (has_conflict_first_match x s (StatusList l) b) as (r & c & H);
    [now apply status_in_list | exact Hh | congruence].
Qed.

(** [_do_basic] on a plain name whose lookup succeeds. *)
Lemma do_basic_found x sts k b r c :
is_plain_name x = true ->
first_match x sts b = Some (r, c) ->
exists ops',
  _do_basic x sts k b
  = (Return tt, {| conflicts := conflicts (with_solved r true b);
                   operations := ops' |})
  /\ PyDict.get k ops'
     = (if PyList.mem (PConflict r) (PyDict.get k (operations b))
        then PyDict.get k (operations b)
        else PyDict.get k (operations b) ++ [PConflict r])
  /\ (forall k', k' <> k -> PyDict.get k' ops' = PyDict.get k' (operations b))
  /\ PyDict.has k ops' = true.
Proof.
intros Hplain Hfm. rewrite do_basic_plain by assumption. rewrite Hfm.
destruct (put_operation_run k (PConflict r) (with_solved r true b))
  as (ops' & Hrun & H1 & H2 & H3).
exists ops'. rewrite Hrun. auto.
Qed.

End OneDimension.

(** X5.  On a plain name, [add_dimension] succeeds exactly when a [new]
    or [changed] conflict has the name, and [remove_dimension] exactly
    when a [missing] conflict has it; a call that fails raises
    [ValueError] and leaves the builder as it was. *)
Theorem basic_operations_guard (b : Builder) (x : string) :
  is_plain_name x = true ->
  succeeds (add_dimension x) b
  = has_conflict x new false b || has_conflict x changed false b
  /\ succeeds (remove_dimension x) b = has_conflict x missing false b
  /\ (succeeds (add_dimension x) b = false ->
      add_dimension x b = (Raise ValueError, b))
  /\ (succeeds (remove_dimension x) b = false ->
      remove_dimension x b = (Raise ValueError, b)).
Proof.
  intros Hplain.
  pose proof (first_match_list_has x [new; changed] b) as Ha.
  pose proof (first_match_list_has x [missing] b) as Hr.
  cbn [existsb] in Ha, Hr. rewrite orb_false_r in Ha, Hr.
  unfold succeeds, outcome, add_dimension, remove_dimension.
  rewrite !do_basic_plain by assumption. rewrite <- Ha, <- Hr.
  destruct (first_match x (StatusList [new; changed]) b) as [[r1 c1]|];
    destruct (first_match x (StatusList [missing]) b) as [[r2 c2]|];
    repeat match goal with
      | |- context [_put_operation ?k ?p ?s] =>
          let H := fresh in
          destruct (put_operation_run k p s) as (? & H & _); rewrite H
      end;
    cbn [fst]; repeat split; try reflexivity; discriminate.
Qed.

Lemma basic_operations_guard_witness :
  succeeds (add_dimension "missing") Scenario.builder = false
  /\ add_dimension "missing" Scenario.builder
     = (Raise ValueError, Scenario.builder).
Proof.
  destruct (basic_operations_guard Scenario.builder "missing" eq_refl)
    as (H1 & _ & H3 & _).
  split; [rewrite H1; reflexivity | apply H3; rewrite H1; reflexivity].
Defined.

(** X6.  At any point of a session over well-formed spaces,
    [remove_dimension] on the plain name of a [missing] conflict returns,
    solves that conflict and no other, keeps the members of the conflict
    set, leaves the [remove] list with the conflict in it (appended when
    it was not there) and leaves the other lists as they were; so does
    [add_dimension] with the [add] list on the plain name of a [new] or
    [changed] conflict. *)
Theorem basic_operations_effect (parent child : Space) (calls : list Call)
  (x : string) (r : Ref) (s : Status) :
  SpaceOps.well_formed parent -> SpaceOps.well_formed child ->
  let b := run_calls calls (detected parent child) in
  is_plain_name x = true ->
  refers_to r x s b ->
  let call := match s with missing => remove_dimension x | _ => add_dimension x end in
  let k := match s with missing => op_remove | _ => op_add end in
  let b' := exec call b in
  succeeds call b = true
  /\ conflicts b' = conflicts (with_solved r true b)
  /\ solved r b' = Some true
  /\ (forall r', r' <> r -> conflicts b' !! r' = conflicts b !! r')
  /\ PyDict.get k (operations b')
     = (if PyList.mem (PConflict r) (PyDict.get k (operations b))
        then PyDict.get k (operations b)
        else PyDict.get k (operations b) ++ [PConflict r])
  /\ (forall k', k' <> k ->
                 PyDict.get k' (operations b') = PyDict.get k' (operations b)).
Proof.
  intros Hp Hc b Hplain (c & Hr & Hn & Hs) call k b'.
  assert (Hnd : List.NoDup (conflict_names b)) by now apply session_names_NoDup.
  set (sts := match s with
              | missing => StatusList [missing]
              | _ => StatusList [new; changed]
              end).
  assert (Hcall : call = _do_basic x sts k) by (subst call sts k; now destruct s).
  assert (Hfm : first_match x sts b = Some (r, c)).
  { rewrite (first_match_settles x sts b r c Hnd Hr Hn).
    subst sts. rewrite Hs. now destruct s. }
  destruct (do_basic_found x sts k b r c Hplain Hfm)
    as (ops' & Hrun & Hget & Hother & _).
  unfold b', succeeds, outcome, exec. rewrite Hcall, Hrun.
  cbn [fst snd conflicts operations].
  split; [reflexivity|]. split; [reflexivity|]. split; [|split; [|split]].
  - change (solved r (with_solved r true b) = Some true).
    apply solved_with_solved_same. eapply lookup_lt_Some, Hr.
  - intros r' Hne. rewrite conflicts_with_solved.
    now apply list_lookup_alter_ne.
  - exact Hget.
  - exact Hother.
Qed.

Lemma basic_operations_effect_witness :
  let b := run_calls [] (detected Scenario.parent Scenario.child) in
  succeeds (remove_dimension "missing") b = true
  /\ solved 2 (exec (remove_dimension "missing") b) = Some true
  /\ PyDict.get op_remove (operations (exec (remove_dimension "missing") b))
     = [PConflict 2].
Proof.
  destruct (basic_operations_effect Scenario.parent Scenario.child []
              "missing" 2 missing
              scenario_parent_well_formed scenario_child_well_formed eq_refl)
    as (H1 & _ & H3 & _ & H5 & _).
  - eexists. repeat split; reflexivity.
  - repeat split; assumption.
Defined.

(** ** Resetting one dimension *)

Section ResetOne.

Implicit Types (b : Builder) (r : Ref) (p : Payload) (k : OpName).

Lemma remove_gone p (l : list Payload) :
List.NoDup l -> ~ In p (PyList.remove p l).
Proof.
induction 1 as [|y l Hy Hl IH]; cbn; [tauto|].
destruct (Payload_eqb y p) eqn:E.
- apply Payload_eqb_eq in E. now subst.
- intros [-> | Hin]; [|contradiction].
assert (Payload_eqb p p = true) by now apply Payload_eqb_eq. congruence.
Qed.

(** [_remove_from_operations] on a conflict that no recorded rename
mentions: it returns, each list other than [rename] loses the
conflict, the [rename] list stays, and no conflict changes but,
possibly, the one removed, which is then unsolved. *)
Lemma remove_from_operations_lists r b :
log_ok (operations b) ->
(forall p, In p (PyDict.get op_rename (operations b)) -> mentions r p = false) ->
exists b',
_remove_from_operations r b = (Return tt, b')
/\ (forall k, k <> op_rename ->
              PyDict.get k (operations b')
              = PyList.remove (PConflict r) (PyDict.get k (operations b)))
/\ PyDict.get op_rename (operations b') = PyDict.get op_rename (operations b)
/\ (conflicts b' = conflicts b
    \/ conflicts b' = conflicts (with_solved r false b)).
Proof.
intros [Hnd Hty] Hno.
set (p := PConflict r).
set (body := fun operation : OpName =>
if OpName_eqb operation op_rename
then b1 <- get_self ;;
     rename_loop (length (PyDict.get op_rename (operations b1))) 0 r
else b1 <- get_self ;;
     if PyList.mem (PConflict r) (PyDict.get operation (operations b1))
     then set_is_solved r false ;;;
          update_operation operation (PyList.remove (PConflict r))
     else ret tt).
set (seen := fun (k : OpName) (done : list OpName) =>
existsb (fun k0 => OpName_eqb k0 k) done).
set (St := fun (done : list OpName) (b1 : Builder) =>
(forall k, k <> op_rename ->
   PyDict.get k (operations b1)
   = if seen k done
     then PyList.remove p (PyDict.get k (operations b))
     else PyDict.get k (operations b))
/\ PyDict.get op_rename (operations b1) = PyDict.get op_rename (operations b)
/\ (conflicts b1 = conflicts b
    \/ conflicts b1 = conflicts (with_solved r false b))).
assert (Hskip : Forall (fun q => is_tuple q = true /\ mentions r q = false)
                     (PyDict.get op_rename (operations b))).
{ apply Forall_forall. intros q Hq. split.
- rewrite Forall_forall in Hty. now apply Hty.
- apply Hno. now apply list_elem_of_In. }
assert (Hstep : forall k done b1, St done b1 ->
        exists b2, body k b1 = (Return tt, b2) /\ St (k :: done) b2).
{ intros k done b1 (Hlists & Hren & Hcs). unfold body.
destruct (OpName_eqb k op_rename) eqn:Ek; unfold bind at 1, get_self.
- apply OpName_eqb_eq in Ek. subst k. exists b1. split.
  + apply rename_loop_skip. now rewrite Hren.
  + split; [|split; assumption]. intros k Hk. rewrite (Hlists k Hk).
    unfold seen. cbn [existsb].
    destruct (OpName_eqb op_rename k) eqn:E; [|reflexivity].
    apply OpName_eqb_eq in E. congruence.
- assert (Hk : k <> op_rename) by (intros ->; discriminate Ek).
  pose proof (Hlists k Hk) as Hcur.
  destruct (PyList.mem (PConflict r) (PyDict.get k (operations b1))) eqn:Em.
  + eexists. split; [reflexivity|]. split; [|split].
    * intros k' Hk'. unfold seen. cbn [existsb].
      destruct (OpName_eqb k k') eqn:Ekk.
      -- apply OpName_eqb_eq in Ekk. subst k'. cbn. rewrite get_set_same.
         fold (seen k done) in *. destruct (seen k done).
         ++ exfalso. rewrite Hcur in Em. apply mem_In in Em.
            eapply remove_gone; [apply Hnd | exact Em].
         ++ now rewrite Hcur.
      -- assert (Hne : k' <> k)
           by (intros ->; now rewrite OpName_eqb_refl in Ekk).
         cbn. rewrite get_set_other by assumption. apply (Hlists k' Hk').
    * cbn. rewrite get_set_other by congruence. exact Hren.
    * right. cbn. destruct Hcs as [-> | ->]; [reflexivity|].
      cbn. rewrite list_alter_alter_eq. now apply list_alter_ext.
  + exists b1. split; [reflexivity|]. split; [|split; assumption].
    intros k' Hk'. rewrite (Hlists k' Hk'). unfold seen. cbn [existsb].
    destruct (OpName_eqb k k') eqn:Ekk; [|reflexivity].
    apply OpName_eqb_eq in Ekk. subst k'. cbn [orb].
    fold (seen k done) in *. destruct (seen k done); [reflexivity|].
    symmetry. apply remove_absent. intros Hin.
    apply mem_In in Hin. unfold p in Hin. rewrite Hcur in Em. congruence. }
assert (Hloop : forall ks done b1, St done b1 ->
        exists b2, for_each ks body b1 = (Return tt, b2)
                   /\ St (rev ks ++ done) b2).
{ induction ks as [|k ks IH]; intros done b1 HSt.
- exists b1. split; [reflexivity | exact HSt].
- destruct (Hstep k done b1 HSt) as (b2 & Hrun1 & HSt2).
  destruct (IH _ b2 HSt2) as (b3 & Hrun2 & HSt3).
  exists b3. cbn [for_each rev]. unfold bind. rewrite Hrun1, Hrun2.
  split; [reflexivity|]. now rewrite <- app_assoc. }
destruct (Hloop (PyDict.keys (operations b)) [] b) as (b' & Hrun & HSt').
{ split; [|split; auto]. intros k _. reflexivity. }
destruct HSt' as (Hlists & Hren & Hcs).
exists b'.
change (_remove_from_operations r b)
with (for_each (PyDict.keys (operations b)) body b).
rewrite Hrun. split; [reflexivity|]. split; [|split; assumption].
intros k Hk. rewrite (Hlists k Hk). rewrite app_nil_r. unfold seen.
destruct (existsb (fun k0 => OpName_eqb k0 k) (rev (PyDict.keys (operations b))))
eqn:E; [reflexivity|].
assert (Hhas : PyDict.has k (operations b) = false).
{ rewrite has_keys. destruct (existsb _ (PyDict.keys _)) eqn:E'; [|reflexivity].
apply existsb_exists in E' as (k0 & Hin0 & Heq).
assert (existsb (fun k0 => OpName_eqb k0 k) (rev (PyDict.keys (operations b)))
        = true).
{ apply existsb_exists. exists k0. split; [|exact Heq]. now apply in_rev in Hin0. }
congruence. }
rewrite (get_absent _ _ Hhas). reflexivity.
Qed.

End ResetOne.

(** [reset_dimension] on the plain name of a conflict that no recorded
    rename mentions. *)
Lemma reset_plain_effect (b : Builder) (x : string) (r : Ref) (c : Conflict) :
  List.NoDup (conflict_names b) ->
  log_ok (operations b) ->
  is_plain_name x = true ->
  conflicts b !! r = Some c ->
  name (dimension c) = ("/" ++ x)%string ->
  (forall p, In p (PyDict.get op_rename (operations b)) -> mentions r p = false) ->
  exists b',
    reset_dimension x b = (Return tt, b')
    /\ conflicts b' = conflicts (with_solved r false b)
    /\ (forall k, k <> op_rename ->
                  PyDict.get k (operations b')
                  = PyList.remove (PConflict r) (PyDict.get k (operations b)))
    /\ PyDict.get op_rename (operations b') = PyDict.get op_rename (operations b).
Proof.
  intros Hnd Hlog Hplain Hr Hn Hno.
  rewrite (reset_dimension_plain x b Hplain).
  rewrite (first_match_settles x _ b r c Hnd Hr Hn).
  assert (status_in (status c) (StatusList [missing; new; changed]) = true) as ->
    by (now destruct (status c)).
  destruct (remove_from_operations_lists r (with_solved r false b) Hlog Hno)
    as (b' & Hrun & Hlists & Hren & Hcs).
  exists b'. rewrite Hrun. split; [reflexivity|]. split; [|split; assumption].
  destruct Hcs as [-> | ->]; [reflexivity|]. now rewrite with_solved_twice.
Qed.

(** X7.  When no conflict carries the prefixed argument as its name,
    [reset_dimension] changes nothing: it returns when the argument
    expands to no name at all and raises [ValueError] otherwise.  A
    keyword or a wildcard is such an argument. *)
Theorem reset_dimension_unknown_name (b : Builder) (arg : string) :
  (forall c, In c (conflicts b) -> name (dimension c) <> ("/" ++ arg)%string) ->
  exec (reset_dimension arg) b = b
  /\ outcome (reset_dimension arg) b
     = match _get_names arg (StatusList [missing; new; changed]) b with
       | [] => Return tt
       | _ :: _ => Raise ValueError
       end.
Proof.
  intros Hno.
  assert (Hfm : first_match arg (StatusList [missing; new; changed]) b = None).
  { apply first_match_None. intros c Hin. unfold lookup_test.
    destruct (String.eqb_spec (name (dimension c)) ("/" ++ arg)) as [E | _];
      [now apply Hno in E | apply andb_false_r]. }
  unfold exec, outcome, reset_dimension, bind at 1 3, get_self.
  destruct (_get_names arg _ b) as [|n rest]; [split; reflexivity|].
  cbn [for_each]. unfold bind at 1 2 4 5. rewrite mark_as_run, Hfm.
  split; reflexivity.
Qed.

Lemma reset_dimension_unknown_name_witness :
  exec (reset_dimension "~new") Scenario.builder = Scenario.builder
  /\ outcome (reset_dimension "~new") Scenario.builder
     = match _get_names "~new" (StatusList [missing; new; changed])
               Scenario.builder with
       | [] => Return tt
       | _ :: _ => Raise ValueError
       end.
Proof.
  apply (reset_dimension_unknown_name Scenario.builder "~new").
  intros c [<- | [<- | [<- | []]]]; discriminate.
Defined.

(** X8.  At any point of a session over well-formed spaces,
    [reset_dimension] on the plain name of a conflict that no recorded
    rename mentions returns, unsolves that conflict and changes no other,
    removes the conflict from the [add] and [remove] lists and leaves the
    [rename] list as it was; when the conflict is in no list, no list
    changes. *)
Theorem reset_dimension_effect (parent child : Space) (calls : list Call)
  (x : string) (r : Ref) (s : Status) :
  SpaceOps.well_formed parent -> SpaceOps.well_formed child ->
  let b := run_calls calls (detected parent child) in
  is_plain_name x = true ->
  refers_to r x s b ->
  (forall p, In p (PyDict.get op_rename (operations b)) -> mentions r p = false) ->
  let b' := exec (reset_dimension x) b in
  succeeds (reset_dimension x) b = true
  /\ conflicts b' = conflicts (with_solved r false b)
  /\ (forall k, k <> op_rename ->
                PyDict.get k (operations b')
                = PyList.remove (PConflict r) (PyDict.get k (operations b)))
  /\ PyDict.get op_rename (operations b') = PyDict.get op_rename (operations b)
  /\ ((forall k, ~ In (PConflict r) (PyDict.get k (operations b))) ->
      forall k, PyDict.get k (operations b') = PyDict.get k (operations b)).
Proof.
  intros Hp Hc b Hplain (c & Hr & Hn & _) Hno b'.
  destruct (reset_plain_effect b x r c
              (session_names_NoDup parent child calls Hp Hc)
              (session_log_ok parent child calls) Hplain Hr Hn Hno)
    as (b1 & Hrun & Hcs & Hlists & Hren).
  unfold b', succeeds, outcome, exec. rewrite Hrun. cbn [fst snd].
  repeat split; auto.
  intros Hout k. destruct (OpName_eqb k op_rename) eqn:E.
  - apply OpName_eqb_eq in E. now subst k.
  - rewrite Hlists by (intros ->; discriminate E). now apply remove_absent.
Qed.

Lemma reset_dimension_effect_witness :
  let b := run_calls [call_add_dimension "new"]
                     (detected Scenario.parent Scenario.child) in
  succeeds (reset_dimension "new") b = true
  /\ conflicts (exec (reset_dimension "new") b)
     = conflicts (with_solved 0 false b).
Proof.
  destruct (reset_dimension_effect Scenario.parent Scenario.child
              [call_add_dimension "new"] "new" 0 new
              scenario_parent_well_formed scenario_child_well_formed eq_refl)
    as (H1 & H2 & _).
  - eexists. repeat split; reflexivity.
  - intros p [].
  - split; assumption.
Defined.

(** X9.  At any point of a session over well-formed spaces, for the plain
    name of an unsolved conflict that no list of the log mentions,
    [add_dimension] (for a [new] or [changed] conflict) or
    [remove_dimension] (for a [missing] one) followed by
    [reset_dimension] both return and restore every conflict and every
    operation list. *)
Theorem reset_undoes_basic_operation (parent child : Space) (calls : list Call)
  (x : string) (r : Ref) (s : Status) :
  SpaceOps.well_formed parent -> SpaceOps.well_formed child ->
  let b := run_calls calls (detected parent child) in
  is_plain_name x = true ->
  refers_to r x s b ->
  solved r b = Some false ->
  (forall k p, In p (PyDict.get k (operations b)) -> mentions r p = false) ->
  let call := match s with missing => remove_dimension x | _ => add_dimension x end in
  let b' := exec (reset_dimension x) (exec call b) in
  succeeds call b = true
  /\ succeeds (reset_dimension x) (exec call b) = true
  /\ conflicts b' = conflicts b
  /\ (forall k, PyDict.get k (operations b') = PyDict.get k (operations b)).
Proof.
  intros Hp Hc b Hplain (c & Hr & Hn & Hs) Hunsolved Hno call b'.
  assert (Hnd : List.NoDup (conflict_names b)) by now apply session_names_NoDup.
  set (sts := match s with
              | missing => StatusList [missing]
              | _ => StatusList [new; changed]
              end).
  set (k := match s with missing => op_remove | _ => op_add end).
  assert (Hcall : call = _do_basic x sts k) by (subst call sts k; now destruct s).
  assert (Hk : k <> op_rename) by (subst k; destruct s; discriminate).
  assert (Hfm : first_match x sts b = Some (r, c)).
  { rewrite (first_match_settles x sts b r c Hnd Hr Hn).
    subst sts. rewrite Hs. now destruct s. }
  destruct (do_basic_found x sts k b r c Hplain Hfm)
    as (ops1 & Hrun1 & Hget1 & Hother1 & _).
  assert (Hmem : PyList.mem (PConflict r) (PyDict.get k (operations b)) = false).
  { destruct (PyList.mem _ _) eqn:E; [|reflexivity]. apply mem_In in E.
    apply Hno in E. cbn in E. now rewrite Nat.eqb_refl in E. }
  rewrite Hmem in Hget1.
  set (b1 := {| conflicts := conflicts (with_solved r true b);
                operations := ops1 |}) in *.
  assert (Hb1 : exec call b = b1) by (unfold exec; now rewrite Hcall, Hrun1).
  assert (Hsession : b1 = run_calls (calls ++ [match s with
                                                | missing => call_remove_dimension x
                                                | _ => call_add_dimension x
                                                end]) (detected parent child)).
  { rewrite <- Hb1, run_calls_snoc. fold b. subst call. now destruct s. }
  assert (Hr1 : conflicts b1 !! r
                = Some {| is_solved := true; dimension := dimension c;
                          status := status c |}).
  { unfold b1. cbn [conflicts]. rewrite conflicts_with_solved.
    rewrite list_lookup_alter_eq, Hr. reflexivity. }
  assert (Hnd1 : List.NoDup (conflict_names b1))
    by (rewrite Hsession; now apply session_names_NoDup).
  assert (Hlog1 : log_ok (operations b1))
    by (rewrite Hsession; apply session_log_ok).
  assert (Hno1 : forall p, In p (PyDict.get op_rename (operations b1)) ->
                           mentions r p = false).
  { intros p Hin. unfold b1 in Hin. cbn [operations] in Hin.
    rewrite Hother1 in Hin by congruence. eapply Hno, Hin. }
  destruct (reset_plain_effect b1 x r _ Hnd1 Hlog1 Hplain Hr1 Hn Hno1)
    as (b2 & Hrun2 & Hcs & Hlists & Hren).
  - unfold b'. rewrite Hb1. unfold succeeds, outcome, exec.
    rewrite Hrun2, Hcall, Hrun1.
    cbn [fst snd]. split; [reflexivity|]. split; [reflexivity|]. split.
    + rewrite Hcs. unfold b1, with_solved, exec. cbn.
      rewrite list_alter_alter_eq. apply list_eq. intros i.
      destruct (decide (r = i)) as [<- | Hne];
        [|now rewrite list_lookup_alter_ne].
      rewrite list_lookup_alter_eq, Hr. unfold solved in Hunsolved.
      rewrite Hr in Hunsolved. cbn in Hunsolved.
      destruct c as [sv dm st]; cbn in *. congruence.
    + intros k'. destruct (OpName_eqb k' op_rename) eqn:E.
      * apply OpName_eqb_eq in E. subst k'. rewrite Hren. unfold b1.
        cbn [operations]. apply Hother1. congruence.
      * rewrite Hlists by (intros ->; discriminate E). unfold b1.
        cbn [operations]. destruct (OpName_eqb k' k) eqn:Ek.
        -- apply OpName_eqb_eq in Ek. subst k'. rewrite Hget1.
           apply remove_last. intros Hin. apply Hno in Hin. cbn in Hin.
           now rewrite Nat.eqb_refl in Hin.
        -- rewrite Hother1 by (intros ->; now rewrite OpName_eqb_refl in Ek).
           apply remove_absent. intros Hin. apply Hno in Hin. cbn in Hin.
           now rewrite Nat.eqb_refl in Hin.
Qed.

Lemma reset_undoes_basic_operation_witness :
  let b := run_calls [] (detected Scenario.parent Scenario.child) in
  conflicts (exec (reset_dimension "missing") (exec (remove_dimension "missing") b))
  = conflicts b.
Proof.
  destruct (reset_undoes_basic_operation Scenario.parent Scenario.child []
              "missing" 2 missing
              scenario_parent_well_formed scenario_child_well_formed eq_refl)
    as (_ & _ & H & _).
  - eexists. repeat split; reflexivity.
  - reflexivity.
  - intros k p Hin. destruct k; destruct Hin.
  - exact H.
Defined.

(** ** What the log holds *)

Section TypedLog.

Implicit Types (b : Builder) (M : list (Dimension * Status)) (k : OpName)
(p : Payload) (ops : Operations).

Lemma typed_get M ops k :
typed M ops -> Forall (payload_ok M k) (PyDict.get k ops).
Proof.
unfold typed. induction 1 as [|[k0 v0] ops H _ IH]; cbn; [constructor|].
destruct (OpName_eqb k0 k) eqn:E; [|exact IH].
apply OpName_eqb_eq in E. now subst.
Qed.

Lemma typed_set M ops k (v : list Payload) :
typed M ops -> Forall (payload_ok M k) v -> typed M (PyDict.set k v ops).
Proof.
unfold typed. intros Hops Hv.
induction Hops as [|[k0 v0] ops H Hrest IH]; cbn.
- repeat constructor. exact Hv.
- destruct (OpName_eqb k0 k) eqn:E.
  + apply OpName_eqb_eq in E. subst k0. constructor; [exact Hv | exact Hrest].
  + constructor; [exact H | exact IH].
Qed.

Lemma Forall_PyList_remove (P : Payload -> Prop) p (l : list Payload) :
Forall P l -> Forall P (PyList.remove p l).
Proof.
rewrite !Forall_forall. intros H x Hx. apply H.
apply list_elem_of_In. apply list_elem_of_In in Hx.
eapply In_PyList_remove, Hx.
Qed.

Lemma stays_typed_refl b : stays_typed b b.
Proof. split; [reflexivity | auto]. Qed.

Lemma stays_typed_trans b1 b2 b3 :
stays_typed b1 b2 -> stays_typed b2 b3 -> stays_typed b1 b3.
Proof. intros [H1 H2] [H3 H4]. split; [congruence | auto]. Qed.

Lemma keeps_typed_set_is_solved r v : keeps stays_typed (set_is_solved r v).
Proof.
intros b. split; [apply membership_with_solved|].
unfold log_typed. change (exec (set_is_solved r v) b) with (with_solved r v b).
now rewrite membership_with_solved, operations_with_solved.
Qed.

Lemma keeps_typed_update_remove k p :
keeps stays_typed (update_operation k (PyList.remove p)).
Proof.
intros b. split; [reflexivity|]. unfold log_typed. cbn. intros H.
apply typed_set; [exact H|]. apply Forall_PyList_remove. now apply typed_get.
Qed.

Lemma keeps_typed_mark_as x sts v : keeps stays_typed (_mark_as x sts v).
Proof.
intros b. unfold exec. rewrite mark_as_run.
destruct (first_match x sts b) as [[r c]|]; cbn [snd].
- apply (keeps_typed_set_is_solved r v b).
- apply stays_typed_refl.
Qed.

(** Recording a payload of the right kind keeps the log well typed. *)
Lemma put_operation_typed k p b :
payload_ok (membership b) k p ->
stays_typed b (exec (_put_operation k p) b).
Proof.
intros Hp. split.
- apply keeps_membership_put.
- unfold log_typed.
  assert (Hm : membership (exec (_put_operation k p) b) = membership b)
    by apply keeps_membership_put.
  rewrite Hm. generalize (membership b) as M, Hp. clear Hm Hp. intros M Hp H.
  unfold exec, _put_operation, update_operation, bind, get_self,
    set_operations, ret.
  destruct (PyDict.has k (operations b)); cbn [negb snd operations].
  + destruct (PyList.mem p (PyDict.get k (operations b))); cbn; [exact H|].
    apply typed_set; [exact H|]. apply Forall_app. split.
    * now apply typed_get.
    * repeat constructor. exact Hp.
  + assert (H1 : typed M (PyDict.set k [] (operations b)))
      by (apply typed_set; [exact H | constructor]).
    destruct (PyList.mem p _); cbn; [exact H1|].
    apply typed_set; [exact H1|]. apply Forall_app. split.
    * now apply typed_get.
    * repeat constructor. exact Hp.
Qed.

Lemma membership_lookup b r c :
conflicts b !! r = Some c -> membership b !! r = Some (dimension c, status c).
Proof.
intros H. unfold membership. change map with (@fmap list _).
now rewrite list_lookup_fmap, H.
Qed.

End TypedLog.

Ltac keeps_rel ::=
  first [ exact same_membership_refl | exact same_membership_trans
        | exact log_stays_ok_refl | exact log_stays_ok_trans
        | exact stays_typed_refl | exact stays_typed_trans ].

#[local] Hint Resolve
  stays_typed_refl stays_typed_trans keeps_typed_set_is_solved
  keeps_typed_update_remove keeps_typed_mark_as : keeps.

Section TypedCalls.

Lemma keeps_typed_rename_loop fuel i arg :
keeps stays_typed (rename_loop fuel i arg).
Proof.
revert i. induction fuel as [|fuel IH]; intros i; cbn [rename_loop];
  keeps_auto.
Qed.

Lemma keeps_typed_remove_from_operations arg :
keeps stays_typed (_remove_from_operations arg).
Proof.
pose proof keeps_typed_rename_loop.
unfold _remove_from_operations. keeps_auto.
Qed.

Lemma keeps_typed_do_basic_body (sts : StatusArg) (k : OpName) (n : string) :
(sts = StatusList [new; changed] /\ k = op_add
 \/ sts = StatusList [missing] /\ k = op_remove) ->
keeps stays_typed (conflict <- _mark_as_solved n sts ;;
                   _put_operation k (PConflict conflict)).
Proof.
intros Hk b. unfold exec, bind, _mark_as_solved. rewrite mark_as_run.
destruct (first_match n sts b) as [[r c]|] eqn:E; [|apply stays_typed_refl].
apply first_match_Some in E as (Hr & Hst & _).
eapply stays_typed_trans; [apply (keeps_typed_set_is_solved r true b)|].
apply put_operation_typed.
change (exec (set_is_solved r true) b) with (with_solved r true b).
rewrite membership_with_solved.
pose proof (membership_lookup b r c Hr) as Hm.
destruct Hk as [[-> ->] | [-> ->]]; cbn.
- exists (dimension c), (status c). split; [exact Hm|].
  apply status_in_list in Hst. cbn in Hst. intuition.
- exists (dimension c). apply status_in_list in Hst. cbn in Hst.
  destruct Hst as [E | []]. rewrite E. exact Hm.
Qed.

Lemma keeps_typed_rename_dimension (old_name new_name : string) :
keeps stays_typed (rename_dimension (old_name, new_name)).
Proof.
intros b. unfold exec. rewrite rename_dimension_run.
destruct (first_match old_name _ b) as [[i ci]|] eqn:Eo;
  [|apply stays_typed_refl].
destruct (first_match new_name _ b) as [[j cj]|] eqn:En;
  [|apply stays_typed_refl].
apply first_match_Some in Eo as (Hi & Hsi & _).
apply first_match_Some in En as (Hj & Hsj & _).
rewrite status_in_str in Hsi, Hsj.
apply Status_eqb_eq in Hsi. apply Status_eqb_eq in Hsj.
eapply stays_typed_trans; [apply (keeps_typed_set_is_solved i true b)|].
eapply stays_typed_trans;
  [apply (keeps_typed_set_is_solved j true (with_solved i true b))|].
apply put_operation_typed.
change (exec (set_is_solved j true) (with_solved i true b))
  with (with_solved j true (with_solved i true b)).
rewrite !membership_with_solved. cbn. split.
- exists (dimension ci). rewrite <- Hsi. now apply membership_lookup.
- exists (dimension cj). rewrite <- Hsj. now apply membership_lookup.
Qed.

Lemma keeps_typed_run_call c : keeps stays_typed (run_call c).
Proof.
pose proof keeps_typed_remove_from_operations.
destruct c; cbn [run_call].
- unfold add_dimension, _do_basic, _do_basic_loop.
  apply keeps_bind; [exact stays_typed_trans | apply keeps_get_self;
                     exact stays_typed_refl | intros b0].
  apply keeps_for_each;
    [exact stays_typed_refl | exact stays_typed_trans | intros n].
  apply keeps_typed_do_basic_body. auto.
- unfold remove_dimension, _do_basic, _do_basic_loop.
  apply keeps_bind; [exact stays_typed_trans | apply keeps_get_self;
                     exact stays_typed_refl | intros b0].
  apply keeps_for_each;
    [exact stays_typed_refl | exact stays_typed_trans | intros n].
  apply keeps_typed_do_basic_body. auto.
- apply keeps_typed_rename_dimension.
- unfold reset_dimension. keeps_auto.
Qed.

End TypedCalls.

(** X10.  At any point of a session, the [add] list holds only [new] and
    [changed] conflicts of the conflict set, the [remove] list only
    [missing] ones, and the [rename] list only pairs of a [missing] and a
    [new] conflict. *)
Theorem session_log_typed (parent child : Space) (calls : list Call) :
  let b := run_calls calls (detected parent child) in
  log_typed b
  /\ (forall k p, In p (PyDict.get k (operations b)) ->
                  payload_ok (membership b) k p).
Proof.
  intros b.
  assert (H : log_typed b).
  { apply (keeps_run_calls stays_typed stays_typed_refl stays_typed_trans
             calls (detected parent child) keeps_typed_run_call).
    unfold log_typed, typed. cbn. constructor. }
  split; [exact H|]. intros k p Hin.
  pose proof (typed_get _ _ k H) as Hall. rewrite Forall_forall in Hall.
  apply Hall. now apply list_elem_of_In.
Qed.

(** ** What the calls raise *)

Section Exceptions.

Implicit Types (b : Builder) (e : Exception).

Lemma only_ValueError_ret {A} (a : A) : raises_only_ValueError (ret a).
Proof. intros b e _ H. discriminate H. Qed.

Lemma only_ValueError_raise {A} : raises_only_ValueError (@raise A ValueError).
Proof. intros b e _ [= <-]. reflexivity. Qed.

Lemma only_ValueError_get_self : raises_only_ValueError get_self.
Proof. intros b e _ H. discriminate H. Qed.

Lemma only_ValueError_bind {A B} (m : Py A) (k : A -> Py B) :
raises_only_ValueError m -> keeps log_stays_ok m ->
(forall a, raises_only_ValueError (k a)) ->
raises_only_ValueError (bind m k).
Proof.
intros Hm Hkeep Hk b e Hlog. rewrite outcome_bind.
destruct (outcome m b) as [a|e'] eqn:E.
- apply (Hk a). now apply Hkeep.
- intros [= <-]. now apply (Hm b).
Qed.

Lemma only_ValueError_for_each {A} (xs : list A) (body : A -> Py unit) :
(forall x, raises_only_ValueError (body x)) ->
(forall x, keeps log_stays_ok (body x)) ->
raises_only_ValueError (for_each xs body).
Proof.
intros Hbody Hkeep. induction xs as [|x xs IH]; cbn [for_each].
- apply only_ValueError_ret.
- apply only_ValueError_bind; auto.
Qed.

Lemma only_ValueError_set_is_solved r v :
raises_only_ValueError (set_is_solved r v).
Proof. intros b e _ H. discriminate H. Qed.

Lemma only_ValueError_update k f :
raises_only_ValueError (update_operation k f).
Proof. intros b e _ H. discriminate H. Qed.

Lemma only_ValueError_put k p : raises_only_ValueError (_put_operation k p).
Proof.
intros b e _. unfold outcome.
destruct (put_operation_run k p b) as (ops' & -> & _). discriminate.
Qed.

Lemma only_ValueError_mark_as x sts v : raises_only_ValueError (_mark_as x sts v).
Proof.
intros b e _. unfold outcome. rewrite mark_as_run.
destruct (first_match x sts b) as [[r c]|]; cbn; [discriminate|].
intros [= <-]. reflexivity.
Qed.

(** The loop over the [rename] list never meets anything but a pair. *)
Lemma only_ValueError_rename_loop fuel i arg :
raises_only_ValueError (rename_loop fuel i arg).
Proof.
revert i. induction fuel as [|fuel IH]; intros i; cbn [rename_loop].
- apply only_ValueError_ret.
- intros b e Hlog. rewrite outcome_bind. cbn [outcome get_self fst exec snd].
destruct (PyDict.get op_rename (operations b) !! i) as [p|] eqn:El;
  [|discriminate].
destruct Hlog as [Hnd Hty]. pose proof Hty as Hty'.
rewrite Forall_forall in Hty'.
pose proof (Hty' p (list_elem_of_lookup_2 _ _ _ El)) as Hp.
destruct p as [c|old_c new_c]; [discriminate Hp|].
destruct (Nat.eqb arg old_c || Nat.eqb arg new_c).
+ apply (only_ValueError_bind (set_is_solved old_c false)); try (split; assumption).
  * apply only_ValueError_set_is_solved.
  * apply keeps_log_set_is_solved.
  * intros _. apply only_ValueError_bind.
    -- apply only_ValueError_set_is_solved.
    -- apply keeps_log_set_is_solved.
    -- intros _. apply only_ValueError_bind.
       ++ apply only_ValueError_update.
       ++ apply keeps_log_update_remove.
       ++ intros _. apply IH.
+ apply IH. split; assumption.
Qed.

Lemma only_ValueError_remove_from_operations arg :
raises_only_ValueError (_remove_from_operations arg).
Proof.
unfold _remove_from_operations.
apply only_ValueError_bind;
[apply only_ValueError_get_self
| apply keeps_get_self; exact log_stays_ok_refl
| intros b0].
apply only_ValueError_for_each; intros k.
- destruct (OpName_eqb k op_rename).
+ apply only_ValueError_bind;
    [apply only_ValueError_get_self
    | apply keeps_get_self; exact log_stays_ok_refl
    | intros b1; apply only_ValueError_rename_loop].
+ apply only_ValueError_bind;
    [apply only_ValueError_get_self
    | apply keeps_get_self; exact log_stays_ok_refl
    | intros b1].
  destruct (PyList.mem _ _); [|apply only_ValueError_ret].
  apply only_ValueError_bind;
    [apply only_ValueError_set_is_solved
    | apply keeps_log_set_is_solved
    | intros _; apply only_ValueError_update].
- pose proof keeps_log_rename_loop.
keeps_auto; apply keeps_log_update_remove.
Qed.

Lemma only_ValueError_run_call (c : Call) : raises_only_ValueError (run_call c).
Proof.
assert (Hbasic : forall a sts k, k <> op_rename ->
                               raises_only_ValueError (_do_basic a sts k)).
{ intros a sts k Hk. unfold _do_basic, _do_basic_loop.
apply only_ValueError_bind;
  [apply only_ValueError_get_self
  | apply keeps_get_self; exact log_stays_ok_refl
  | intros b0].
apply only_ValueError_for_each; intros n.
- apply only_ValueError_bind;
    [apply only_ValueError_mark_as
    | apply keeps_log_mark_as
    | intros r; apply only_ValueError_put].
- apply keeps_bind;
    [exact log_stays_ok_trans | apply keeps_log_mark_as | intros r].
  apply keeps_log_put. intros E. destruct (Hk E). }
destruct c; cbn [run_call].
- apply Hbasic. discriminate.
- apply Hbasic. discriminate.
- intros b e _. unfold outcome. rewrite rename_dimension_run.
destruct (first_match old_name _ b) as [[i ci]|];
  [|intros [= <-]; reflexivity].
destruct (first_match new_name _ b) as [[j cj]|];
  [|intros [= <-]; reflexivity].
destruct (put_operation_run op_rename (PTuple i j)
            (with_solved j true (with_solved i true b)))
  as (ops' & -> & _). discriminate.
- unfold reset_dimension.
apply only_ValueError_bind;
  [apply only_ValueError_get_self
  | apply keeps_get_self; exact log_stays_ok_refl
  | intros b0].
apply only_ValueError_for_each; intros n.
+ apply only_ValueError_bind;
    [apply only_ValueError_mark_as
    | apply keeps_log_mark_as
    | intros r; apply only_ValueError_remove_from_operations].
+ apply keeps_bind;
    [exact log_stays_ok_trans | apply keeps_log_mark_as
    | intros r; apply keeps_log_remove_from_operations].
Qed.

End Exceptions.

(** X11.  At any point of a session, a call of the API that raises
    raises [ValueError], the error of a failed lookup: the [rename] list
    never holds anything but pairs, and a found conflict is always in
    range. *)
Theorem session_raises_only_ValueError (parent child : Space)
  (calls : list Call) (c : Call) (e : Exception) :
  outcome (run_call c) (run_calls calls (detected parent child)) = Raise e ->
  e = ValueError.
Proof.
  apply only_ValueError_run_call. apply session_log_ok.
Qed.

Lemma session_raises_only_ValueError_witness :
  outcome (run_call (call_reset_dimension "~new"))
    (run_calls [call_add_dimension "new"]
       (detected Scenario.parent Scenario.child)) = Raise ValueError
  /\ ValueError = ValueError.
Proof.
  split; [reflexivity|].
  apply (session_raises_only_ValueError Scenario.parent Scenario.child
           [call_add_dimension "new"] (call_reset_dimension "~new") ValueError).
  reflexivity.
Defined.

(** ** Adaptors of a session *)

Section AdaptorsOfSession.

Implicit Types (b : Builder) (ops : Operations) (p : Payload) (k : OpName).

Lemma membership_lookup_inv b r x :
membership b !! r = Some x -> exists c, conflicts b !! r = Some c.
Proof.
unfold membership. change map with (@fmap list _).
rewrite list_lookup_fmap.
destruct (conflicts b !! r) as [c|]; [eauto|discriminate].
Qed.

Lemma operations_mapping_pass b k p :
payload_ok (membership b) k p ->
_operations_mapping k p b = (Return NoneAdaptor, b).
Proof.
destruct k; cbn [_operations_mapping]; try reflexivity.
destruct p as [r|i j]; cbn [payload_ok]; [|intros []].
intros (d & s & Hr & _).
destruct (membership_lookup_inv b r _ Hr) as [c Hc].
unfold _add_adaptor, bind, get_self. cbn. rewrite Hc.
destruct (Status_eqb (status c) changed); reflexivity.
Qed.

Lemma append_each_pass b k (payloads : list Payload) (acc : list Adaptor) :
Forall (payload_ok (membership b) k) payloads ->
append_each payloads (_operations_mapping k) acc b
= (Return (acc ++ repeat NoneAdaptor (length payloads)), b).
Proof.
intros H. revert acc.
induction H as [|p payloads Hp _ IH]; intros acc; cbn [append_each length repeat].
- now rewrite app_nil_r.
- unfold bind. rewrite (operations_mapping_pass b k p Hp).
rewrite IH, <- app_assoc. reflexivity.
Qed.

Lemma create_adaptors_loop_pass b ops (acc : list Adaptor) :
typed (membership b) ops ->
create_adaptors_loop ops acc b
= (Return (acc ++ repeat NoneAdaptor (length (flat_map snd ops))), b).
Proof.
intros H. revert acc.
induction H as [|[k payloads] ops Hk _ IH]; intros acc;
cbn [create_adaptors_loop flat_map snd fst length repeat].
- now rewrite app_nil_r.
- unfold bind. cbn [fst snd] in Hk.
rewrite (append_each_pass b k payloads acc Hk), IH.
rewrite length_app, repeat_app, <- app_assoc. reflexivity.
Qed.

End AdaptorsOfSession.

(** X12.  At any point of a session [create_adaptors] runs to its end:
    it leaves the builder as it is, its local list gets one adaptor for
    each recorded payload, and the call evaluates to [None]. *)
Theorem session_create_adaptors (parent child : Space) (calls : list Call) :
  let b := run_calls calls (detected parent child) in
  create_adaptors_loop (operations b) [] b
  = (Return (repeat NoneAdaptor (recorded_payloads b)), b)
  /\ create_adaptors b = (Return VNone, b).
Proof.
  intros b.
  assert (H : log_typed b).
  { apply (keeps_run_calls stays_typed stays_typed_refl stays_typed_trans
             calls (detected parent child) keeps_typed_run_call).
    unfold log_typed, typed. cbn. constructor. }
  pose proof (create_adaptors_loop_pass b (operations b) [] H) as Hloop.
  cbn [app] in Hloop. split; [exact Hloop|].
  unfold create_adaptors, bind, get_self. cbn [fst snd].
  fold (recorded_payloads b) in Hloop.
  unfold recorded_payloads in *. rewrite Hloop. reflexivity.
Qed.

(** ** The directive parser on unambiguous arguments *)

Section Parser.

Import Commandline.

Implicit Types (l pre post : list string) (arg : string) (T : list nat).

Lemma index_first x l1 l2 :
~ In x l1 -> PyList.index x (l1 ++ x :: l2) = Some (length l1).
Proof.
induction l1 as [|y l1 IH]; cbn [app PyList.index length]; intros Hn.
- now rewrite String.eqb_refl.
- destruct (String.eqb_spec y x) as [-> | Hne].
  + exfalso. apply Hn. now left.
  + rewrite IH; [reflexivity|]. intros H. apply Hn. now right.
Qed.

(** The tokens already visited do not hide a later one. *)
Lemma rewritten_prefix_free pre arg post :
unambiguous (pre ++ arg :: post) -> ~ In arg (map rewritten pre).
Proof.
intros [Hnd Hcol] Hin. apply in_map_iff in Hin as (p & Hp & Hin).
assert (HpA : In p (pre ++ arg :: post)) by (apply in_or_app; now left).
assert (HaA : In arg (pre ++ arg :: post))
  by (apply in_or_app; right; now left).
unfold rewritten in Hp. destruct (carries "~+" p) eqn:E.
- apply (Hcol p HpA E). unfold rewritten. rewrite E, Hp. exact HaA.
- subst p. apply List.NoDup_remove_2 in Hnd. apply Hnd.
  apply in_or_app. now left.
Qed.

Lemma queues_of_snoc pre arg :
queues_of (pre ++ [arg])
= [ ("~+", List.filter (carries "~+") pre
           ++ (if carries "~+" arg then [arg] else []));
    ("~-", List.filter (carries "~-") pre
           ++ (if carries "~-" arg then [arg] else []));
    ("~>", List.filter (carries "~>") pre
           ++ (if carries "~>" arg then [arg] else [])) ].
Proof.
unfold queues_of. rewrite !List.filter_app. cbn [List.filter]. reflexivity.
Qed.

Lemma dropped_positions_app offset l1 l2 :
dropped_positions offset (l1 ++ l2)
= dropped_positions offset l1 ++ dropped_positions (offset + length l1) l2.
Proof.
revert offset. induction l1 as [|a l1 IH]; intros offset;
  cbn [app dropped_positions length].
- now rewrite Nat.add_0_r.
- rewrite IH, Nat.add_succ_comm. now destruct (dropped a).
Qed.

(** The inner loop on a token with at most one marker, met at its own
  position. *)
Lemma keyword_loop_single pre arg post T :
unambiguous (pre ++ arg :: post) -> markers arg <= 1 ->
keyword_loop arg ["~+"; "~-"; "~>"]
  {| args := map rewritten pre ++ arg :: post;
     to_delete := T;
     commandline_keywords := queues_of pre |}
= (Return tt,
   {| args := map rewritten (pre ++ [arg]) ++ post;
      to_delete := T ++ dropped_positions (length pre) [arg];
      commandline_keywords := queues_of (pre ++ [arg]) |}).
Proof.
intros Hun Hm.
pose proof (index_first arg (map rewritten pre) post
              (rewritten_prefix_free pre arg post Hun)) as Hidx.
assert (Hlen : length (map rewritten pre) = length pre) by apply length_map.
rewrite queues_of_snoc, map_app, <- app_assoc.
cbn [map app dropped_positions].
set (R := map rewritten pre) in *. clearbody R.
unfold markers in Hm. unfold dropped, rewritten.
unfold keyword_loop, keyword_step. cbn [args to_delete commandline_keywords].
change (PyStr.contains "~+" arg) with (carries "~+" arg).
change (PyStr.contains "~-" arg) with (carries "~-" arg).
change (PyStr.contains "~>" arg) with (carries "~>" arg).
destruct (carries "~+" arg) eqn:E1; destruct (carries "~-" arg) eqn:E2;
  destruct (carries "~>" arg) eqn:E3; try (exfalso; cbn in Hm; lia);
  cbn [orb]; unfold queues_of;
  cbn [queue String.eqb Ascii.eqb Bool.eqb args to_delete commandline_keywords];
  rewrite ?Hidx, ?E1, ?E2, ?E3, ?app_nil_r; cbn [String.eqb Ascii.eqb Bool.eqb];
  rewrite ?Hlen; try reflexivity.
rewrite insert_app_r_alt by lia.
rewrite Hlen, Nat.sub_diag. reflexivity.
Qed.

Lemma arg_loop_visits mid : forall pre rest T fuel,
unambiguous (pre ++ mid ++ rest) ->
Forall (fun arg => markers arg <= 1) mid ->
arg_loop (length mid + fuel) (length pre)
  {| args := map rewritten pre ++ mid ++ rest;
     to_delete := T;
     commandline_keywords := queues_of pre |}
= arg_loop fuel (length (pre ++ mid))
    {| args := map rewritten (pre ++ mid) ++ rest;
       to_delete := T ++ dropped_positions (length pre) mid;
       commandline_keywords := queues_of (pre ++ mid) |}.
Proof.
induction mid as [|arg mid IH]; intros pre rest T fuel Hun Hm.
- cbn [length Nat.add app dropped_positions]. now rewrite !app_nil_r.
- apply Forall_cons in Hm as [Harg Hm].
  cbn [length Nat.add arg_loop args app].
  rewrite (list_lookup_middle (map rewritten pre) (mid ++ rest) arg (length pre))
    by (now rewrite length_map).
  change (map fst (commandline_keywords _)) with ["~+"; "~-"; "~>"].
  rewrite (keyword_loop_single pre arg (mid ++ rest) T Hun Harg).
  assert (Hun' : unambiguous ((pre ++ [arg]) ++ mid ++ rest))
    by (now rewrite <- app_assoc).
  pose proof (IH (pre ++ [arg]) rest
                (T ++ dropped_positions (length pre) [arg]) fuel Hun' Hm) as Hnext.
  rewrite length_app, Nat.add_1_r in Hnext. cbn [length] in Hnext.
  rewrite Hnext, <- !app_assoc. cbn [app dropped_positions].
  now destruct (dropped arg).
Qed.

Lemma insert_desc_below x (l : list nat) :
Forall (fun y => x < y) l -> insert_desc x l = l ++ [x].
Proof.
induction 1 as [|y l Hy _ IH]; cbn [insert_desc app]; [reflexivity|].
destruct (Nat.leb_spec y x); [lia|]. now rewrite IH.
Qed.

Lemma dropped_positions_ge offset l :
Forall (fun y => offset <= y) (dropped_positions offset l).
Proof.
revert offset. induction l as [|a l IH]; intros offset;
  cbn [dropped_positions]; [constructor|].
assert (Hrest : Forall (fun y => offset <= y) (dropped_positions (S offset) l)).
{ eapply List.Forall_impl; [|apply IH]. cbn. intros; lia. }
destruct (dropped a); [constructor; [lia|]|]; exact Hrest.
Qed.

Lemma sorted_reverse_positions offset l :
sorted_reverse (dropped_positions offset l) = rev (dropped_positions offset l).
Proof.
revert offset. induction l as [|a l IH]; intros offset;
  cbn [dropped_positions]; [reflexivity|].
destruct (dropped a); [|apply IH].
unfold sorted_reverse. cbn [fold_right rev]. fold (sorted_reverse (dropped_positions (S offset) l)).
rewrite IH. apply insert_desc_below.
apply List.Forall_forall. intros y Hy. apply in_rev in Hy.
pose proof (dropped_positions_ge (S offset) l) as Hge.
rewrite List.Forall_forall in Hge. specialize (Hge y Hy). lia.
Qed.

(** Deleting the recorded positions from the right leaves the tokens
  that are neither drop nor rename tokens. *)
Lemma delete_loop_positions l : forall (M : list string) T K,
delete_loop (rev (dropped_positions 0 l))
  {| args := map rewritten l ++ M; to_delete := T; commandline_keywords := K |}
= (Return tt,
   {| args := map rewritten (List.filter (fun arg => negb (dropped arg)) l) ++ M;
      to_delete := T; commandline_keywords := K |}).
Proof.
induction l as [|a l IH] using rev_ind; intros M T K; [reflexivity|].
rewrite dropped_positions_app, List.filter_app, !map_app, <- !app_assoc.
cbn [dropped_positions List.filter map app Nat.add].
destruct (dropped a); cbn [negb map app rev].
- rewrite rev_app_distr. cbn [rev app delete_loop args].
  assert (Hlt : Nat.ltb (length l) (length (map rewritten l ++ rewritten a :: M)) = true).
  { apply Nat.ltb_lt. rewrite length_app, length_map. cbn [length]. lia. }
  rewrite Hlt.
  replace (delete (length l) (map rewritten l ++ rewritten a :: M))
    with (map rewritten l ++ M).
  + cbn [to_delete commandline_keywords]. apply IH.
  + rewrite <- (length_map rewritten l) at 1. now rewrite delete_middle.
- rewrite app_nil_r. apply IH.
Qed.

Lemma parser_initial (user_args : list string) :
initial user_args
= {| args := map rewritten [] ++ user_args ++ [];
     to_delete := [];
     commandline_keywords := queues_of [] |}.
Proof. unfold initial. cbn [map app]. now rewrite app_nil_r. Qed.

End Parser.

(** X13.  On pairwise distinct tokens that carry at most one marker each,
    no rewritten append token being a token of the list, the directive
    parser returns; it leaves the tokens that are neither drop nor rename
    tokens, in order, the append tokens rewritten, and each queue holds
    the tokens of its marker, in order. *)
Theorem interpret_commandline_unambiguous (user_args : list string) :
  unambiguous user_args ->
  Forall (fun arg => markers arg <= 1) user_args ->
  let run := Commandline._interpret_commandline user_args in
  fst run = Return tt
  /\ Commandline.args (snd run)
     = map rewritten (List.filter (fun arg => negb (dropped arg)) user_args)
  /\ Commandline.commandline_keywords (snd run) = queues_of user_args.
Proof.
  intros Hun Hm. cbv zeta. unfold Commandline._interpret_commandline.
  assert (Hun' : unambiguous ([] ++ user_args ++ [])) by (now rewrite app_nil_r).
  pose proof (arg_loop_visits user_args [] [] [] 0 Hun' Hm) as Hloop.
  rewrite <- parser_initial, Nat.add_0_r in Hloop.
  cbn [length app Commandline.arg_loop] in Hloop.
  replace (length (Commandline.args (Commandline.initial user_args)))
    with (length user_args) by reflexivity.
  rewrite Hloop. cbn [Commandline.to_delete].
  rewrite sorted_reverse_positions, delete_loop_positions.
  cbn [fst snd Commandline.args Commandline.commandline_keywords].
  now rewrite app_nil_r.
Qed.

Lemma interpret_commandline_unambiguous_witness :
  let user_args := ["--a~+uniform(0,1)"; "--x~uniform(0,1)"; "--b~-"; "--c~>d"] in
  let run := Commandline._interpret_commandline user_args in
  fst run = Return tt
  /\ Commandline.args (snd run)
     = map rewritten (List.filter (fun arg => negb (dropped arg)) user_args)
  /\ Commandline.commandline_keywords (snd run) = queues_of user_args.
Proof.
  intros user_args.
  apply (interpret_commandline_unambiguous user_args).
  - split.
    + unfold user_args. repeat constructor; cbn; intuition discriminate.
    + unfold user_args. intros arg [<-|[<-|[<-|[<-|[]]]]]; vm_compute;
        intuition discriminate.
  - unfold user_args. repeat constructor; vm_compute; lia.
Defined.

(** ** A token with an append marker and another marker *)

Section ParserFailure.

Import Commandline.

Implicit Types (l pre post : list string) (arg : string) (T : list nat).

(** Once the append marker of a token is rewritten, the token is no
  longer in the list: the lookup for its second marker fails. *)
Lemma keyword_loop_two_markers pre arg post T :
unambiguous (pre ++ arg :: post) ->
carries "~+" arg = true -> dropped arg = true ->
exists st,
  keyword_loop arg ["~+"; "~-"; "~>"]
    {| args := map rewritten pre ++ arg :: post;
       to_delete := T;
       commandline_keywords := queues_of pre |}
  = (Raise ValueError, st)
  /\ args st = map rewritten (pre ++ [arg]) ++ post.
Proof.
intros Hun E1 Hd.
pose proof (rewritten_prefix_free pre arg post Hun) as Hfree.
pose proof (index_first arg (map rewritten pre) post Hfree) as Hidx.
assert (Hlen : length (map rewritten pre) = length pre) by apply length_map.
assert (Hnone : PyList.index arg
                  (map rewritten pre ++ PyStr.replace "~+" "~" arg :: post)
                = None).
{ apply index_None. intros Hin. destruct Hun as [Hnd Hcol].
  apply in_app_or in Hin as [Hin | [Hin | Hin]].
  - exact (Hfree Hin).
  - apply (Hcol arg); [apply in_or_app; right; now left | exact E1 |].
    unfold rewritten. rewrite E1, Hin. apply in_or_app. right. now left.
  - apply List.NoDup_remove_2 in Hnd. apply Hnd. apply in_or_app. now right. }
rewrite map_app, <- app_assoc. cbn [map app].
replace (rewritten arg) with (PyStr.replace "~+" "~" arg)
  by (unfold rewritten; now rewrite E1).
set (R := map rewritten pre) in *. clearbody R.
unfold dropped in Hd.
unfold keyword_loop, keyword_step. cbn [args to_delete commandline_keywords].
change (PyStr.contains "~+" arg) with (carries "~+" arg).
change (PyStr.contains "~-" arg) with (carries "~-" arg).
change (PyStr.contains "~>" arg) with (carries "~>" arg).
rewrite E1, Hidx. cbn [String.eqb Ascii.eqb Bool.eqb args].
rewrite insert_app_r_alt by lia. rewrite Nat.sub_diag.
change (<[0:=PyStr.replace "~+" "~" arg]> (arg :: post))
  with (PyStr.replace "~+" "~" arg :: post).
destruct (carries "~-" arg) eqn:E2.
- cbn [args to_delete commandline_keywords]. rewrite Hnone.
  eexists. split; reflexivity.
- cbn [orb] in Hd. rewrite Hd. cbn [args to_delete commandline_keywords].
  rewrite Hnone. eexists. split; reflexivity.
Qed.

End ParserFailure.

(** X14.  A token that carries the append marker and also a drop or a
    rename marker makes the directive parser raise [ValueError] (the
    tokens before it carrying at most one marker each, all tokens
    pairwise distinct, no rewritten append token being a token of the
    list): its append marker is rewritten in the list first, and the
    lookup of the token for its other marker then fails.  The list is
    left with the append tokens rewritten up to that token and nothing
    deleted. *)
Theorem interpret_commandline_two_markers (pre post : list string) (arg : string) :
  unambiguous (pre ++ arg :: post) ->
  Forall (fun a => markers a <= 1) pre ->
  Commandline.carries "~+" arg = true -> dropped arg = true ->
  let run := Commandline._interpret_commandline (pre ++ arg :: post) in
  fst run = Raise ValueError
  /\ Commandline.args (snd run) = map rewritten (pre ++ [arg]) ++ post.
Proof.
  intros Hun Hm E1 Hd. cbv zeta. unfold Commandline._interpret_commandline.
  assert (Hun' : unambiguous ([] ++ pre ++ arg :: post)) by exact Hun.
  pose proof (arg_loop_visits pre [] (arg :: post) [] (S (length post)) Hun' Hm)
    as Hloop.
  cbn [map app length] in Hloop.
  replace (length (Commandline.args (Commandline.initial (pre ++ arg :: post))))
    with (length pre + S (length post))
    by (cbn [Commandline.initial Commandline.args];
        rewrite length_app; reflexivity).
  change (Commandline.initial (pre ++ arg :: post))
    with {| Commandline.args := pre ++ arg :: post;
            Commandline.to_delete := [];
            Commandline.commandline_keywords := queues_of [] |}.
  rewrite Hloop. cbn [Commandline.arg_loop Commandline.args].
  rewrite (list_lookup_middle (map rewritten pre) post arg (length pre))
    by (now rewrite length_map).
  change (map fst (Commandline.commandline_keywords _)) with ["~+"; "~-"; "~>"].
  destruct (keyword_loop_two_markers pre arg post
              (dropped_positions 0 pre) Hun E1 Hd) as (st & -> & Hargs).
  split; [reflexivity | exact Hargs].
Qed.

Lemma interpret_commandline_two_markers_witness :
  let run := Commandline._interpret_commandline
               (["--a~-"] ++ "--x~+~>y" :: ["--z~uniform(0,1)"]) in
  fst run = Raise ValueError
  /\ Commandline.args (snd run)
     = map rewritten (["--a~-"] ++ ["--x~+~>y"]) ++ ["--z~uniform(0,1)"].
Proof.
  apply (interpret_commandline_two_markers ["--a~-"] ["--z~uniform(0,1)"]
           "--x~+~>y").
  - split.
    + repeat constructor; cbn; intuition discriminate.
    + intros arg [<-|[<-|[<-|[]]]]; vm_compute; intuition discriminate.
  - repeat constructor; vm_compute; lia.
  - reflexivity.
  - reflexivity.
Defined.

(** ** Solved conflicts and the log *)

Section Recorded.

Implicit Types (b : Builder) (r : Ref) (p : Payload) (k : OpName).

Lemma stays_recorded_refl b : stays_recorded b b.
Proof. intros H. exact H. Qed.

Lemma stays_recorded_trans b1 b2 b3 :
stays_recorded b1 b2 -> stays_recorded b2 b3 -> stays_recorded b1 b3.
Proof. unfold stays_recorded. auto. Qed.

Lemma In_PyList_remove_other p q (l : list Payload) :
In p l -> p <> q -> In p (PyList.remove q l).
Proof.
intros Hin Hne. induction l as [|x l IH]; cbn; [destruct Hin|].
destruct (Payload_eqb x q) eqn:E.
- apply Payload_eqb_eq in E. subst x.
destruct Hin as [-> | Hin]; [congruence | exact Hin].
- destruct Hin as [-> | Hin]; [now left | right; now apply IH].
Qed.

Lemma solved_after_unsolving r a b :
solved r (with_solved a false b) = Some true ->
r <> a /\ solved r b = Some true.
Proof.
intros H. destruct (decide (a = r)) as [<- | Hne].
- unfold solved in H. rewrite conflicts_with_solved, list_lookup_alter_eq in H.
destruct (conflicts b !! a); discriminate.
- rewrite solved_with_solved_other in H by assumption. split; congruence.
Qed.

Lemma solved_after_solving r a b :
solved r (with_solved a true b) = Some true ->
r = a \/ solved r b = Some true.
Proof.
intros H. destruct (decide (a = r)) as [<- | Hne]; [now left|].
rewrite solved_with_solved_other in H by assumption. now right.
Qed.

(** A payload may go once every conflict it mentions is unsolved. *)
Lemma recorded_shrink b b' k p :
(forall r, solved r b' = Some true ->
         solved r b = Some true /\ mentions r p = false) ->
operations b'
= PyDict.set k (PyList.remove p (PyDict.get k (operations b))) (operations b) ->
stays_recorded b b'.
Proof.
intros Hs Ho Hinv r Hr. destruct (Hs r Hr) as [Hb Hm].
destruct (Hinv r Hb) as (k' & q & Hin & Hq).
exists k', q. split; [|exact Hq]. rewrite Ho.
destruct (OpName_eqb k' k) eqn:E.
- apply OpName_eqb_eq in E. subst k'. rewrite get_set_same.
apply In_PyList_remove_other; [exact Hin|]. intros ->. congruence.
- rewrite get_set_other; [exact Hin|]. intros ->.
rewrite OpName_eqb_refl in E. discriminate.
Qed.

(** A conflict may be solved once a payload that mentions it is put. *)
Lemma recorded_put b0 b k p :
operations b = operations b0 ->
(forall r, solved r b = Some true ->
         solved r b0 = Some true \/ mentions r p = true) ->
stays_recorded b0 (exec (_put_operation k p) b).
Proof.
intros Ho Hs Hinv r. unfold exec.
destruct (put_operation_run k p b) as (ops' & -> & Hk & Hother & _).
cbn [snd]. unfold solved. cbn [conflicts operations]. intros Hr.
assert (Hp : In p (PyDict.get k ops')).
{ rewrite Hk. destruct (PyList.mem p _) eqn:Em.
- now apply mem_In.
- apply in_or_app. right. now left. }
destruct (Hs r Hr) as [Hb | Hm]; [|now exists k, p].
destruct (Hinv r Hb) as (k' & q & Hin & Hq). rewrite <- Ho in Hin.
exists k', q. split; [|exact Hq].
destruct (OpName_eqb k' k) eqn:E.
- apply OpName_eqb_eq in E. subst k'. rewrite Hk.
destruct (PyList.mem p _); [exact Hin | apply in_or_app; now left].
- rewrite Hother; [exact Hin|]. intros ->.
rewrite OpName_eqb_refl in E. discriminate.
Qed.

Lemma keeps_recorded_unsolve r : keeps stays_recorded (set_is_solved r false).
Proof.
intros b Hinv r' Hr'.
change (exec (set_is_solved r false) b) with (with_solved r false b) in *.
apply solved_after_unsolving in Hr' as [_ Hr']. now apply Hinv.
Qed.

Lemma keeps_recorded_mark_unsolved x sts :
keeps stays_recorded (_mark_as x sts false).
Proof.
intros b. unfold exec. rewrite mark_as_run.
destruct (first_match x sts b) as [[r c]|]; cbn [snd].
- apply (keeps_recorded_unsolve r b).
- apply stays_recorded_refl.
Qed.

Lemma keeps_recorded_remove_conflict arg k :
keeps stays_recorded
(set_is_solved arg false ;;;
 update_operation k (PyList.remove (PConflict arg))).
Proof.
intros b. apply (recorded_shrink b _ k (PConflict arg)); [|reflexivity].
intros r Hr.
change (solved r (with_solved arg false b) = Some true) in Hr.
apply solved_after_unsolving in Hr as [Hne Hr]. split; [exact Hr|].
cbn. now apply Nat.eqb_neq.
Qed.

Lemma keeps_recorded_rename_loop fuel i arg :
keeps stays_recorded (rename_loop fuel i arg).
Proof.
revert i. induction fuel as [|fuel IH]; intros i b;
[apply stays_recorded_refl|].
unfold exec. cbn [rename_loop]. unfold bind at 1, get_self.
destruct (PyDict.get op_rename (operations b) !! i) as [[c|old_c new_c]|];
try apply stays_recorded_refl.
destruct (Nat.eqb arg old_c || Nat.eqb arg new_c); [|apply IH].
change (stays_recorded b
        (exec (rename_loop fuel (S i) arg)
           (exec (update_operation op_rename
                    (PyList.remove (PTuple old_c new_c)))
              (with_solved new_c false (with_solved old_c false b))))).
eapply stays_recorded_trans; [|apply IH].
apply (recorded_shrink b _ op_rename (PTuple old_c new_c)); [|reflexivity].
intros r Hr.
change (solved r (with_solved new_c false (with_solved old_c false b))
      = Some true) in Hr.
apply solved_after_unsolving in Hr as [Hn Hr].
apply solved_after_unsolving in Hr as [Ho Hr]. split; [exact Hr|].
cbn. apply orb_false_iff. split; now apply Nat.eqb_neq.
Qed.

Lemma keeps_recorded_remove_from_operations arg :
keeps stays_recorded (_remove_from_operations arg).
Proof.
unfold _remove_from_operations.
apply keeps_bind;
[exact stays_recorded_trans
| apply keeps_get_self; exact stays_recorded_refl | intros b0].
apply keeps_for_each;
[exact stays_recorded_refl | exact stays_recorded_trans | intros k].
destruct (OpName_eqb k op_rename);
(apply keeps_bind;
   [exact stays_recorded_trans
   | apply keeps_get_self; exact stays_recorded_refl | intros b1]).
- apply keeps_recorded_rename_loop.
- destruct (PyList.mem _ _).
+ apply keeps_recorded_remove_conflict.
+ intros b. apply stays_recorded_refl.
Qed.

Lemma keeps_recorded_do_basic a sts k :
keeps stays_recorded (_do_basic a sts k).
Proof.
unfold _do_basic, _do_basic_loop.
apply keeps_bind;
[exact stays_recorded_trans
| apply keeps_get_self; exact stays_recorded_refl | intros b0].
apply keeps_for_each;
[exact stays_recorded_refl | exact stays_recorded_trans | intros n].
intros b. unfold exec, bind, _mark_as_solved. rewrite mark_as_run.
destruct (first_match n sts b) as [[r c]|]; [|apply stays_recorded_refl].
apply (recorded_put b (with_solved r true b) k (PConflict r)); [reflexivity|].
intros r' Hr'. apply solved_after_solving in Hr' as [-> | Hr']; [right|now left].
cbn. apply Nat.eqb_refl.
Qed.

Lemma keeps_recorded_run_call c : keeps stays_recorded (run_call c).
Proof.
destruct c; cbn [run_call].
- apply keeps_recorded_do_basic.
- apply keeps_recorded_do_basic.
- intros b. unfold exec. rewrite rename_dimension_run.
destruct (first_match old_name _ b) as [[i ci]|];
  [|apply stays_recorded_refl].
destruct (first_match new_name _ b) as [[j cj]|];
  [|apply stays_recorded_refl].
apply (recorded_put b (with_solved j true (with_solved i true b))
         op_rename (PTuple i j)); [reflexivity|].
intros r Hr. cbn [mentions].
apply solved_after_solving in Hr as [-> | Hr];
  [right; rewrite Nat.eqb_refl; apply orb_true_r|].
apply solved_after_solving in Hr as [-> | Hr];
  [right; now rewrite Nat.eqb_refl | now left].
- unfold reset_dimension.
apply keeps_bind;
  [exact stays_recorded_trans
  | apply keeps_get_self; exact stays_recorded_refl | intros b0].
apply keeps_for_each;
  [exact stays_recorded_refl | exact stays_recorded_trans | intros n].
apply keeps_bind;
  [exact stays_recorded_trans | apply keeps_recorded_mark_unsolved
  | intros r; apply keeps_recorded_remove_from_operations].
Qed.

End Recorded.

(** X15.  At any point of a session, every solved conflict is recorded:
    some list of the operation log holds a payload that mentions it, so
    no resolution is lost to [create_adaptors]. *)
Theorem session_solved_recorded (parent child : Space) (calls : list Call)
  (r : Ref) :
  let b := run_calls calls (detected parent child) in
  solved r b = Some true ->
  exists k p, In p (PyDict.get k (operations b)) /\ mentions r p = true.
Proof.
  intros b.
  assert (H : solved_recorded b).
  { apply (keeps_run_calls stays_recorded stays_recorded_refl
             stays_recorded_trans calls (detected parent child)
             keeps_recorded_run_call).
    intros r0 Hr0. exfalso. unfold solved, detected in Hr0. cbn in Hr0.
    destruct (find_conflicts parent child !! r0) as [c|] eqn:E; [|discriminate].
    apply list_elem_of_lookup_2, list_elem_of_In in E.
    apply find_conflicts_In in E as [Hc _]. cbn in Hr0. congruence. }
  exact (H r).
Qed.

Lemma session_solved_recorded_witness :
  exists k p,
    In p (PyDict.get k
            (operations (run_calls [call_add_dimension "new"] Scenario.builder)))
    /\ mentions 0 p = true.
Proof.
  apply (session_solved_recorded Scenario.parent Scenario.child
           [call_add_dimension "new"] 0).
  reflexivity.
Defined.

(** ** Keyword and wildcard arguments *)

Section Expansions.

Implicit Types (b : Builder) (r : Ref) (c : Conflict) (sts : StatusArg)
(k : OpName) (arg : string).

Lemma filter_from_In i (f : Conflict -> bool) (cs : list Conflict) r c :
In (r, c) (filter_from i f cs)
<-> exists j, r = i + j /\ cs !! j = Some c /\ f c = true.
Proof.
revert i. induction cs as [|c0 cs IH]; intros i; cbn [filter_from].
- split; [intros [] | intros (j & _ & H & _); discriminate].
- assert (Htail : In (r, c) (filter_from (S i) f cs)
                  <-> exists j, r = i + S j /\ cs !! j = Some c /\ f c = true).
  { rewrite IH. split; intros (j & -> & H); exists j; (split; [lia | exact H]). }
  destruct (f c0) eqn:E; cbn [In]; rewrite Htail; split.
  + intros [[= <- <-] | (j & -> & H)].
    * exists 0. rewrite Nat.add_0_r. auto.
    * exists (S j). auto.
  + intros ([|j] & -> & Hl & Hf).
    * left. cbn in Hl. injection Hl as <-. now rewrite Nat.add_0_r.
    * right. exists j. auto.
  + intros (j & -> & H). exists (S j). auto.
  + intros ([|j] & -> & Hl & Hf).
    * cbn in Hl. injection Hl as <-. congruence.
    * exists j. auto.
Qed.

Lemma filter_conflicts_In (f : Conflict -> bool) b r c :
In (r, c) (filter_conflicts f b) <-> conflicts b !! r = Some c /\ f c = true.
Proof.
unfold filter_conflicts. rewrite filter_from_In. split.
- intros (j & -> & H). exact H.
- intros H. exists r. auto.
Qed.

(** What a keyword or wildcard token expands to. *)
Lemma get_names_expansion arg sts b :
is_literal arg = false -> PyStr.contains " " arg = false ->
_get_names arg sts b = stripped_names (filter_conflicts (selected arg sts) b).
Proof.
intros Hlit Hsp. rewrite get_names_token by assumption.
unfold is_literal in Hlit. unfold _get_names_step, _extend_special_keywords,
  _extend_wildcard, _filter_conflicts_status, selected.
destruct (special_keywords arg) as [s|] eqn:E.
- rewrite bool_decide_eq_true_2 by eauto. reflexivity.
- assert (Hn : ~ is_Some (@None Status)) by (intros [x Hx]; discriminate Hx).
  rewrite (bool_decide_eq_false_2 _ Hn) in Hlit |- *.
  cbn [negb andb] in Hlit. apply negb_false_iff in Hlit. rewrite Hlit.
  reflexivity.
Qed.

Lemma starts_with_separator (s : string) :
PyStr.startswith s "/" = true -> s = ("/" ++ PyStr.tail s)%string.
Proof.
unfold PyStr.startswith.
destruct s as [|a s]; cbn [String.prefix PyStr.tail]; [discriminate|].
destruct (ascii_dec "/" a) as [<- | Hne]; [reflexivity | discriminate].
Qed.

(** The names of the conflicts of a session start with the separator. *)
Lemma session_names_prefixed parent child calls r c :
prefixed parent -> prefixed child ->
conflicts (run_calls calls (detected parent child)) !! r = Some c ->
name (dimension c) = ("/" ++ PyStr.tail (name (dimension c)))%string.
Proof.
intros Hp Hc Hr. apply starts_with_separator.
apply membership_lookup in Hr. rewrite session_membership in Hr.
destruct (membership_lookup_inv _ _ _ Hr) as [c0 Hc0].
pose proof (membership_lookup _ _ _ Hc0) as Hm. rewrite Hr in Hm.
injection Hm as Hd Hs. rewrite Hd.
apply list_elem_of_lookup_2, list_elem_of_In in Hc0.
cbn [detected conflicts] in Hc0.
apply find_conflicts_In in Hc0 as [_ Hin].
unfold prefixed in Hp, Hc. rewrite List.Forall_forall in Hp, Hc.
destruct (status c0); [apply Hc | apply Hc | apply Hp]; tauto.
Qed.

(** The loop of [_do_basic] over the names of conflicts that the lookup
  admits: it returns, solves and records each of them, and leaves the
  other conflicts as they are. *)
Lemma do_basic_loop_selected sts k (M : list (Dimension * Status))
(sel : list (Ref * Conflict)) :
List.NoDup (map (fun m => name (fst m)) M) ->
(forall r c, In (r, c) sel ->
   M !! r = Some (dimension c, status c)
   /\ status_in (status c) sts = true
   /\ name (dimension c) = ("/" ++ PyStr.tail (name (dimension c)))%string) ->
forall b, membership b = M ->
exists b',
  _do_basic_loop sts k (stripped_names sel) b = (Return tt, b')
  /\ membership b' = M
  /\ (forall r, solved r b = Some true -> solved r b' = Some true)
  /\ (forall k' p, In p (PyDict.get k' (operations b)) ->
                   In p (PyDict.get k' (operations b')))
  /\ (forall r c, In (r, c) sel ->
        solved r b' = Some true
        /\ In (PConflict r) (PyDict.get k (operations b')))
  /\ (forall r, (forall c, ~ In (r, c) sel) -> solved r b' = solved r b).
Proof.
intros Hnd. induction sel as [|[r0 c0] sel IH]; intros Hsel b Hb.
- exists b. cbn [stripped_names map _do_basic_loop for_each].
  split; [reflexivity|]. split; [exact Hb|]. split; [auto|].
  split; [auto|]. split; [intros r c [] | reflexivity].
- destruct (Hsel r0 c0 (or_introl eq_refl)) as (Hr0 & Hst & Hname).
  rewrite <- Hb in Hr0. destruct (membership_lookup_inv _ _ _ Hr0) as [c1 Hc1].
  pose proof (membership_lookup _ _ _ Hc1) as Hm1. rewrite Hr0 in Hm1.
  injection Hm1 as Hd Hs.
  assert (Hfm : first_match (PyStr.tail (name (dimension c0))) sts b
                = Some (r0, c1)).
  { rewrite (first_match_settles _ sts b r0 c1).
    - now rewrite <- Hs, Hst.
    - rewrite conflict_names_membership, Hb. exact Hnd.
    - exact Hc1.
    - rewrite <- Hd. exact Hname. }
  cbn [stripped_names map snd]. unfold _do_basic_loop. cbn [for_each].
  unfold bind at 1. unfold bind at 1. unfold _mark_as_solved.
  rewrite mark_as_run, Hfm.
  destruct (put_operation_run k (PConflict r0) (with_solved r0 true b))
    as (ops' & -> & Hk & Hother & _).
  set (b1 := {| conflicts := conflicts (with_solved r0 true b);
                operations := ops' |}).
  assert (Hb1 : membership b1 = M)
    by (rewrite <- Hb; apply (membership_with_solved r0 true b)).
  assert (Hlt : r0 < length (conflicts b))
    by (apply lookup_lt_is_Some; eauto).
  assert (Hs1 : forall r, solved r b1 = if decide (r0 = r) then Some true
                                        else solved r b).
  { intros r. change (solved r b1) with (solved r (with_solved r0 true b)).
    destruct (decide (r0 = r)) as [<- | Hne].
    - now apply solved_with_solved_same.
    - now apply solved_with_solved_other. }
  assert (Hin1 : In (PConflict r0) (PyDict.get k (operations b1))).
  { cbn [b1 operations]. rewrite Hk. cbn [operations with_solved].
    destruct (PyList.mem _ _) eqn:Em; [now apply mem_In|].
    apply in_or_app. right. now left. }
  assert (Hmono1 : forall k' p, In p (PyDict.get k' (operations b)) ->
                                In p (PyDict.get k' (operations b1))).
  { intros k' p Hp. cbn [b1 operations].
    destruct (OpName_eqb k' k) eqn:E.
    - apply OpName_eqb_eq in E. subst k'. rewrite Hk.
      change (operations (with_solved r0 true b)) with (operations b).
      destruct (PyList.mem _ _); [exact Hp | apply in_or_app; now left].
    - rewrite Hother; [exact Hp|]. intros ->.
      rewrite OpName_eqb_refl in E. discriminate. }
  destruct (IH (fun r c H => Hsel r c (or_intror H)) b1 Hb1)
    as (b' & Hrun & Hm' & Hsolved & Hmono & Hall & Hframe).
  exists b'. fold (_do_basic_loop sts k (stripped_names sel)).
  split; [exact Hrun|]. split; [exact Hm'|]. split; [|split; [|split]].
  + intros r Hr. apply Hsolved. rewrite Hs1.
    destruct (decide (r0 = r)); [reflexivity | exact Hr].
  + intros k' p Hp. apply Hmono, Hmono1, Hp.
  + intros r c [[= <- <-] | Hin]; [|now apply (Hall r c)]. split.
    * apply Hsolved. rewrite Hs1. now rewrite decide_True.
    * apply Hmono, Hin1.
  + intros r Hr. rewrite Hframe.
    * rewrite Hs1. destruct (decide (r0 = r)) as [<- | Hne]; [|reflexivity].
      exfalso. apply (Hr c0). now left.
    * intros c Hin. apply (Hr c). now right.
Qed.

End Expansions.

(** X16.  At any point of a session (well-formed spaces, names starting
    with the separator), [_do_basic] on a keyword or a wildcard token,
    hence [add_dimension] and [remove_dimension] on it, returns whenever
    every conflict the token selects has a status the call allows, as is
    always so for a wildcard; it then solves and records every selected
    conflict and leaves the solved flag of every other one as it was. *)
Theorem expansion_solves_selected (parent child : Space) (calls : list Call)
  (arg : string) (sts : StatusArg) (k : OpName) :
  SpaceOps.well_formed parent -> SpaceOps.well_formed child ->
  prefixed parent -> prefixed child ->
  is_literal arg = false -> PyStr.contains " " arg = false ->
  let b := run_calls calls (detected parent child) in
  (forall c, In c (conflicts b) -> selected arg sts c = true ->
             status_in (status c) sts = true) ->
  let b' := exec (_do_basic arg sts k) b in
  succeeds (_do_basic arg sts k) b = true
  /\ (forall r c, conflicts b !! r = Some c ->
        solved r b' = Some (selected arg sts c || is_solved c)
        /\ (selected arg sts c = true ->
            In (PConflict r) (PyDict.get k (operations b')))).
Proof.
  intros Hwp Hwc Hpp Hpc Hlit Hsp b Hall b'.
  pose proof (session_names_NoDup parent child calls Hwp Hwc) as Hnd.
  fold b in Hnd. rewrite conflict_names_membership in Hnd.
  set (sel := filter_conflicts (selected arg sts) b).
  assert (Hsel : forall r c, In (r, c) sel ->
            membership b !! r = Some (dimension c, status c)
            /\ status_in (status c) sts = true
            /\ name (dimension c)
               = ("/" ++ PyStr.tail (name (dimension c)))%string).
  { intros r c Hin. apply filter_conflicts_In in Hin as [Hr Hf].
    split; [now apply membership_lookup|]. split.
    - apply Hall; [|exact Hf].
      now apply list_elem_of_In, list_elem_of_lookup_2 with r.
    - now apply (session_names_prefixed parent child calls r c). }
  destruct (do_basic_loop_selected sts k (membership b) sel Hnd Hsel b eq_refl)
    as (b1 & Hrun & _ & _ & _ & Hdone & Hframe).
  assert (Hcall : _do_basic arg sts k b = (Return tt, b1)).
  { unfold _do_basic, bind, get_self.
    rewrite (get_names_expansion arg sts b Hlit Hsp). exact Hrun. }
  unfold succeeds, outcome. subst b'. unfold exec. rewrite Hcall. cbn [fst snd].
  split; [reflexivity|]. intros r c Hr.
  destruct (selected arg sts c) eqn:Hf; cbn [orb].
  - assert (Hin : In (r, c) sel) by (apply filter_conflicts_In; auto).
    destruct (Hdone r c Hin) as [H1 H2]. split; [exact H1 | intros _; exact H2].
  - split; [|discriminate]. rewrite Hframe.
    + unfold solved. now rewrite Hr.
    + intros c' Hin. apply filter_conflicts_In in Hin as [Hr' Hf'].
      rewrite Hr in Hr'. injection Hr' as <-. congruence.
Qed.

Lemma expansion_solves_selected_witness :
  let b := run_calls [call_remove_dimension "cache.ttl"] Scenario.db_builder in
  let b' := exec (add_dimension "db.*") b in
  succeeds (add_dimension "db.*") b = true
  /\ (forall r c, conflicts b !! r = Some c ->
        solved r b' = Some (selected "db.*" (StatusList [new; changed]) c
                            || is_solved c)
        /\ (selected "db.*" (StatusList [new; changed]) c = true ->
            In (PConflict r) (PyDict.get op_add (operations b')))).
Proof.
  apply (expansion_solves_selected Scenario.db_parent Scenario.db_child
           [call_remove_dimension "cache.ttl"] "db.*"
           (StatusList [new; changed]) op_add).
  - repeat constructor; cbn; intuition discriminate.
  - repeat constructor; cbn; intuition discriminate.
  - repeat constructor.
  - repeat constructor.
  - reflexivity.
  - reflexivity.
  - intros c [<-|[<-|[<-|[]]]]; vm_compute; intuition discriminate.
Defined.

(** X17.  At any point of a session (well-formed spaces, names starting
    with the separator), a keyword of a status the call does not allow
    makes it raise as soon as a conflict of that status exists:
    [add_dimension "~missing"] with a [missing] conflict, and
    [remove_dimension] on [~new] or [~changed] with a conflict of that
    status, raise [ValueError] and change nothing. *)
Theorem keyword_of_other_status_raises (parent child : Space)
  (calls : list Call) (kw : string) (s : Status) (sts : StatusArg) (k : OpName) :
  SpaceOps.well_formed parent -> SpaceOps.well_formed child ->
  prefixed parent -> prefixed child ->
  special_keywords kw = Some s -> status_in s sts = false ->
  let b := run_calls calls (detected parent child) in
  (exists c, In c (conflicts b) /\ status c = s) ->
  _do_basic kw sts k b = (Raise ValueError, b).
Proof.
  intros Hwp Hwc Hpp Hpc Hkw Hst b (c & Hc & Hs).
  pose proof (session_names_NoDup parent child calls Hwp Hwc) as Hnd.
  fold b in Hnd.
  assert (Hlit : is_literal kw = false).
  { unfold is_literal. rewrite bool_decide_eq_true_2 by eauto. reflexivity. }
  assert (Hsp : PyStr.contains " " kw = false).
  { unfold special_keywords in Hkw.
    destruct (String.eqb_spec kw "~new") as [-> | _]; [reflexivity|].
    destruct (String.eqb_spec kw "~changed") as [-> | _]; [reflexivity|].
    destruct (String.eqb_spec kw "~missing") as [-> | _];
      [reflexivity | discriminate]. }
  assert (Hsel : forall c0, selected kw sts c0 = true <-> status c0 = s).
  { intros c0. unfold selected. rewrite Hkw, status_in_list. cbn [In].
    intuition congruence. }
  unfold _do_basic, bind, get_self.
  rewrite (get_names_expansion kw sts b Hlit Hsp).
  destruct (filter_conflicts (selected kw sts) b) as [|[r0 c0] sel] eqn:E.
  - exfalso. apply list_elem_of_In, list_elem_of_lookup_1 in Hc as [r Hr].
    assert (Hin : In (r, c) (filter_conflicts (selected kw sts) b)).
    { apply filter_conflicts_In. split; [exact Hr | now apply Hsel]. }
    rewrite E in Hin. destruct Hin.
  - assert (Hin : In (r0, c0) (filter_conflicts (selected kw sts) b))
      by (rewrite E; now left).
    apply filter_conflicts_In in Hin as [Hr0 Hf0].
    apply Hsel in Hf0.
    pose proof (session_names_prefixed parent child calls r0 c0 Hpp Hpc Hr0)
      as Hname.
    pose proof (first_match_settles _ sts b r0 c0 Hnd Hr0 Hname) as Hfm.
    rewrite Hf0, Hst in Hfm.
    cbn [stripped_names map snd]. unfold _do_basic_loop. cbn [for_each].
    unfold bind at 1. unfold bind at 1. unfold _mark_as_solved.
    rewrite mark_as_run, Hfm. reflexivity.
Qed.

Lemma keyword_of_other_status_raises_witness :
  add_dimension "~missing" (run_calls [call_add_dimension "new"] Scenario.builder)
  = (Raise ValueError, run_calls [call_add_dimension "new"] Scenario.builder).
Proof.
  apply (keyword_of_other_status_raises Scenario.parent Scenario.child
           [call_add_dimension "new"] "~missing" missing
           (StatusList [new; changed]) op_add).
  - repeat constructor; cbn; intuition discriminate.
  - repeat constructor; cbn; intuition discriminate.
  - repeat constructor.
  - repeat constructor.
  - reflexivity.
  - reflexivity.
  - eexists. split; [right; right; left; reflexivity | reflexivity].
Defined.
